(** * Vouch: a shallow embedding of the attester, the relay registration
      submitter, the time-delay knob and the blinded-proposal scorer, with
      the properties the specification states about them.

    Conventions.
    - Go's unsigned 64-bit scalars (slots, epochs, validator and committee
      indices) are integers of [Z]; the operations used on them here
      (comparison, division, a guarded [epoch - 2]) do not wrap.  Signed
      64-bit arithmetic that can wrap ([time.Duration] products) is written
      with [wrap64].
    - Roots, public keys and signatures are fixed-size byte arrays; they are
      encoded as the big-endian integer of their bytes, so that byte-wise
      equality is equality of integers and the all-zero array is [0].
    - Go maps are [gmap]s; where the code ranges over a map, the iteration
      order (unspecified in Go) is an explicit list.
    - External collaborators (beacon node, signer, submitters, file system,
      clock) are parameters; every call to one is recorded in a trace, so
      that "no call is made" is a statement about the trace.
    - A run-time panic of the Go code is an explicit outcome. *)

From Stdlib Require Import ZArith QArith Lia Bool Ascii String Sorted.
From stdpp Require Import gmap strings list fin_maps.

#[local] Set Warnings "-clear-no-such-hyp".
Local Open Scope Z_scope.

(** ** Machine integers *)

Definition minInt64 : Z := - 2 ^ 63.
Definition maxInt64 : Z := 2 ^ 63 - 1.

(** Two's complement reduction of an integer to a signed 64-bit one. *)
Definition wrap64 (x : Z) : Z := (x + 2 ^ 63) mod 2 ^ 64 - 2 ^ 63.

(** * util/time_delay_hack.go *)

Module TimeDelay.

(** [strconv.Atoi]: an optional sign, then one or more decimal digits, the
    value within the range of [int]; anything else is an error. *)
Definition digit (c : ascii) : option Z :=
  let n := Z.of_N (N_of_ascii c) in
  if (48 <=? n) && (n <=? 57) then Some (n - 48) else None.

Fixpoint digits (acc : Z) (s : string) : option Z :=
  match s with
  | EmptyString => Some acc
  | String c s' =>
      match digit c with
      | Some d => digits (acc * 10 + d) s'
      | None => None
      end
  end.

Definition Atoi (s : string) : option Z :=
  match s with
  | EmptyString => None
  | String c rest =>
      let '(neg, body) :=
        if Ascii.eqb c "-" then (true, rest)
        else if Ascii.eqb c "+" then (false, rest)
        else (false, s) in
      match body with
      | EmptyString => None
      | _ =>
          match digits 0 body with
          | Some n =>
              let v := if neg then - n else n in
              if (minInt64 <=? v) && (v <=? maxInt64) then Some v else None
          | None => None
          end
      end
  end.

(** [time.Time] and [time.Duration] in nanoseconds.  The zero [Time] is the
    instant 0; [time.Now] never returns it. *)
Definition Second : Z := 1000000000.
Definition Millisecond : Z := 1000000.

Definition IsZero (t : Z) : bool := t =? 0.

(** [time.Duration(number) * time.Millisecond], a product of [int64]s. *)
Definition durationMs (number : Z) : Z := wrap64 (number * Millisecond).

(** The package-level variables [lastRead] and [lag]. *)
Record Globals := { lastRead : Z; lag : Z }.

(** Both are zero-initialised when the program starts. *)
Definition initial : Globals := {| lastRead := 0; lag := 0 |}.

(** What one call observes outside the package: the clock, the process
    environment and the file system ([None] stands for a read error).  The
    clock readings of [time.Since] and [time.Now] within one call are one
    instant. *)
Record World := {
  now : Z;
  getenv : string -> string;
  readFile : string -> option string
}.

(** The result of a call: the globals afterwards, the duration returned and
    the names of the files read, in order. *)
Record Outcome := { globals : Globals; returned : Z; reads : list string }.

Definition TimeDelayHack (w : World) (g : Globals) : Outcome :=
  if IsZero (lastRead g) || (60 * Second <=? now w - lastRead g) then
    let g1 := {| lastRead := now w; lag := lag g |} in
    let fileName := getenv w "TIME_DELAY_HACK" in
    if String.eqb fileName "" then
      {| globals := g1; returned := lag g1; reads := [] |}
    else
      match readFile w fileName with
      | None => {| globals := g1; returned := 0; reads := [fileName] |}
      | Some data =>
          match Atoi data with
          | None => {| globals := g1; returned := 0; reads := [fileName] |}
          | Some number =>
              let g2 := {| lastRead := now w; lag := durationMs number |} in
              {| globals := g2; returned := lag g2; reads := [fileName] |}
          end
      end
  else {| globals := g; returned := lag g; reads := [] |}.

(** A sequence of calls, each in its own world; the result lists, per call,
    the instant of the call and its outcome. *)
Fixpoint run (g : Globals) (ws : list World) : list (Z * Outcome) :=
  match ws with
  | [] => []
  | w :: ws' =>
      let o := TimeDelayHack w g in (now w, o) :: run (globals o) ws'
  end.

(** A refresh is due when nothing was read yet or a minute has passed. *)
Definition due (w : World) (g : Globals) : Prop :=
  lastRead g = 0 \/ 60 * Second <= now w - lastRead g.

(** A world at instant [t] in which the variable names a file holding 250. *)
Definition world250 (t : Z) : World :=
  {| now := t;
     getenv := fun k => if String.eqb k "TIME_DELAY_HACK" then "/etc/lag" else "";
     readFile := fun f => if String.eqb f "/etc/lag" then Some "250" else None |}.

(** A world at instant [t] in which the variable names a file that cannot
    be read ([None]) or holds [content]. *)
Definition worldWith (content : option string) (t : Z) : World :=
  {| now := t;
     getenv := fun k => if String.eqb k "TIME_DELAY_HACK" then "/etc/lag" else "";
     readFile := fun f => if String.eqb f "/etc/lag" then content else None |}.

(** The line feed that ends a line of a text file. *)
Definition lineFeed : ascii := ascii_of_nat 10.

End TimeDelay.


(** * services/attester/standard/service.go *)

Module Attester.

(** [phase0.Checkpoint], [phase0.AttestationData] and [phase0.Attestation]. *)
Record Checkpoint := { Epoch : Z; Root : Z }.

Record AttestationData := {
  Slot : Z;
  Index : Z;
  BeaconBlockRoot : Z;
  Source : Checkpoint;
  Target : Checkpoint
}.

Record Attestation := {
  AggregationBits : list bool;
  Data : AttestationData;
  Signature : Z
}.

(** [bitfield.NewBitlist] and [Bitlist.SetBitAt]; setting a bit at or beyond
    the length does nothing. *)
Definition NewBitlist (n : Z) : list bool := replicate (Z.to_nat n) false.

Definition SetBitAt (i : Z) (b : bool) (l : list bool) : list bool :=
  if (0 <=? i) && (i <? Z.of_nat (length l)) then <[Z.to_nat i := b]> l else l.

(** The zero value of [phase0.BLSSignature]. *)
Definition zeroSig : Z := 0.

(** [attester.Duty], through its accessors.  [CommitteeSize] reads a map and
    is 0 for a committee the duty does not know. *)
Record Duty := {
  dutySlot : Z;
  ValidatorIndices : list Z;
  CommitteeIndices : list Z;
  ValidatorCommitteeIndices : list Z;
  CommitteeSize : Z -> Z
}.

(** The errors [Attest] returns, with the values their messages carry. *)
Inductive AttestError :=
| ErrObtainData (cause : string)
| ErrSlotMismatch (slot dataSlot : Z)
| ErrSourceAfterTarget (slot source target : Z)
| ErrTargetAfterCurrent (slot target current : Z)
| ErrObtainAccounts (cause : string)
| ErrSign (cause : string)
| ErrSubmit (cause : string).

(** The three errors of the checks on the fetched attestation data. *)
Definition validationError (e : AttestError) : bool :=
  match e with
  | ErrSlotMismatch _ _ | ErrSourceAfterTarget _ _ _
  | ErrTargetAfterCurrent _ _ _ => true
  | _ => false
  end.

Inductive Result (A : Type) :=
| Ok (a : A)
| Err (e : AttestError)
| Panic.
Arguments Ok {A} a.
Arguments Err {A} e.
Arguments Panic {A}.

Section WithAccount.

(** [e2wtypes.Account] is an interface the attester only passes along. *)
Context {Account : Type}.

(** What the service does that is visible outside of the call: writes to the
    attested map, calls to the collaborators, warnings and the monitor.  The
    [validators] of [EvSign] are [accountValidatorIndices], the indices under
    which the caller holds the accounts it has signed for. *)
Inductive Event :=
| EvAttested (epoch index : Z)
| EvAlreadyAttested (slot : Z) (arrayIndex : nat) (index : Z)
| EvAttestationData (slot committee : Z)
| EvValidatingAccounts (epoch : Z) (indices : list Z)
| EvSign (validators : list Z) (accounts : list Account) (slot : Z)
         (committees : list Z) (blockRoot sourceEpoch sourceRoot
                                targetEpoch targetRoot : Z)
| EvNoSignature
| EvNotSubmitting
| EvSubmit (attestations : list Attestation)
| EvCompleted (slot : Z) (count : Z) (result : string)
| EvEvicted (epoch : Z).

(** The collaborators, as the results of their calls; [inl] is an error.
    [ValidatingAccountsForEpochByIndex] returns a map, given here as the list
    of its entries in the order the caller's [range] visits them. *)
Record Env := {
  AttestationDataOf : Z -> Z -> string + AttestationData;
  ValidatingAccountsForEpochByIndex : Z -> list Z -> string + list (Z * Account);
  SignBeaconAttestations :
    list Account -> Z -> list Z -> Z -> Z -> Z -> Z -> Z -> string + list Z;
  SubmitAttestations : list Attestation -> option string
}.

(** The fields of [Service] the duty reads or writes; [SlotToEpoch] is the
    chain time service's. *)
Record Service := {
  slotsPerEpoch : Z;
  SlotToEpoch : Z -> Z;
  attested : gmap Z (gset Z)
}.

Definition withAttested (s : Service) (a : gmap Z (gset Z)) : Service :=
  {| slotsPerEpoch := slotsPerEpoch s; SlotToEpoch := SlotToEpoch s;
     attested := a |}.

(** [s.attested[epoch][index]] exists. *)
Definition hasAttested (a : gmap Z (gset Z)) (epoch index : Z) : bool :=
  bool_decide (index ∈ default ∅ (a !! epoch)).

(** "Ensure that we have an attested map for this epoch." *)
Definition ensureEpoch (epoch : Z) (a : gmap Z (gset Z)) : gmap Z (gset Z) :=
  match a !! epoch with
  | Some _ => a
  | None => <[epoch := ∅]> a
  end.

(** [s.attested[epoch][index] = struct{}{}] *)
Definition markAttested (epoch index : Z) (a : gmap Z (gset Z))
  : gmap Z (gset Z) :=
  <[epoch := {[index]} ∪ default ∅ (a !! epoch)]> a.

(** "Filter the list of validator indices."  The result is the attested map
    after the loop, [validatorIndices], and what the loop did, in order. *)
Fixpoint filterIndices (epoch slot : Z) (i : nat) (indices : list Z)
    (a : gmap Z (gset Z)) : gmap Z (gset Z) * list Z * list Event :=
  match indices with
  | [] => (a, [], [])
  | index :: rest =>
      if hasAttested a epoch index then
        let '(a', vs, tr) := filterIndices epoch slot (S i) rest a in
        (a', vs, EvAlreadyAttested slot i index :: tr)
      else
        let '(a', vs, tr) :=
          filterIndices epoch slot (S i) rest (markAttested epoch index a) in
        (a', index :: vs, EvAttested epoch index :: tr)
  end.

(** One round of that loop, from [Lock] to [Unlock]: the attested map
    afterwards and whether the index is kept. *)
Definition filterRound (epoch index : Z) (a : gmap Z (gset Z))
  : gmap Z (gset Z) * bool :=
  if hasAttested a epoch index then (a, false)
  else (markAttested epoch index a, true).

(** Rounds of the filter loops of several calls that run at once, in the
    order in which they take the lock: each is the call it belongs to, the
    epoch of the duty of that call, and the validator index.  The result is
    the rounds that keep their index. *)
Fixpoint keptRounds (a : gmap Z (gset Z)) (rounds : list (nat * Z * Z))
  : list (nat * Z * Z) :=
  match rounds with
  | [] => []
  | (call, epoch, index) :: rest =>
      let '(a', kept) := filterRound epoch index a in
      if kept then (call, epoch, index) :: keptRounds a' rest
      else keptRounds a' rest
  end.

(** [validatorIndexToArrayIndexMap]: positions in [validatorIndices]; a later
    position replaces an earlier one for the same index. *)
Fixpoint arrayIndexMap (i : nat) (indices : list Z) (m : gmap Z nat)
  : gmap Z nat :=
  match indices with
  | [] => m
  | index :: rest => arrayIndexMap (S i) rest (<[index := i]> m)
  end.

(** "Set the per-validator information": for each account, its committee
    index, validator committee index and committee size.  Reading a key the
    map lacks gives position 0; indexing a slice out of range panics
    ([None]). *)
Fixpoint perValidator (duty : Duty) (m : gmap Z nat) (indices : list Z)
  : option (list Z * list Z * list Z) :=
  match indices with
  | [] => Some ([], [], [])
  | index :: rest =>
      let k := default 0%nat (m !! index) in
      match CommitteeIndices duty !! k, ValidatorCommitteeIndices duty !! k with
      | Some c, Some v =>
          match perValidator duty m rest with
          | Some (cs, vs, sizes) =>
              Some (c :: cs, v :: vs, CommitteeSize duty c :: sizes)
          | None => None
          end
      | _, _ => None
      end
  end.

(** The attestation built for one signature: a bitlist of the size of the
    committee with the validator's bit set, the duty's slot, the committee
    index, the fetched roots and checkpoints, and the signature. *)
Definition newAttestation (duty : Duty) (data : AttestationData)
    (size v c sig : Z) : Attestation :=
  {| AggregationBits := SetBitAt v true (NewBitlist size);
     Data := {| Slot := dutySlot duty;
                Index := c;
                BeaconBlockRoot := BeaconBlockRoot data;
                Source := {| Epoch := Epoch (Source data);
                             Root := Root (Source data) |};
                Target := {| Epoch := Epoch (Target data);
                             Root := Root (Target data) |} |};
     Signature := sig |}.

(** "Create the attestations": one per signature that is not all zero.
    [None] is an index out of range. *)
Fixpoint createAttestations (duty : Duty) (data : AttestationData)
    (committeeIndices validatorCommitteeIndices committeeSizes : list Z)
    (i : nat) (sigs : list Z) : option (list Attestation * list Event) :=
  match sigs with
  | [] => Some ([], [])
  | sig :: rest =>
      if sig =? zeroSig then
        match createAttestations duty data committeeIndices
                validatorCommitteeIndices committeeSizes (S i) rest with
        | Some (atts, tr) => Some (atts, EvNoSignature :: tr)
        | None => None
        end
      else
        match committeeSizes !! i, validatorCommitteeIndices !! i,
              committeeIndices !! i with
        | Some size, Some v, Some c =>
            match createAttestations duty data committeeIndices
                    validatorCommitteeIndices committeeSizes (S i) rest with
            | Some (atts, tr) =>
                Some (newAttestation duty data size v c sig :: atts, tr)
            | None => None
            end
        | _, _, _ => None
        end
  end.

(** [Service.attest]: sign, build the attestations, submit them. *)
Definition attest (env : Env) (duty : Duty) (validators : list Z)
    (accounts : list Account)
    (committeeIndices validatorCommitteeIndices committeeSizes : list Z)
    (data : AttestationData) : list Event * Result (list Attestation) :=
  let signing :=
    EvSign validators accounts (dutySlot duty) committeeIndices
           (BeaconBlockRoot data) (Epoch (Source data)) (Root (Source data))
           (Epoch (Target data)) (Root (Target data)) in
  match SignBeaconAttestations env accounts (dutySlot duty) committeeIndices
          (BeaconBlockRoot data) (Epoch (Source data)) (Root (Source data))
          (Epoch (Target data)) (Root (Target data)) with
  | inl cause => ([signing], Err (ErrSign cause))
  | inr sigs =>
      match createAttestations duty data committeeIndices
              validatorCommitteeIndices committeeSizes 0 sigs with
      | None => ([signing], Panic)
      | Some (attestations, warnings) =>
          match attestations with
          | [] => (signing :: warnings ++ [EvNotSubmitting], Ok [])
          | _ =>
              match SubmitAttestations env attestations with
              | Some cause =>
                  (signing :: warnings ++ [EvSubmit attestations],
                   Err (ErrSubmit cause))
              | None =>
                  (signing :: warnings ++ [EvSubmit attestations],
                   Ok attestations)
              end
          end
      end
  end.

(** [Service.Attest], for a [data] that is a duty.  The result is the
    service afterwards, the trace of the call and what it returns. *)
Definition Attest (env : Env) (s : Service) (duty : Duty)
  : Service * list Event * Result (list Attestation) :=
  let slot := dutySlot duty in
  let epoch := SlotToEpoch s slot in
  let '(a, validatorIndices, tr0) :=
    filterIndices epoch slot 0 (ValidatorIndices duty)
                  (ensureEpoch epoch (attested s)) in
  let s1 := withAttested s a in
  let n := Z.of_nat (length validatorIndices) in
  let failed := EvCompleted slot n "failed" in
  match CommitteeIndices duty !! 0%nat with
  | None => (s1, tr0, Panic)
  | Some c0 =>
  match AttestationDataOf env slot c0 with
  | inl cause =>
      (s1, tr0 ++ [EvAttestationData slot c0; failed],
       Err (ErrObtainData cause))
  | inr data =>
  let tr1 := tr0 ++ [EvAttestationData slot c0] in
  if negb (Slot data =? slot) then
    (s1, tr1 ++ [failed], Err (ErrSlotMismatch slot (Slot data)))
  else if Epoch (Target data) <? Epoch (Source data) then
    (s1, tr1 ++ [failed],
     Err (ErrSourceAfterTarget slot (Epoch (Source data))
                               (Epoch (Target data))))
  else if slotsPerEpoch s =? 0 then (s1, tr1, Panic)
  else
  let current := slot / slotsPerEpoch s in
  if current <? Epoch (Target data) then
    (s1, tr1 ++ [failed],
     Err (ErrTargetAfterCurrent slot (Epoch (Target data)) current))
  else
  let tr2 := tr1 ++ [EvValidatingAccounts current validatorIndices] in
  match ValidatingAccountsForEpochByIndex env current validatorIndices with
  | inl cause => (s1, tr2 ++ [failed], Err (ErrObtainAccounts cause))
  | inr validatingAccounts =>
  let accountValidatorIndices := validatingAccounts.*1 in
  let accountsArray := validatingAccounts.*2 in
  match perValidator duty (arrayIndexMap 0 validatorIndices ∅)
                     accountValidatorIndices with
  | None => (s1, tr2, Panic)
  | Some (committeeIndices, validatorCommitteeIndices, committeeSizes) =>
  let '(tr3, r) :=
    attest env duty accountValidatorIndices accountsArray committeeIndices
           validatorCommitteeIndices committeeSizes data in
  match r with
  | Panic => (s1, tr2 ++ tr3, Panic)
  | Err e => (s1, tr2 ++ tr3 ++ [failed], Err e)
  | Ok attestations =>
      let m := Z.of_nat (length attestations) in
      let some_failed :=
        if m <? n then [EvCompleted slot (n - m) "failed"] else [] in
      let tr4 :=
        tr2 ++ tr3 ++ some_failed ++ [EvCompleted slot m "succeeded"] in
      if 1 <? epoch then
        (withAttested s (delete (epoch - 2) a),
         tr4 ++ [EvEvicted (epoch - 2)], Ok attestations)
      else (s1, tr4, Ok attestations)
  end end end end end.

(** A sequence of duties, each with the collaborators as they answer during
    it; the traces are concatenated. *)
Fixpoint attestAll (s : Service) (calls : list (Env * Duty))
  : Service * list Event :=
  match calls with
  | [] => (s, [])
  | (env, duty) :: rest =>
      let '(s1, tr, _) := Attest env s duty in
      let '(s2, tr') := attestAll s1 rest in
      (s2, tr ++ tr')
  end.

(** The (epoch, validator) pairs a trace has signing calls for. *)
Definition signedBy (s : Service) (e : Event) : list (Z * Z) :=
  match e with
  | EvSign validators _ slot _ _ _ _ _ _ =>
      (fun v => (SlotToEpoch s slot, v)) <$> validators
  | _ => []
  end.

Definition signed (s : Service) (tr : list Event) : list (Z * Z) :=
  concat (signedBy s <$> tr).

(** Calls to the signer and to the submitter. *)
Definition isSign (e : Event) : bool :=
  match e with EvSign _ _ _ _ _ _ _ _ _ => true | _ => false end.

Definition isSubmit (e : Event) : bool :=
  match e with EvSubmit _ => true | _ => false end.

(** A trace without signing and without submission. *)
Definition quiet (tr : list Event) : Prop :=
  Forall (fun e => isSign e = false /\ isSubmit e = false) tr.

(** The fetched data fails one of the three checks of [Attest]. *)
Definition invalidData (s : Service) (duty : Duty) (data : AttestationData)
  : Prop :=
  Slot data <> dutySlot duty
  \/ Epoch (Target data) < Epoch (Source data)
  \/ dutySlot duty / slotsPerEpoch s < Epoch (Target data).

(** The accounts provider answers with a map whose keys are among the
    indices it was asked for. *)
Definition providerSound (env : Env) : Prop :=
  forall epoch indices accounts,
    ValidatingAccountsForEpochByIndex env epoch indices = inr accounts ->
    NoDup accounts.*1 /\ accounts.*1 ⊆ indices.

(** The set [s.attested[epoch]], empty when the epoch has no entry. *)
Definition attestedIn (s : Service) (epoch : Z) : gset Z :=
  default ∅ (attested s !! epoch).

(** The epochs of the duties of a sequence of calls. *)
Definition epochsOf (s : Service) (calls : list (Env * Duty)) : list Z :=
  (fun c => SlotToEpoch s (dutySlot c.2)) <$> calls.

(** "Housekeep attested map": the epoch whose attested set a call deletes,
    given what it returns; that is the one two before the epoch of the duty,
    when the call returns attestations and the epoch is above 1. *)
Definition evicted (s : Service) (duty : Duty)
    (r : Result (list Attestation)) : option Z :=
  let epoch := SlotToEpoch s (dutySlot duty) in
  match r with
  | Ok _ => if 1 <? epoch then Some (epoch - 2) else None
  | _ => None
  end.

(** For a sequence of calls, the epoch of the duty of each call and the
    epoch whose attested set the call deleted. *)
Fixpoint evictions (s : Service) (calls : list (Env * Duty))
  : list (Z * option Z) :=
  match calls with
  | [] => []
  | (env, duty) :: rest =>
      let '(s1, _, r) := Attest env s duty in
      (SlotToEpoch s (dutySlot duty), evicted s duty r) :: evictions s1 rest
  end.

(** Whether, in such a sequence, a duty of epoch [e] comes after a call that
    deleted the attested set of epoch [e]. *)
Fixpoint comesAfterEviction (e : Z) (run : list (Z * option Z)) : bool :=
  match run with
  | [] => false
  | (_, deleted) :: rest =>
      bool_decide (deleted = Some e) && bool_decide (e ∈ rest.*1)
      || comesAfterEviction e rest
  end.

(** Whether the sequence returns to an epoch whose attested set was deleted
    in between: a duty of epoch [e], then a call that deletes the set of
    epoch [e], then a duty of epoch [e] again. *)
Fixpoint returnsToEvicted (run : list (Z * option Z)) : bool :=
  match run with
  | [] => false
  | (e, _) :: rest => comesAfterEviction e rest || returnsToEvicted rest
  end.

(** An attestation as [attest] builds them from the fetched [data], for the
    validator at position [i] of the per-validator slices: the duty's slot,
    the vote of [data], the committee index of the validator, a signature
    that is not all zero, and a bitlist of the size of the committee whose
    only set bit is the validator's, if that is inside the committee. *)
Definition builtFor (duty : Duty) (data : AttestationData)
    (cs vcs sizes sigs : list Z) (att : Attestation) : Prop :=
  Signature att <> zeroSig
  /\ Slot (Data att) = dutySlot duty
  /\ BeaconBlockRoot (Data att) = BeaconBlockRoot data
  /\ Source (Data att) = Source data
  /\ Target (Data att) = Target data
  /\ exists (i : nat) size v,
       sigs !! i = Some (Signature att)
       /\ cs !! i = Some (Index (Data att))
       /\ vcs !! i = Some v /\ sizes !! i = Some size
       /\ length (AggregationBits att) = Z.to_nat size
       /\ forall k : nat,
            AggregationBits att !! k = Some true
            <-> k = Z.to_nat v /\ 0 <= v < size.

(** What the monitor is told of a trace: the count and the result of each
    [AttestationsCompleted]. *)
Definition completion (e : Event) : option (Z * string) :=
  match e with
  | EvCompleted _ count result => Some (count, result)
  | _ => None
  end.

Definition completions (tr : list Event) : list (Z * string) :=
  omap completion tr.

(** The calls of a trace to the beacon node, the accounts provider, the
    signer and the submitter. *)
Definition isCall (e : Event) : bool :=
  match e with
  | EvAttestationData _ _ | EvValidatingAccounts _ _
  | EvSign _ _ _ _ _ _ _ _ _ | EvSubmit _ => true
  | _ => false
  end.

(** The collaborator a call goes to, and the calls of a trace in order. *)
Inductive Call := CallData | CallAccounts | CallSign | CallSubmit.

Definition callOf (e : Event) : option Call :=
  match e with
  | EvAttestationData _ _ => Some CallData
  | EvValidatingAccounts _ _ => Some CallAccounts
  | EvSign _ _ _ _ _ _ _ _ _ => Some CallSign
  | EvSubmit _ => Some CallSubmit
  | _ => None
  end.

Definition calls (tr : list Event) : list Call := omap callOf tr.

End WithAccount.
Arguments Event : clear implicits.
Arguments Env : clear implicits.

(** *** [New]

    A value of the spec, which is a [map[string]interface{}]: an unsigned
    64-bit integer, or something else. *)
Inductive SpecValue :=
| SpecUint64 (v : Z)
| SpecOther.

(** The parameters [New] reads: what the spec provider answers ([inl] is an
    error) and the chain time service. *)
Record parameters := {
  specProvider : string + gmap string SpecValue;
  chainTimeService : Z -> Z
}.

(** [New], given what [parseAndCheckParameters] returns for its options
    ([inl] is its error). *)
Definition New (parsed : string + parameters) : string + Service :=
  match parsed with
  | inl cause => inl ("problem with parameters: " ++ cause)%string
  | inr params =>
      match specProvider params with
      | inl cause => inl ("failed to obtain spec: " ++ cause)%string
      | inr spec =>
          match spec !! "SLOTS_PER_EPOCH"%string with
          | None => inl "SLOTS_PER_EPOCH not found in spec"%string
          | Some (SpecUint64 v) =>
              inr {| slotsPerEpoch := v;
                     SlotToEpoch := chainTimeService params;
                     attested := ∅ |}
          | Some SpecOther => inl "SLOTS_PER_EPOCH of unexpected type"%string
          end
      end
  end.

(** *** Examples

    A service at 32 slots per epoch that has attested nothing, and a duty of
    slot 100 (epoch 3) for validators 7 and 8, members 0 and 1 of committee
    3, which has 4 members. *)
Definition service32 : Service :=
  {| slotsPerEpoch := 32; SlotToEpoch := fun slot => slot / 32; attested := ∅ |}.

Definition duty100 : Duty :=
  {| dutySlot := 100;
     ValidatorIndices := [7; 8];
     CommitteeIndices := [3; 3];
     ValidatorCommitteeIndices := [0; 1];
     CommitteeSize := fun _ => 4 |}.

(** The same duty at another slot. *)
Definition dutyAt (slot : Z) : Duty :=
  {| dutySlot := slot;
     ValidatorIndices := [7; 8];
     CommitteeIndices := [3; 3];
     ValidatorCommitteeIndices := [0; 1];
     CommitteeSize := fun _ => 4 |}.

(** Attestation data for slot [slot], from epoch 2 to epoch 3. *)
Definition dataFor (slot : Z) : AttestationData :=
  {| Slot := slot; Index := 3; BeaconBlockRoot := 17;
     Source := {| Epoch := 2; Root := 18 |};
     Target := {| Epoch := 3; Root := 19 |} |}.

(** Collaborators that answer every request: the beacon node with [data],
    the accounts provider with an account per requested index, the signer
    with as many of [sigs] as there are accounts, the submitter with
    success. *)
Definition node (data : AttestationData) (sigs : list Z) : Env string :=
  {| AttestationDataOf := fun _ _ => inr data;
     ValidatingAccountsForEpochByIndex := fun _ indices =>
       inr ((fun i => (i, "account"%string)) <$> remove_dups indices);
     SignBeaconAttestations := fun accounts _ _ _ _ _ _ _ =>
       inr (take (length accounts) sigs);
     SubmitAttestations := fun _ => None |}.

(** A duty of slot 101 (epoch 3) for validators 7, 8 and 9, members 0, 1 and
    2 of committees 3, 4 and 5, committee [c] having [c + 1] members; a
    service in which validator 7 has attested in epoch 3 and validator 9 in
    epoch 1; and a duty that has validators and no committee. *)
Definition duty101 : Duty :=
  {| dutySlot := 101;
     ValidatorIndices := [7; 8; 9];
     CommitteeIndices := [3; 4; 5];
     ValidatorCommitteeIndices := [0; 1; 2];
     CommitteeSize := fun c => c + 1 |}.

Definition service32After : Service :=
  withAttested service32 (<[3 := {[7]}]> (<[1 := {[9]}]> ∅)).

Definition dutyNoCommittee : Duty :=
  {| dutySlot := 100;
     ValidatorIndices := [7; 8];
     CommitteeIndices := [];
     ValidatorCommitteeIndices := [];
     CommitteeSize := fun _ => 4 |}.

(** Parameters whose spec has no slots in an epoch. *)
Definition parametersZero : parameters :=
  {| specProvider := inr (<["SLOTS_PER_EPOCH"%string := SpecUint64 0]> ∅);
     chainTimeService := fun slot => slot / 32 |}.

End Attester.

(** * services/blockrelay/standard/submitvalidatorregistrations.go *)

Module BlockRelay.

(** An account, as far as its public key goes: it provides a composite
    public key, or a public key, or neither (the unchecked type assertion of
    the code panics on such an account).  The key is its [Marshal]led
    bytes. *)
Inductive Account :=
| CompositeKeyAccount (key : list Z)
| KeyAccount (key : list Z)
| KeylessAccount.

Definition publicKeyOf (account : Account) : option (list Z) :=
  match account with
  | CompositeKeyAccount key => Some key
  | KeyAccount key => Some key
  | KeylessAccount => None
  end.

(** [copy(pubkey[:], src)] for a 48-byte array: the first bytes of the array
    are replaced by those of [src], as many as fit. *)
Definition copyInto (pubkey src : list Z) : list Z :=
  take (length pubkey) src ++ drop (length src) pubkey.

Definition zeroPubKey : list Z := replicate 48 0.

(** [apiv1.ValidatorRegistration], [apiv1.SignedValidatorRegistration] and
    the versioned wrapper of the latter. *)
Record ValidatorRegistration := {
  FeeRecipient : Z;
  GasLimit : Z;
  Timestamp : Z;
  Pubkey : list Z
}.

Record SignedValidatorRegistration := {
  Message : ValidatorRegistration;
  Signature : Z
}.

Inductive BuilderVersion := BuilderVersionV1.

Record VersionedSignedValidatorRegistration := {
  Version : BuilderVersion;
  V1 : SignedValidatorRegistration
}.

(** [time.Time.Round(time.Second)], for an instant in nanoseconds: the
    nearest whole second, halves rounded up. *)
Definition RoundSecond (t : Z) : Z :=
  (t + 500000000) / 1000000000 * 1000000000.

(** A relay: its address and what it answers to a submission ([Some] is an
    error). *)
Record Submitter := {
  Address : string;
  SubmitValidatorRegistrationsTo :
    list VersionedSignedValidatorRegistration -> option string
}.

(** The fields of the service the call reads, with the signer as the result
    of its call ([inl] is an error). *)
Record Service := {
  gasLimit : Z;
  SignValidatorRegistration : Account -> ValidatorRegistration -> string + Z;
  validatorRegistrationsSubmitters : list Submitter
}.

(** Error logs, calls to the signer and to the relays, and the monitor. *)
Inductive Event :=
| EvNoFeeRecipient (index : Z)
| EvSign (index : Z) (registration : ValidatorRegistration)
| EvSignFailed (index : Z) (cause : string)
| EvSubmit (provider : string)
           (registrations : list VersionedSignedValidatorRegistration)
| EvSubmitFailed (provider : string) (cause : string)
| EvMonitored.

(** The loop over [accounts], given as the entries of the map in the order
    the [range] visits them; [clock i] is [time.Now()] in the [i]th round and
    [pubkey] the array that every round overwrites.  The result is what the
    loop did, in order, and the registrations it signed; [None] in their
    place is a panic, which ends the loop where it happens. *)
Fixpoint signRegistrations (s : Service) (feeRecipients : gmap Z Z)
    (clock : nat -> Z) (i : nat) (pubkey : list Z)
    (accounts : list (Z * Account))
  : list Event * option (list VersionedSignedValidatorRegistration) :=
  match accounts with
  | [] => ([], Some [])
  | (index, account) :: rest =>
      match publicKeyOf account with
      | None => ([], None)
      | Some key =>
          let pubkey := copyInto pubkey key in
          (* the rounds after this one *)
          let '(tr, regs) :=
            signRegistrations s feeRecipients clock (S i) pubkey rest in
          match feeRecipients !! index with
          | None => (EvNoFeeRecipient index :: tr, regs)
          | Some feeRecipient =>
              let registration :=
                {| FeeRecipient := feeRecipient;
                   GasLimit := gasLimit s;
                   Timestamp := RoundSecond (clock i);
                   Pubkey := pubkey |} in
              match SignValidatorRegistration s account registration with
              | inl cause =>
                  (EvSign index registration :: EvSignFailed index cause :: tr,
                   regs)
              | inr sig =>
                  (EvSign index registration :: tr,
                   cons {| Version := BuilderVersionV1;
                           V1 := {| Message := registration;
                                    Signature := sig |} |} <$> regs)
              end
          end
      end
  end.

(** "Submit registrations in parallel": one goroutine per submitter, each
    submitting and logging its own failure, all awaited.  The goroutines are
    taken in the order of the submitters; the order in which they really run
    is not determined. *)
Definition submitTo (regs : list VersionedSignedValidatorRegistration)
    (submitter : Submitter) : list Event :=
  EvSubmit (Address submitter) regs ::
  match SubmitValidatorRegistrationsTo submitter regs with
  | Some cause => [EvSubmitFailed (Address submitter) cause]
  | None => []
  end.

Definition submitAll (regs : list VersionedSignedValidatorRegistration)
    (submitters : list Submitter) : list Event :=
  mjoin (submitTo regs <$> submitters).

(** What the call comes to: it returns an error or nil, or panics. *)
Inductive Outcome :=
| Returned (err : option string)
| Panicked.

Definition SubmitValidatorRegistrations (s : Service) (clock : nat -> Z)
    (accounts : list (Z * Account)) (feeRecipients : gmap Z Z)
  : list Event * Outcome :=
  match signRegistrations s feeRecipients clock 0 zeroPubKey accounts with
  | (tr, None) => (tr, Panicked)
  | (tr, Some signedRegistrations) =>
      (tr ++ submitAll signedRegistrations (validatorRegistrationsSubmitters s)
          ++ [EvMonitored],
       Returned None)
  end.

(** The submissions of a trace: relay and registrations. *)
Definition submission (e : Event)
  : option (string * list VersionedSignedValidatorRegistration) :=
  match e with
  | EvSubmit provider regs => Some (provider, regs)
  | _ => None
  end.

Definition submissions (tr : list Event)
  : list (string * list VersionedSignedValidatorRegistration) :=
  omap submission tr.

(** The relay failures a trace logs. *)
Definition failure (e : Event) : option (string * string) :=
  match e with
  | EvSubmitFailed provider cause => Some (provider, cause)
  | _ => None
  end.

Definition failures (tr : list Event) : list (string * string) :=
  omap failure tr.

(** A signed registration as round [j] of the loop makes it, for the
    account of that round: the fee recipient of its validator, the gas limit
    of the service, the instant of the round to the second, the key of the
    account in the 48 bytes of the public key, and the signature the signer
    gave for this message. *)
Definition registrationOf (s : Service) (feeRecipients : gmap Z Z)
    (clock : nat -> Z) (accounts : list (Z * Account)) (j : nat)
    (r : VersionedSignedValidatorRegistration) : Prop :=
  exists index account key,
    accounts !! j = Some (index, account)
    /\ publicKeyOf account = Some key
    /\ feeRecipients !! index = Some (FeeRecipient (Message (V1 r)))
    /\ GasLimit (Message (V1 r)) = gasLimit s
    /\ Timestamp (Message (V1 r)) = RoundSecond (clock j)
    /\ length (Pubkey (Message (V1 r))) = 48%nat
    /\ ((48 <= length key)%nat -> Pubkey (Message (V1 r)) = take 48 key)
    /\ SignValidatorRegistration s account (Message (V1 r))
       = inr (Signature (V1 r)).

(** *** Example: two relays, the first of which refuses every submission,
    and one account with a fee recipient. *)
Definition relays : list Submitter :=
  [ {| Address := "relay-a";
       SubmitValidatorRegistrationsTo := fun _ => Some "refused"%string |};
    {| Address := "relay-b";
       SubmitValidatorRegistrationsTo := fun _ => None |} ].

Definition relayService : Service :=
  {| gasLimit := 30000000;
     SignValidatorRegistration := fun _ _ => inr 77;
     validatorRegistrationsSubmitters := relays |}.

(** Two accounts with a key, the first of 48 bytes, and then one without; an
    instant four tenths of a second after a whole second. *)
Definition fullKey : list Z := replicate 48 1.

Definition twoAccounts : list (Z * Account) :=
  [(7, KeyAccount fullKey); (8, CompositeKeyAccount [1; 2; 3])].


Definition atInstant : nat -> Z := fun _ => 1700000000400000000.

(** Relays that all refuse. *)
Definition refusingService : Service :=
  {| gasLimit := 30000000;
     SignValidatorRegistration := fun _ _ => inr 77;
     validatorRegistrationsSubmitters :=
       [ {| Address := "relay-a";
            SubmitValidatorRegistrationsTo := fun _ => Some "refused"%string |};
         {| Address := "relay-c";
            SubmitValidatorRegistrationsTo := fun _ => Some "down"%string |} ] |}.

End BlockRelay.

(** * strategies/blindedbeaconblockproposal/best: the scorer *)

Module Scorer.

(** Scores are [float64] in the code and rationals here.  Every score that
    [TestScore] expects is a multiple of 1/64 with a small numerator, for
    which the arithmetic of [float64] is exact. *)
Local Open Scope Q_scope.

(** [testutil.HexToRoot] of the byte [b] written 32 times. *)
Definition repeatedRoot (b : Z) : Z :=
  fold_left (fun acc _ => (acc * 256 + b)%Z) (replicate 32 tt) 0%Z.

(** Bitlists.  A bit at or beyond the length reads as unset. *)
Definition bitAt (l : list bool) (i : nat) : bool := default false (l !! i).

Definition orBits (a b : list bool) : list bool :=
  (fun i => bitAt a i || bitAt b i) <$> seq 0 (Nat.max (length a) (length b)).

Fixpoint popcount (l : list bool) : Z :=
  match l with
  | [] => 0%Z
  | b :: rest => ((if b then 1 else 0) + popcount rest)%Z
  end.

(** [bitList(set, total)] of the test: [total] bits, the first [set] set. *)
Definition bitList (set total : nat) : list bool :=
  replicate set true ++ replicate (total - set) false.

(** [bitList] as the test writes it: a new bitlist of [total] bits, and then
    [SetBitAt(i, true)] for every [i] below [set]. *)
Definition bitListLoop (set total : nat) : list bool :=
  foldl (fun bits i => Attester.SetBitAt (Z.of_nat i) true bits)
        (Attester.NewBitlist (Z.of_nat total)) (seq 0 set).

(** An entry of the prior-block-votes index: "holds parent_root, slot, votes:
    mapping(slot, mapping(committee_index, bitlist))". *)
Record priorBlockVotes := {
  root : Z;
  parent : Z;
  slot : Z;
  votes : gmap Z (gmap Z (list bool))
}.

(** The blinded block, as far as the scorer reads it. *)
Record SyncAggregate := { SyncCommitteeBits : list bool }.

Record BlindedBeaconBlockBody := {
  Attestations : list Attester.Attestation;
  syncAggregate : SyncAggregate
}.

Record BlindedBeaconBlock := {
  Slot : Z;
  ParentRoot : Z;
  Body : BlindedBeaconBlockBody
}.

(** [spec.DataVersion] and [api.VersionedBlindedProposal]: a version and one
    branch per fork, nil when not populated. *)
Inductive DataVersion :=
| DataVersionPhase0 | DataVersionAltair | DataVersionBellatrix
| DataVersionCapella | DataVersionDeneb
| DataVersionOther (n : Z).

Record VersionedBlindedProposal := {
  Version : DataVersion;
  Bellatrix : option BlindedBeaconBlock;
  Capella : option BlindedBeaconBlock
}.

(** The chain state the scorer reads: the chain parameter, the
    block-root-to-slot cache, the prior-block-votes index keyed by block
    root, and the configured sync factor. *)
Record Service := {
  slotsPerEpoch : Z;
  blockRootToSlotCache : gmap Z Z;
  priorBlocksVotes : gmap Z priorBlockVotes;
  syncFactor : Q
}.

(** Modelled from the spec: the slot of a block, "resolved via the
    block-root-to-slot cache" and else from the entry of the index. *)
Definition slotOf (s : Service) (r : Z) : option Z :=
  match blockRootToSlotCache s !! r with
  | Some sl => Some sl
  | None => slot <$> (priorBlocksVotes s !! r)
  end.

(** Modelled from the spec: the walk of the scorer along "the chain rooted at
    proposal.parent_root (resolved via the block-root-to-slot cache and
    parent chain)"; the scorer is not among the sources.  The root of the
    chain at [sl] is the first block, from [r] back through the parent
    links, whose slot is not after [sl]; [None] when "the chain is not
    walkable": a slot or a parent is not known. *)
Fixpoint rootAtSlot (s : Service) (fuel : nat) (r sl : Z) : option Z :=
  match slotOf s r with
  | None => None
  | Some rs =>
      if (rs <=? sl)%Z then Some r
      else
        match fuel with
        | O => None
        | S fuel' =>
            match priorBlocksVotes s !! r with
            | None => None
            | Some pb => rootAtSlot s fuel' (parent pb) sl
            end
        end
  end.

(** Every entry of the index can be walked through once. *)
Definition fuelOf (s : Service) : nat := size (priorBlocksVotes s).

(** Modelled from the spec: step 2 of the scorer, which is not among the
    sources.  "attestation.data.beacon_block_root equals the root at its slot
    along the chain rooted at proposal.parent_root; if the chain is not
    walkable, treat as head-correct". *)
Definition headCorrect (s : Service) (parentRoot : Z)
    (data : Attester.AttestationData) : bool :=
  match rootAtSlot s (fuelOf s) parentRoot (Attester.Slot data) with
  | None => true
  | Some r => (r =? Attester.BeaconBlockRoot data)%Z
  end.

(** Modelled from the spec: step 3 of the scorer, which is not among the
    sources.  "attestation.data.target.root equals the block at the first
    slot of target.epoch on that chain; same fallback". *)
Definition targetCorrect (s : Service) (parentRoot : Z)
    (data : Attester.AttestationData) : bool :=
  match rootAtSlot s (fuelOf s) parentRoot
          (Attester.Epoch (Attester.Target data) * slotsPerEpoch s)%Z with
  | None => true
  | Some r => (r =? Attester.Root (Attester.Target data))%Z
  end.

(** Modelled from the spec: the walk of step 5 of the scorer, which is not
    among the sources.  The blocks "along the chain from
    proposal.parent_root": the entries of the index from [r] back through the
    parent links, until a root has no entry. *)
Fixpoint ancestors (m : gmap Z priorBlockVotes) (fuel : nat) (r : Z)
  : list (Z * priorBlockVotes) :=
  match fuel with
  | O => []
  | S fuel' =>
      match m !! r with
      | None => []
      | Some pb => (r, pb) :: ancestors m fuel' (parent pb)
      end
  end.

(** The votes of an entry for a slot and committee; none when it has
    none. *)
Definition votesFor (pb : priorBlockVotes) (sl index : Z) : list bool :=
  match votes pb !! sl with
  | Some committees => default [] (committees !! index)
  | None => []
  end.

(** Modelled from the spec: step 5 of the scorer, which is not among the
    sources.  The bits "already set in any prior block along the chain from
    proposal.parent_root for the same (slot, committee_index)". *)
Definition priorVotes (s : Service) (parentRoot sl index : Z) : list bool :=
  foldr (fun a acc => orBits (votesFor a.2 sl index) acc) []
        (ancestors (priorBlocksVotes s) (fuelOf s) parentRoot).

(** Modelled from the spec: step 5 of the scorer, which is not among the
    sources.  The bits of an attestation that are new: set, not among the
    prior votes, and not counted for an earlier attestation of the proposal
    (the case of overlapping attestations of the test, scenario D of the
    spec, counts a bit that two attestations share once). *)
Definition newVotes (bits seen prior : list bool) : list bool :=
  (fun i => bitAt bits i && negb (bitAt seen i) && negb (bitAt prior i))
    <$> seq 0 (length bits).

(** Modelled from the spec: step 4 of the scorer, which is not among the
    sources, word for word.  "Compute base reward factor: head-correct &
    d = 1: 27/32; target-correct: 16/32; otherwise: 14/32". *)
Definition specFactor (head target : bool) (d : Z) : Q :=
  if head && (d =? 1)%Z then 27 # 32
  else if target then 16 # 32
  else 14 # 32.

Section WithFactor.

(** The reward per new bit, from head-correct, target-correct and the
    inclusion distance. *)
Variable factor : bool -> bool -> Z -> Q.

(** Modelled from the spec: "Per-attestation reward", steps 1 to 6 of the
    scorer, which is not among the sources, for one attestation: the reward
    it adds and the bits counted so far, per slot and committee.  An
    attestation at distance 0 or less is skipped. *)
Definition scoreAttestation (s : Service) (blockSlot parentRoot : Z)
    (seen : gmap (Z * Z) (list bool)) (att : Attester.Attestation)
  : Q * gmap (Z * Z) (list bool) :=
  let data := Attester.Data att in
  let d := (blockSlot - Attester.Slot data)%Z in
  if (d <? 1)%Z then (0, seen)
  else
    let key := (Attester.Slot data, Attester.Index data) in
    let already := default [] (seen !! key) in
    let prior :=
      priorVotes s parentRoot (Attester.Slot data) (Attester.Index data) in
    let new := newVotes (Attester.AggregationBits att) already prior in
    (inject_Z (popcount new)
     * factor (headCorrect s parentRoot data) (targetCorrect s parentRoot data) d,
     <[key := orBits already new]> seen).

(** Modelled from the spec: step 6 of the scorer, the running score over
    the attestations of the body, in order. *)
Fixpoint scoreAttestations (s : Service) (blockSlot parentRoot : Z)
    (seen : gmap (Z * Z) (list bool)) (score : Q)
    (atts : list Attester.Attestation) : Q :=
  match atts with
  | [] => score
  | att :: rest =>
      let '(reward, seen') := scoreAttestation s blockSlot parentRoot seen att in
      scoreAttestations s blockSlot parentRoot seen' (score + reward) rest
  end.

(** Modelled from the spec: the sync aggregate reward of the scorer, which
    is not among the sources.  "popcount(sync_committee_bits) x (1/32) x a
    constant sync-factor". *)
Definition syncScore (s : Service) (block : BlindedBeaconBlock) : Q :=
  inject_Z (popcount (SyncCommitteeBits (syncAggregate (Body block))))
  * (1 # 32) * syncFactor s.

(** Modelled from the spec: the score of a block, the rewards of its
    attestations and of its sync aggregate. *)
Definition scoreBlock (s : Service) (block : BlindedBeaconBlock) : Q :=
  scoreAttestations s (Slot block) (ParentRoot block) ∅ 0
                    (Attestations (Body block))
  + syncScore s block.

(** Modelled from the spec: [scoreBlindedProposal], which is not among the
    sources; only its test is.  "score(proposal, chain_state)": "must not
    fail (an unrecognized fork version scores 0)"; a nil proposal and a
    proposal whose branch is not populated score 0, as the test expects. *)
Definition scoreBlindedProposalWith (s : Service)
    (proposal : option VersionedBlindedProposal) : Q :=
  match proposal with
  | None => 0
  | Some p =>
      match Version p with
      | DataVersionBellatrix =>
          match Bellatrix p with
          | Some block => scoreBlock s block
          | None => 0
          end
      | DataVersionCapella =>
          match Capella p with
          | Some block => scoreBlock s block
          | None => 0
          end
      | _ => 0
      end
  end.

End WithFactor.

(** The scorer of the spec: its steps with the factor of step 4. *)
Definition scoreBlindedProposal : Service -> option VersionedBlindedProposal -> Q :=
  scoreBlindedProposalWith specFactor.

(** A block with other attestations, an attestation with one bit set or
    cleared, a proposal of a block at some version, and a service in whose
    index the block [r] has other votes. *)
Definition withAttestations (block : BlindedBeaconBlock)
    (atts : list Attester.Attestation) : BlindedBeaconBlock :=
  {| Slot := Slot block; ParentRoot := ParentRoot block;
     Body := {| Attestations := atts;
                syncAggregate := syncAggregate (Body block) |} |}.

Definition setBit (att : Attester.Attestation) (b : nat) (x : bool)
  : Attester.Attestation :=
  {| Attester.AggregationBits := <[b := x]> (Attester.AggregationBits att);
     Attester.Data := Attester.Data att;
     Attester.Signature := Attester.Signature att |}.

Definition proposalOf (version : DataVersion) (block : BlindedBeaconBlock)
  : option VersionedBlindedProposal :=
  Some {| Version := version;
          Bellatrix := match version with
                       | DataVersionBellatrix => Some block
                       | _ => None
                       end;
          Capella := match version with
                     | DataVersionCapella => Some block
                     | _ => None
                     end |}.

Definition withVotes (s : Service) (r : Z) (pb : priorBlockVotes)
    (v : gmap Z (gmap Z (list bool))) : Service :=
  {| slotsPerEpoch := slotsPerEpoch s;
     blockRootToSlotCache := blockRootToSlotCache s;
     priorBlocksVotes :=
       <[r := {| root := root pb; parent := parent pb; slot := slot pb;
                 votes := v |}]> (priorBlocksVotes s);
     syncFactor := syncFactor s |}.

(** *** The cases of [TestScore] *)

(** An attestation of the test: the bits, [Data.Slot], [Data.BeaconBlockRoot]
    and [Data.Target.Root]; the target epoch is 385 throughout, and what the
    test leaves unset is zero. *)
Definition attestationOf (bits : list bool) (sl bbr target : Z)
  : Attester.Attestation :=
  {| Attester.AggregationBits := bits;
     Attester.Data :=
       {| Attester.Slot := sl; Attester.Index := 0;
          Attester.BeaconBlockRoot := bbr;
          Attester.Source := {| Attester.Epoch := 0; Attester.Root := 0 |};
          Attester.Target := {| Attester.Epoch := 385;
                                Attester.Root := target |} |};
     Attester.Signature := 0 |}.

(** A Bellatrix block with an empty sync aggregate
    ([bitfield.NewBitvector512()]). *)
Definition bellatrixBlock (sl parentRoot : Z)
    (atts : list Attester.Attestation) : BlindedBeaconBlock :=
  {| Slot := sl; ParentRoot := parentRoot;
     Body := {| Attestations := atts;
                syncAggregate :=
                  {| SyncCommitteeBits := replicate 512 false |} |} |}.

Definition bellatrixProposal (sl parentRoot : Z)
    (atts : list Attester.Attestation) : option VersionedBlindedProposal :=
  Some {| Version := DataVersionBellatrix;
          Bellatrix := Some (bellatrixBlock sl parentRoot atts);
          Capella := None |}.

(** The cache of the test, and the service it builds: 32 slots per epoch
    from the mock spec provider, and the prior blocks of the case. *)
Definition cacheSvc : gmap Z Z :=
  {[ repeatedRoot 0x01 := 12344%Z; repeatedRoot 0x02 := 12345%Z;
     repeatedRoot 0x03 := 12346%Z; repeatedRoot 0x04 := 12347%Z;
     repeatedRoot 0x05 := 12348%Z ]}.

Definition serviceWith (priorBlocks : gmap Z priorBlockVotes) : Service :=
  {| slotsPerEpoch := 32; blockRootToSlotCache := cacheSvc;
     priorBlocksVotes := priorBlocks; syncFactor := 1 |}.

(** "Chain with middle block orphaned." *)
Definition priorBlocksPriorVotes : gmap Z priorBlockVotes :=
  {[ repeatedRoot 0x41 :=
       {| root := 0; parent := repeatedRoot 0x40; slot := 12341; votes := ∅ |};
     repeatedRoot 0x42 :=
       {| root := 0; parent := repeatedRoot 0x41; slot := 12342;
          votes := {[ 12342%Z := {[ 0%Z := bitList 5 128 ]} ]} |};
     repeatedRoot 0x43 :=
       {| root := 0; parent := repeatedRoot 0x41; slot := 12343;
          votes := {[ 12342%Z := {[ 0%Z := bitList 2 128 ]} ]} |} ]}.

Definition priorBlocksTarget : gmap Z priorBlockVotes :=
  {[ repeatedRoot 0x44 :=
       {| root := repeatedRoot 0x44; parent := repeatedRoot 0x20;
          slot := 12344; votes := ∅ |};
     repeatedRoot 0x20 :=
       {| root := repeatedRoot 0x20; parent := repeatedRoot 0x19;
          slot := 12320; votes := ∅ |} ]}.

Record TestCase := {
  name : string;
  priorBlocks : gmap Z priorBlockVotes;
  proposal : option VersionedBlindedProposal;
  score : Q
}.

Definition testNil : TestCase :=
  {| name := "Nil"; priorBlocks := ∅; proposal := None; score := 0 |}.

Definition testEmpty : TestCase :=
  {| name := "Empty"; priorBlocks := ∅;
     proposal := Some {| Version := DataVersionBellatrix;
                         Bellatrix := None; Capella := None |};
     score := 0 |}.

Definition testSingleAttestation : TestCase :=
  {| name := "SingleAttestation"; priorBlocks := ∅;
     proposal :=
       bellatrixProposal 12346 (repeatedRoot 0x02)
         [attestationOf (bitList 1 128) 12345 (repeatedRoot 0x02)
                        (repeatedRoot 0x01)];
     score := 0.84375 |}.

Definition testDistance1 : TestCase :=
  {| name := "BellatrixSingleAttestationDistance1"; priorBlocks := ∅;
     proposal :=
       bellatrixProposal 12346 (repeatedRoot 0x02)
         [attestationOf (bitList 1 128) 12345 (repeatedRoot 0x02)
                        (repeatedRoot 0x01)];
     score := 0.84375 |}.

Definition testDistance1IncorrectHead : TestCase :=
  {| name := "BellatrixSingleAttestationDistance1IncorrectHead";
     priorBlocks := ∅;
     proposal :=
       bellatrixProposal 12346 (repeatedRoot 0x01)
         [attestationOf (bitList 1 128) 12345 (repeatedRoot 0x02)
                        (repeatedRoot 0x01)];
     score := 0.625 |}.

Definition testDistance2 : TestCase :=
  {| name := "BellatrixSingleAttestationDistance2"; priorBlocks := ∅;
     proposal :=
       bellatrixProposal 12346 (repeatedRoot 0x01)
         [attestationOf (bitList 1 128) 12343 0 (repeatedRoot 0x03)];
     score := 0.625 |}.

Definition testDistance5 : TestCase :=
  {| name := "BellatrixSingleAttestationDistance5"; priorBlocks := ∅;
     proposal :=
       bellatrixProposal 12349 (repeatedRoot 0x05)
         [attestationOf (bitList 1 128) 12348 (repeatedRoot 0x01)
                        (repeatedRoot 0x04)];
     score := 0.625 |}.

Definition testDistance6 : TestCase :=
  {| name := "BellatrixSingleAttestationDistance6"; priorBlocks := ∅;
     proposal :=
       bellatrixProposal 12350 (repeatedRoot 0x01)
         [attestationOf (bitList 1 128) 12339 0 (repeatedRoot 0x07)];
     score := 0.40625 |}.

Definition testOverlappingAttestations : TestCase :=
  {| name := "BellatrixOverlappingAttestations"; priorBlocks := ∅;
     proposal :=
       bellatrixProposal 12345 (repeatedRoot 0x01)
         [attestationOf (bitList 1 128) 12343 0 (repeatedRoot 0x43);
          attestationOf (bitList 2 128) 12343 0 (repeatedRoot 0x43)];
     score := 1.25 |}.

Definition testParentMissing : TestCase :=
  {| name := "BellatrixParentMissing"; priorBlocks := ∅;
     proposal :=
       bellatrixProposal 12345 (repeatedRoot 0x11)
         [attestationOf (bitList 1 128) 12344 (repeatedRoot 0x11)
                        (repeatedRoot 0x44);
          attestationOf (bitList 1 128) 12343 (repeatedRoot 0x11)
                        (repeatedRoot 0x43)];
     score := 0.84375 + 0.625 |}.

Definition testPriorVotes : TestCase :=
  {| name := "PriorVotes"; priorBlocks := priorBlocksPriorVotes;
     proposal :=
       bellatrixProposal 12344 (repeatedRoot 0x43)
         [attestationOf (bitList 5 128) 12342 (repeatedRoot 0x42)
                        (repeatedRoot 0x42)];
     score := 1.875 |}.

Definition testTargetCorrect : TestCase :=
  {| name := "TargetCorrect"; priorBlocks := priorBlocksTarget;
     proposal :=
       bellatrixProposal 12345 (repeatedRoot 0x44)
         [attestationOf (bitList 1 128) 12344 (repeatedRoot 0x44)
                        (repeatedRoot 0x20)];
     score := 0.84375 |}.

Definition testTargetIncorrect : TestCase :=
  {| name := "TargetIncorrect"; priorBlocks := priorBlocksTarget;
     proposal :=
       bellatrixProposal 12345 (repeatedRoot 0x44)
         [attestationOf (bitList 1 128) 12344 (repeatedRoot 0x44)
                        (repeatedRoot 0x15)];
     score := 0.4375 |}.

Definition testInvalidVersion : TestCase :=
  {| name := "InvalidVersion"; priorBlocks := ∅;
     proposal :=
       Some {| Version := DataVersionOther 999;
               Bellatrix :=
                 Some (bellatrixBlock 12345 0
                         [attestationOf (bitList 1 128) 12343 0 0;
                          attestationOf (bitList 2 128) 12343 0 0]);
               Capella := None |};
     score := 0 |}.

(** The block and the attestation of the case [PriorVotes], and the entry of
    its orphaned block. *)
Definition attestationPriorVotes : Attester.Attestation :=
  attestationOf (bitList 5 128) 12342 (repeatedRoot 0x42) (repeatedRoot 0x42).

Definition blockPriorVotes : BlindedBeaconBlock :=
  bellatrixBlock 12344 (repeatedRoot 0x43) [attestationPriorVotes].

Definition orphanedPriorVotes : priorBlockVotes :=
  {| root := 0; parent := repeatedRoot 0x41; slot := 12342;
     votes := {[ 12342%Z := {[ 0%Z := bitList 5 128 ]} ]} |}.

Definition tests : list TestCase :=
  [ testNil; testEmpty; testSingleAttestation; testDistance1;
    testDistance1IncorrectHead; testDistance2; testDistance5; testDistance6;
    testOverlappingAttestations; testParentMissing; testPriorVotes;
    testTargetCorrect; testTargetIncorrect; testInvalidVersion ].

(** What a scorer returns for a case, and whether that is the score the
    case expects ([assert.Equal]). *)
Definition scored (factor : bool -> bool -> Z -> Q) (t : TestCase) : Q :=
  scoreBlindedProposalWith factor (serviceWith (priorBlocks t)) (proposal t).

Definition passes (factor : bool -> bool -> Z -> Q) (t : TestCase) : bool :=
  Qeq_bool (scored factor t) (score t).

(** Examples of a factor with which the steps above return the score that
    every case of [TestScore] expects: 26/64 for a correct target, 14/64 for
    a distance of at most [bound] and 14/64 for a correct head at distance 1.
    They come from no source: the test fixes the factor at five points only,
    and every bound from 3 to 10 meets it. *)
Definition passingFactorUpTo (bound : Z) (head target : bool) (d : Z) : Q :=
  (if target then 26 # 64 else 0)
  + (if (d <=? bound)%Z then 14 # 64 else 0)
  + (if head && (d =? 1)%Z then 14 # 64 else 0).

Definition passingFactor : bool -> bool -> Z -> Q := passingFactorUpTo 5.

End Scorer.

(** * Properties *)

Lemma wrap64_small x : minInt64 <= x <= maxInt64 -> wrap64 x = x.
Proof.
  unfold wrap64, minInt64, maxInt64. intros Hx.
  rewrite Z.mod_small by lia. lia.
Qed.

(** ** The time-delay knob *)

Module TimeDelayFacts.
Import TimeDelay.

Lemma due_spec w g :
  IsZero (lastRead g) || (60 * Second <=? now w - lastRead g) = true <-> due w g.
Proof.
  unfold due, IsZero. rewrite orb_true_iff, Z.eqb_eq, Z.leb_le. tauto.
Qed.

Lemma not_due_unchanged w g :
  ~ due w g ->
  TimeDelayHack w g = {| globals := g; returned := lag g; reads := [] |}.
Proof.
  intros Hnd. unfold TimeDelayHack.
  destruct (IsZero (lastRead g) || (60 * Second <=? now w - lastRead g)) eqn:E;
    [|reflexivity].
  apply due_spec in E. contradiction.
Qed.

(** A call that reads a file was due, and leaves its instant in [lastRead]. *)
Lemma reads_was_due w g :
  reads (TimeDelayHack w g) <> [] ->
  due w g /\ lastRead (globals (TimeDelayHack w g)) = now w.
Proof.
  unfold TimeDelayHack.
  destruct (IsZero (lastRead g) || (60 * Second <=? now w - lastRead g)) eqn:E.
  - apply due_spec in E. intros _. split; [exact E|].
    destruct (String.eqb _ _); [reflexivity|].
    destruct (readFile w _) as [data|]; [|reflexivity].
    destruct (Atoi data); reflexivity.
  - simpl. congruence.
Qed.

(** [lastRead] either stays or becomes the instant of a due call. *)
Lemma lastRead_step w g :
  lastRead (globals (TimeDelayHack w g)) = lastRead g
  \/ (due w g /\ lastRead (globals (TimeDelayHack w g)) = now w).
Proof.
  unfold TimeDelayHack.
  destruct (IsZero (lastRead g) || (60 * Second <=? now w - lastRead g)) eqn:E.
  - apply due_spec in E. right. split; [exact E|].
    destruct (String.eqb _ _); [reflexivity|].
    destruct (readFile w _) as [data|]; [|reflexivity].
    destruct (Atoi data); reflexivity.
  - left. reflexivity.
Qed.

(** Every read of a run happens a minute or more after the last refresh that
    preceded the run. *)
Lemma read_after_lastRead ws : forall g j tj oj,
  Forall (fun w => now w <> 0) ws ->
  lastRead g <> 0 ->
  run g ws !! j = Some (tj, oj) ->
  reads oj <> [] ->
  60 * Second <= tj - lastRead g.
Proof.
  induction ws as [|w ws IH]; intros g j tj oj Hnz Hg Hj Hr; [discriminate|].
  inversion Hnz as [|? ? Hw Hws]; subst.
  destruct j as [|j]; simpl in Hj.
  - injection Hj as <- <-.
    destruct (reads_was_due _ _ Hr) as [[Hz|Hd] _]; [contradiction|exact Hd].
  - destruct (lastRead_step w g) as [Hsame|[[Hz|Hd] Hnew]];
      [| contradiction |].
    + rewrite <- Hsame. eapply IH; eauto. rewrite Hsame. exact Hg.
    + assert (60 * Second <= tj - lastRead (globals (TimeDelayHack w g))) as H
        by (eapply IH; eauto; rewrite Hnew; exact Hw).
      rewrite Hnew in H. unfold Second in *. lia.
Qed.

Lemma reads_spaced ws : forall g i j ti tj oi oj,
  Forall (fun w => now w <> 0) ws ->
  run g ws !! i = Some (ti, oi) ->
  run g ws !! j = Some (tj, oj) ->
  (i < j)%nat ->
  reads oi <> [] -> reads oj <> [] ->
  60 * Second <= tj - ti.
Proof.
  induction ws as [|w ws IH]; intros g i j ti tj oi oj Hnz Hi Hj Hij Hri Hrj;
    [discriminate|].
  inversion Hnz as [|? ? Hw Hws]; subst.
  destruct j as [|j]; [lia|]. simpl in Hj.
  destruct i as [|i]; simpl in Hi.
  - injection Hi as <- <-.
    destruct (reads_was_due _ _ Hri) as [_ Hnew].
    rewrite <- Hnew. eapply read_after_lastRead; eauto.
    rewrite Hnew. exact Hw.
  - eapply IH; eauto. lia.
Qed.

(** A call reads nothing, or exactly the file the variable names. *)
Lemma reads_only_named w g :
  reads (TimeDelayHack w g) = []
  \/ reads (TimeDelayHack w g) = [getenv w "TIME_DELAY_HACK"].
Proof.
  unfold TimeDelayHack.
  destruct (_ || _); [|left; reflexivity].
  destruct (String.eqb _ _); [left; reflexivity|].
  destruct (readFile w _) as [data|]; [|right; reflexivity].
  destruct (Atoi data); right; reflexivity.
Qed.

Lemma refresh_success w g data number :
  due w g ->
  getenv w "TIME_DELAY_HACK" <> "" ->
  readFile w (getenv w "TIME_DELAY_HACK") = Some data ->
  Atoi data = Some number ->
  TimeDelayHack w g =
    {| globals := {| lastRead := now w; lag := durationMs number |};
       returned := durationMs number;
       reads := [getenv w "TIME_DELAY_HACK"] |}.
Proof.
  intros Hd Hne Hf Ha. unfold TimeDelayHack.
  apply due_spec in Hd. rewrite Hd.
  destruct (String.eqb_spec (getenv w "TIME_DELAY_HACK") "") as [E|_];
    [contradiction|].
  rewrite Hf, Ha. reflexivity.
Qed.

(** Calls inside the minute that follows a refresh at [t0] change nothing. *)
Lemma window_cached ws : forall t0 v,
  t0 <> 0 ->
  Forall (fun w => now w - t0 < 60 * Second) ws ->
  Forall (fun r => returned r.2 = v /\ reads r.2 = [])
         (run {| lastRead := t0; lag := v |} ws).
Proof.
  induction ws as [|w ws IH]; intros t0 v Ht0 Hwin; [constructor|].
  inversion Hwin as [|? ? Hw Hws]; subst. simpl.
  rewrite not_due_unchanged by (unfold due; simpl; lia).
  constructor; [split; reflexivity|]. simpl. apply IH; assumption.
Qed.

Lemma unset_returns_cached w g :
  getenv w "TIME_DELAY_HACK" = "" ->
  returned (TimeDelayHack w g) = lag g /\ reads (TimeDelayHack w g) = []
  /\ lag (globals (TimeDelayHack w g)) = lag g.
Proof.
  intros Hu. unfold TimeDelayHack. rewrite Hu. simpl.
  destruct (_ || _); repeat split; reflexivity.
Qed.

Lemma durationMs_exact number :
  -9223372036854 <= number <= 9223372036854 ->
  durationMs number = number * Millisecond.
Proof.
  intros H. unfold durationMs, Millisecond.
  apply wrap64_small. unfold minInt64, maxInt64. lia.
Qed.

(** C9.  [TimeDelayHack] reads the file named by TIME_DELAY_HACK at most
    once per 60 seconds: any two reads of a sequence of calls are a minute or
    more apart, and a call reads no file but that one.  A due read that
    parses caches the integer of the file as a [time.Duration] of that many
    milliseconds (the [int64] product, which is the exact number of
    milliseconds whenever that fits a [Duration]) and returns it, and every
    call less than 60 seconds after it returns the cached duration and reads
    nothing.  With the variable unset the cached value, zero at start, is
    returned. *)
Theorem TimeDelayHack_reads_once_per_minute :
  (forall g ws i j ti tj oi oj,
      Forall (fun w => now w <> 0) ws ->
      run g ws !! i = Some (ti, oi) ->
      run g ws !! j = Some (tj, oj) ->
      (i < j)%nat ->
      reads oi <> [] -> reads oj <> [] ->
      60 * Second <= tj - ti)
  /\ (forall w g,
        reads (TimeDelayHack w g) = []
        \/ reads (TimeDelayHack w g) = [getenv w "TIME_DELAY_HACK"])
  /\ (forall w g data number ws,
        now w <> 0 ->
        due w g ->
        getenv w "TIME_DELAY_HACK" <> "" ->
        readFile w (getenv w "TIME_DELAY_HACK") = Some data ->
        Atoi data = Some number ->
        Forall (fun w' => now w' - now w < 60 * Second) ws ->
        returned (TimeDelayHack w g) = durationMs number
        /\ lag (globals (TimeDelayHack w g)) = durationMs number
        /\ reads (TimeDelayHack w g) = [getenv w "TIME_DELAY_HACK"]
        /\ (-9223372036854 <= number <= 9223372036854 ->
            durationMs number = number * Millisecond)
        /\ Forall (fun r => returned r.2 = durationMs number /\ reads r.2 = [])
                  (run (globals (TimeDelayHack w g)) ws))
  /\ (forall w g,
        getenv w "TIME_DELAY_HACK" = "" ->
        returned (TimeDelayHack w g) = lag g
        /\ reads (TimeDelayHack w g) = [])
  /\ lag initial = 0.
Proof.
  split; [|split; [|split; [|split]]].
  - intros g ws. apply reads_spaced.
  - apply reads_only_named.
  - intros w g data number ws Hw Hd Hne Hf Ha Hwin.
    rewrite (refresh_success w g data number Hd Hne Hf Ha). simpl.
    repeat split; [apply durationMs_exact|].
    apply window_cached; assumption.
  - intros w g Hu. destruct (unset_returns_cached w g Hu) as (H1 & H2 & _).
    split; assumption.
  - reflexivity.
Qed.

Lemma TimeDelayHack_reads_once_per_minute_witness :
  returned (TimeDelayHack (world250 (5 * Second)) initial) = 250 * Millisecond
  /\ Forall (fun r => returned r.2 = durationMs 250 /\ reads r.2 = [])
            (run (globals (TimeDelayHack (world250 (5 * Second)) initial))
                 [world250 (6 * Second); world250 (64 * Second)])
  /\ 60 * Second <= 70 * Second - 5 * Second.
Proof.
  destruct TimeDelayHack_reads_once_per_minute as (Hsp & _ & Hok & _ & _).
  assert (Hnz : forall k, 0 < k -> k * Second <> 0) by (unfold Second; lia).
  split; [|split].
  - destruct (Hok (world250 (5 * Second)) initial "250"%string 250
                  [world250 (6 * Second); world250 (64 * Second)])
      as (Hr & _ & _ & Hex & _).
    + apply Hnz. lia.
    + left. reflexivity.
    + simpl. discriminate.
    + reflexivity.
    + reflexivity.
    + repeat constructor; simpl; unfold Second; lia.
    + rewrite Hr. apply Hex. lia.
  - destruct (Hok (world250 (5 * Second)) initial "250"%string 250
                  [world250 (6 * Second); world250 (64 * Second)])
      as (_ & _ & _ & _ & Hw).
    + apply Hnz. lia.
    + left. reflexivity.
    + simpl. discriminate.
    + reflexivity.
    + reflexivity.
    + repeat constructor; simpl; unfold Second; lia.
    + exact Hw.
  - apply (Hsp initial
               [world250 (5 * Second); world250 (64 * Second);
                world250 (70 * Second)]
               0%nat 2%nat (5 * Second) (70 * Second)
               (TimeDelayHack (world250 (5 * Second)) initial)
               (TimeDelayHack (world250 (70 * Second))
                  {| lastRead := 5 * Second; lag := durationMs 250 |})).
    + repeat constructor; simpl; apply Hnz; lia.
    + reflexivity.
    + reflexivity.
    + lia.
    + simpl. discriminate.
    + simpl. discriminate.
Defined.

End TimeDelayFacts.

(** ** The attester *)

Module AttesterFacts.
Import Attester.

Section WithAccount.
Context {Account : Type}.
Abbreviation Env := (Env Account).
Abbreviation Event := (Event Account).

(** The filter loop neither signs nor submits. *)
Lemma filterIndices_quiet epoch slot indices : forall i (a : gmap Z (gset Z)),
  quiet (Account := Account) (filterIndices epoch slot i indices a).2.
Proof.
  induction indices as [|index rest IH]; intros i a; simpl; [constructor|].
  destruct (hasAttested a epoch index).
  - specialize (IH (S i) a).
    destruct (filterIndices epoch slot (S i) rest a) as [[a' vs] tr].
    constructor; [split; reflexivity|exact IH].
  - specialize (IH (S i) (markAttested epoch index a)).
    destruct (filterIndices epoch slot (S i) rest _) as [[a' vs] tr].
    constructor; [split; reflexivity|exact IH].
Qed.

Lemma quiet_app (tr1 tr2 : list Event) : quiet tr1 -> quiet tr2 -> quiet (tr1 ++ tr2).
Proof. unfold quiet. intros H1 H2. apply Forall_app; split; assumption. Qed.

Ltac quiet_tail :=
  repeat (apply quiet_app; [|repeat constructor]); try assumption.

(** C5.  When the attestation data the beacon node returned fails one of the
    three checks (its slot is not the duty's, its source epoch is after its
    target epoch, its target epoch is after the epoch of the duty's slot),
    [Attest] returns one of the three validation errors without having
    called the signer or the submitter; when the data passes the three
    checks, whatever error [Attest] returns is not a validation error. *)
Theorem Attest_validates_attestation_data
    (env : Env) (s : Service) (duty : Duty) (c0 : Z) (data : AttestationData) :
  slotsPerEpoch s <> 0 ->
  CommitteeIndices duty !! 0%nat = Some c0 ->
  AttestationDataOf env (dutySlot duty) c0 = inr data ->
  (invalidData s duty data ->
     exists e, (Attest env s duty).2 = Err e /\ validationError e = true
               /\ quiet (Attest env s duty).1.2)
  /\ (~ invalidData s duty data ->
     forall e, (Attest env s duty).2 = Err e -> validationError e = false).
Proof.
  intros Hspe Hc Hd. unfold Attest, invalidData.
  pose proof (filterIndices_quiet (SlotToEpoch s (dutySlot duty)) (dutySlot duty)
                (ValidatorIndices duty) 0
                (ensureEpoch (SlotToEpoch s (dutySlot duty)) (attested s))) as Hq.
  destruct (filterIndices _ _ _ _ _) as [[a vs] tr0]. simpl in Hq.
  rewrite Hc, Hd.
  destruct (Z.eqb_spec (Slot data) (dutySlot duty)) as [Hslot|Hslot]; simpl.
  2:{ split; [|tauto]. intros _. eexists. split; [reflexivity|].
      split; [reflexivity|]. simpl. quiet_tail. }
  destruct (Z.ltb_spec (Epoch (Target data)) (Epoch (Source data))) as [Hst|Hst].
  { split; [|tauto]. intros _. eexists. split; [reflexivity|].
    split; [reflexivity|]. simpl. quiet_tail. }
  destruct (Z.eqb_spec (slotsPerEpoch s) 0) as [|_]; [contradiction|].
  destruct (Z.ltb_spec (dutySlot duty / slotsPerEpoch s) (Epoch (Target data)))
    as [Htc|Htc].
  { split; [|tauto]. intros _. eexists. split; [reflexivity|].
    split; [reflexivity|]. simpl. quiet_tail. }
  split; [intros [?|[?|?]]; lia|]. intros _ e.
  destruct (ValidatingAccountsForEpochByIndex env _ vs) as [cause|va];
    [simpl; intros [= <-]; reflexivity|].
  destruct (perValidator _ _ _) as [[[cs vcs] sizes]|]; [|discriminate].
  unfold attest.
  destruct (SignBeaconAttestations _ _ _ _ _ _ _ _ _) as [cause|sigs];
    [simpl; intros [= <-]; reflexivity|].
  destruct (createAttestations _ _ _ _ _ _ _) as [[atts warns]|];
    [|discriminate].
  destruct atts as [|att atts].
  - simpl. destruct (1 <? _); discriminate.
  - destruct (SubmitAttestations env _) as [cause|]; simpl.
    + intros [= <-]; reflexivity.
    + destruct (1 <? _); discriminate.
Qed.

(** What the filter loop computes: the indices it keeps are those of the
    duty that were not attested yet, each once; all of them are attested
    afterwards, each marked by a write the trace shows; other epochs are
    untouched. *)
Lemma filterIndices_spec epoch slot indices : forall i (a : gmap Z (gset Z)),
  let r := filterIndices (Account := Account) epoch slot i indices a in
  default ∅ (r.1.1 !! epoch) = list_to_set r.1.2 ∪ default ∅ (a !! epoch)
  /\ (forall e, e <> epoch -> r.1.1 !! e = a !! e)
  /\ NoDup r.1.2
  /\ (forall v, v ∈ r.1.2 -> v ∈ indices /\ v ∉ default ∅ (a !! epoch))
  /\ (forall v, v ∈ indices -> v ∈ default ∅ (r.1.1 !! epoch))
  /\ (forall v, v ∈ r.1.2 -> EvAttested epoch v ∈ r.2).
Proof.
  induction indices as [|index rest IH]; intros i a; simpl.
  - split; [set_solver|]. split; [reflexivity|]. split; [constructor|].
    split; [|split]; intros v Hv; inversion Hv.
  - unfold hasAttested. case_bool_decide as Hin.
    + specialize (IH (S i) a).
      destruct (filterIndices epoch slot (S i) rest a) as [[a' vs] tr].
      simpl in *. destruct IH as (Hset & Hoth & Hnd & Hvs & Hall & Htr).
      split; [exact Hset|]. split; [exact Hoth|]. split; [exact Hnd|].
      split; [|split].
      * intros v Hv. apply Hvs in Hv as [Hv1 Hv2].
        split; [right; exact Hv1|exact Hv2].
      * intros v Hv. apply elem_of_cons in Hv as [->|Hv]; [|auto].
        rewrite Hset. apply elem_of_union_r. exact Hin.
      * intros v Hv. right. auto.
    + specialize (IH (S i) (markAttested epoch index a)).
      destruct (filterIndices epoch slot (S i) rest _) as [[a' vs] tr].
      simpl in *. destruct IH as (Hset & Hoth & Hnd & Hvs & Hall & Htr).
      unfold markAttested in *. rewrite lookup_insert_eq in *. simpl in *.
      split; [|split; [|split; [|split; [|split]]]].
      * rewrite Hset. set_solver.
      * intros e He. rewrite Hoth by exact He. apply lookup_insert_ne. congruence.
      * constructor; [|exact Hnd]. intros Hv. apply Hvs in Hv as [_ Hv].
        apply Hv. apply elem_of_union_l, elem_of_singleton. reflexivity.
      * intros v Hv. apply elem_of_cons in Hv as [->|Hv].
        -- split; [left|exact Hin].
        -- apply Hvs in Hv as [Hv1 Hv2]. split; [right; exact Hv1|].
           intros Hv3. apply Hv2. apply elem_of_union_r. exact Hv3.
      * intros v Hv. apply elem_of_cons in Hv as [->|Hv]; [|auto].
        rewrite Hset. apply elem_of_union_r, elem_of_union_l, elem_of_singleton.
        reflexivity.
      * intros v Hv. apply elem_of_cons in Hv as [->|Hv]; [left|right; auto].
Qed.

Lemma signed_app (s : Service) (tr1 tr2 : list Event) :
  signed s (tr1 ++ tr2) = signed s tr1 ++ signed s tr2.
Proof. unfold signed. rewrite fmap_app, concat_app. reflexivity. Qed.

Lemma signed_cons (s : Service) (e : Event) (tr : list Event) :
  signed s (e :: tr) = signedBy s e ++ signed s tr.
Proof. reflexivity. Qed.

Lemma signed_quiet (s : Service) (tr : list Event) :
  quiet tr -> signed s tr = [].
Proof.
  induction 1 as [|e tr [He _] _ IH]; [reflexivity|].
  rewrite signed_cons, IH.
  destruct e; try reflexivity. discriminate.
Qed.

Lemma elem_of_signed (s : Service) (tr : list Event) (p : Z * Z) :
  p ∈ signed s tr <-> exists e, e ∈ tr /\ p ∈ signedBy s e.
Proof.
  induction tr as [|e tr IH].
  - split; [intros H; inversion H|intros (e & He & _); inversion He].
  - rewrite signed_cons, elem_of_app, IH. split.
    + intros [Hp|(e' & He' & Hp)]; [exists e|exists e'];
        (split; [|exact Hp]); [left|right; exact He'].
    + intros (e' & He' & Hp). apply elem_of_cons in He' as [->|He'];
        [left; exact Hp|right; eauto].
Qed.

(** The warnings of the loop that creates the attestations are just that. *)
Lemma createAttestations_warnings duty data cs vcs sizes sigs :
  forall i atts (warns : list Event),
  createAttestations duty data cs vcs sizes i sigs = Some (atts, warns) ->
  Forall (fun e => e = EvNoSignature) warns.
Proof.
  induction sigs as [|sig sigs IH]; intros i atts warns; simpl.
  - intros [= <- <-]. constructor.
  - destruct (sig =? zeroSig).
    + destruct (createAttestations _ _ _ _ _ _ _) as [[atts' tr']|] eqn:E;
        [|discriminate].
      intros [= <- <-]. constructor; [reflexivity|]. eapply IH. exact E.
    + destruct (sizes !! i); [|discriminate].
      destruct (vcs !! i); [|discriminate].
      destruct (cs !! i); [|discriminate].
      destruct (createAttestations _ _ _ _ _ _ _) as [[atts' tr']|] eqn:E;
        [|discriminate].
      intros [= <- <-]. eapply IH. exact E.
Qed.

Lemma warnings_quiet (warns : list Event) :
  Forall (fun e => e = EvNoSignature) warns -> quiet warns.
Proof.
  induction 1 as [|e tr -> _ IH]; constructor; [split; reflexivity|exact IH].
Qed.

(** [attest] calls the signer once, for the accounts it was given. *)
Lemma attest_signed (s : Service) (env : Env) duty vals accs cs vcs sizes data :
  signed s (attest env duty vals accs cs vcs sizes data).1
  = (fun v => (SlotToEpoch s (dutySlot duty), v)) <$> vals.
Proof.
  unfold attest.
  destruct (SignBeaconAttestations _ _ _ _ _ _ _ _ _) as [cause|sigs].
  { unfold signed. simpl. apply app_nil_r. }
  destruct (createAttestations _ _ _ _ _ _ _) as [[atts warns]|] eqn:E.
  2:{ unfold signed. simpl. apply app_nil_r. }
  apply createAttestations_warnings, warnings_quiet in E.
  assert (forall last : Event, isSign last = false -> isSubmit last = false \/ True ->
            signed s (warns ++ [last]) = []) as Hw.
  { intros last Hl _. rewrite signed_app, (signed_quiet _ _ E).
    destruct last; try reflexivity. discriminate. }
  destruct atts as [|att atts]; [|destruct (SubmitAttestations env _)];
    simpl; change (?e :: ?l ++ [?x]) with ([e] ++ (l ++ [x]));
    rewrite signed_app, Hw by (auto; reflexivity);
    unfold signed; simpl; rewrite !app_nil_r; reflexivity.
Qed.

(** The shape of a call: the service keeps its chain parameters; the
    attested map is the one the filter loop left, less the entry of two
    epochs before when the call ran to its end; the trace is the filter
    loop's followed by at most one signing call, made for accounts that the
    provider returned for the filtered indices. *)
Lemma Attest_shape (env : Env) (s : Service) (duty : Duty) a vs tr0 :
  let epoch := SlotToEpoch s (dutySlot duty) in
  filterIndices (Account := Account) epoch (dutySlot duty) 0
    (ValidatorIndices duty) (ensureEpoch epoch (attested s)) = (a, vs, tr0) ->
  let o := Attest env s duty in
  SlotToEpoch o.1.1 = SlotToEpoch s
  /\ slotsPerEpoch o.1.1 = slotsPerEpoch s
  /\ (attested o.1.1 = a
      \/ (1 < epoch /\ attested o.1.1 = delete (epoch - 2) a))
  /\ exists rest, o.1.2 = tr0 ++ rest
       /\ (signed s rest = []
           \/ exists va,
                ValidatingAccountsForEpochByIndex env
                  (dutySlot duty / slotsPerEpoch s) vs = inr va
                /\ signed s rest = (fun v => (epoch, v)) <$> va.*1).
Proof.
  intros epoch Hf o. pattern o.
  match goal with |- ?P _ => set (Q := P) end.
  subst o. unfold Attest. fold epoch. rewrite Hf.
  assert (forall (r : Result (list Attestation)) rest,
            signed s rest = [] -> Q (withAttested s a, tr0 ++ rest, r))
    as Hplain.
  { intros r rest Hrest. subst Q. simpl.
    split; [reflexivity|]. split; [reflexivity|].
    split; [left; reflexivity|]. exists rest. split; [reflexivity|].
    left. exact Hrest. }
  assert (forall (r : Result (list Attestation)) rest s1 va,
            ValidatingAccountsForEpochByIndex env
              (dutySlot duty / slotsPerEpoch s) vs = inr va ->
            signed s rest = (fun v => (epoch, v)) <$> va.*1 ->
            s1 = withAttested s a
            \/ (1 < epoch /\ s1 = withAttested s (delete (epoch - 2) a)) ->
            Q (s1, tr0 ++ rest, r))
    as Hsigned.
  { intros r rest s1 va Hva Hrest Hs1. subst Q. simpl.
    split; [destruct Hs1 as [->|[_ ->]]; reflexivity|].
    split; [destruct Hs1 as [->|[_ ->]]; reflexivity|].
    split; [destruct Hs1 as [->|[H1 ->]]; [left|right; split; [exact H1|]];
            reflexivity|].
    exists rest. split; [reflexivity|]. right. exists va. split; assumption. }
  destruct (CommitteeIndices duty !! 0%nat) as [c0|].
  2:{ rewrite <- (app_nil_r tr0). apply Hplain. reflexivity. }
  destruct (AttestationDataOf env (dutySlot duty) c0) as [cause|data].
  { apply Hplain. reflexivity. }
  destruct (negb (Slot data =? dutySlot duty)).
  { rewrite <- app_assoc. apply Hplain. reflexivity. }
  destruct (Epoch (Target data) <? Epoch (Source data)).
  { rewrite <- app_assoc. apply Hplain. reflexivity. }
  destruct (slotsPerEpoch s =? 0).
  { apply Hplain. reflexivity. }
  destruct (dutySlot duty / slotsPerEpoch s <? Epoch (Target data)).
  { rewrite <- app_assoc. apply Hplain. reflexivity. }
  destruct (ValidatingAccountsForEpochByIndex env _ vs) as [cause|va] eqn:Eva.
  { rewrite <- !app_assoc. apply Hplain. reflexivity. }
  destruct (perValidator _ _ _) as [[[cs vcs] sizes]|].
  2:{ rewrite <- !app_assoc. apply Hplain. reflexivity. }
  pose proof (attest_signed s env duty va.*1 va.*2 cs vcs sizes data) as Hsig.
  destruct (attest _ _ _ _ _ _ _ _) as [tr3 r]. simpl in Hsig. fold epoch in Hsig.
  assert (forall tail, quiet tail ->
            signed s ([EvAttestationData (Account := Account) (dutySlot duty) c0]
                      ++ [EvValidatingAccounts
                            (dutySlot duty / slotsPerEpoch s) vs]
                      ++ tr3 ++ tail)
            = (fun v => (epoch, v)) <$> va.*1) as Hrest.
  { intros tail Htail. rewrite !signed_app, Hsig, (signed_quiet _ _ Htail).
    unfold signed. simpl. apply app_nil_r. }
  destruct r as [atts|e|].
  - destruct (1 <? epoch) eqn:Eep; rewrite <- !app_assoc;
      (eapply Hsigned; [reflexivity| |]).
    + apply Hrest. destruct (Z.of_nat _ <? _); simpl; repeat constructor.
    + right. split; [apply Z.ltb_lt; exact Eep|reflexivity].
    + apply Hrest. destruct (Z.of_nat _ <? _); simpl; repeat constructor.
    + left. reflexivity.
  - rewrite <- !app_assoc. eapply Hsigned; [reflexivity| |left; reflexivity].
    apply Hrest. repeat constructor.
  - rewrite <- !app_assoc. eapply Hsigned; [reflexivity| |left; reflexivity].
    rewrite <- (app_nil_r tr3). apply Hrest. constructor.
Qed.

Lemma ensureEpoch_lookup epoch (a : gmap Z (gset Z)) e :
  default ∅ (ensureEpoch epoch a !! e) = default ∅ (a !! e).
Proof.
  unfold ensureEpoch. destruct (a !! epoch) eqn:E; [reflexivity|].
  destruct (decide (epoch = e)) as [<-|Hne].
  - rewrite lookup_insert_eq, E. reflexivity.
  - rewrite lookup_insert_ne by exact Hne. reflexivity.
Qed.

(** A part of a trace that holds no signing call ends before any signing
    call of the whole. *)
Lemma quiet_prefix (l1 : list Event) : forall l2 pre e post,
  l1 ++ l2 = pre ++ e :: post ->
  quiet l1 -> isSign e = true ->
  exists mid, pre = l1 ++ mid.
Proof.
  induction l1 as [|y l1 IH]; intros l2 pre e post Heq Hq He.
  - exists pre. reflexivity.
  - inversion Hq as [|? ? [Hy _] Hq']; subst.
    destruct pre as [|z pre]; simpl in Heq.
    + injection Heq as -> _. congruence.
    + injection Heq as -> Heq.
      destruct (IH _ _ _ _ Heq Hq' He) as [mid ->]. exists mid. reflexivity.
Qed.

Lemma signedBy_isSign (s : Service) (e : Event) p :
  p ∈ signedBy s e -> isSign e = true.
Proof. destruct e; simpl; intros H; try (inversion H; fail). reflexivity. Qed.

(** One call: what it signs for was not attested before the call, is
    attested after it, and is signed for once. *)
Lemma Attest_signed_fresh (env : Env) (s : Service) (duty : Duty) :
  providerSound env ->
  let epoch := SlotToEpoch s (dutySlot duty) in
  let o := Attest env s duty in
  NoDup (signed s o.1.2)
  /\ forall p, p ∈ signed s o.1.2 ->
       p.1 = epoch /\ (p.2 ∉ attestedIn s epoch)
       /\ (p.2 ∈ attestedIn o.1.1 epoch).
Proof.
  intros Hsound epoch o.
  destruct (filterIndices (Account := Account) epoch (dutySlot duty) 0
              (ValidatorIndices duty) (ensureEpoch epoch (attested s)))
    as [[a vs] tr0] eqn:Hf.
  pose proof (filterIndices_spec epoch (dutySlot duty) (ValidatorIndices duty)
                0%nat (ensureEpoch epoch (attested s))) as Hspec.
  pose proof (filterIndices_quiet epoch (dutySlot duty) (ValidatorIndices duty)
                0%nat (ensureEpoch epoch (attested s))) as Hq.
  rewrite Hf in Hspec, Hq. simpl in Hspec, Hq.
  destruct Hspec as (Hset & Hoth & Hnd & Hvs & Hall & Htr).
  destruct (Attest_shape env s duty a vs tr0 Hf)
    as (_ & _ & Hatt & rest & Htrace & Hsigned).
  fold o in Hatt, Htrace. rewrite Htrace, signed_app, (signed_quiet _ _ Hq).
  simpl. destruct Hsigned as [->|(va & Hva & ->)].
  { split; [constructor|]. intros p Hp. inversion Hp. }
  destruct (Hsound _ _ _ Hva) as [Hnodup Hsub].
  split.
  - apply NoDup_fmap_2; [|exact Hnodup]. intros x y [= ->]. reflexivity.
  - intros p Hp. apply list_elem_of_fmap in Hp as (v & -> & Hv). simpl.
    apply Hsub in Hv. destruct (Hvs v Hv) as [Hin Hfresh].
    rewrite ensureEpoch_lookup in Hfresh.
    split; [reflexivity|]. split; [exact Hfresh|].
    unfold attestedIn. destruct Hatt as [->|[_ ->]].
    + apply Hall. exact Hin.
    + rewrite lookup_delete_ne by lia. apply Hall. exact Hin.
Qed.

Lemma Attest_SlotToEpoch (env : Env) (s : Service) (duty : Duty) :
  SlotToEpoch (Attest env s duty).1.1 = SlotToEpoch s.
Proof.
  destruct (filterIndices (Account := Account) (SlotToEpoch s (dutySlot duty))
              (dutySlot duty) 0 (ValidatorIndices duty)
              (ensureEpoch (SlotToEpoch s (dutySlot duty)) (attested s)))
    as [[a vs] tr0] eqn:Hf.
  destruct (Attest_shape env s duty a vs tr0 Hf) as (H & _). exact H.
Qed.

Lemma signed_ext (s1 s2 : Service) (tr : list Event) :
  SlotToEpoch s1 = SlotToEpoch s2 -> signed s1 tr = signed s2 tr.
Proof.
  intros H. induction tr as [|e tr IH]; [reflexivity|].
  rewrite !signed_cons, IH. f_equal. destruct e; try reflexivity.
  simpl. rewrite H. reflexivity.
Qed.

Lemma epochsOf_ext (s1 s2 : Service) (calls : list (Env * Duty)) :
  SlotToEpoch s1 = SlotToEpoch s2 -> epochsOf s1 calls = epochsOf s2 calls.
Proof. intros H. unfold epochsOf. rewrite H. reflexivity. Qed.

(** The attested map a call leaves: the one of the filter loop, less the
    set the call deletes. *)
Lemma Attest_attested_after (env : Env) (s : Service) (duty : Duty) :
  let epoch := SlotToEpoch s (dutySlot duty) in
  let a := (filterIndices (Account := Account) epoch (dutySlot duty) 0
              (ValidatorIndices duty) (ensureEpoch epoch (attested s))).1.1 in
  attested (Attest env s duty).1.1
  = match evicted s duty (Attest env s duty).2 with
    | Some e => delete e a
    | None => a
    end.
Proof.
  intros epoch a. subst a. unfold evicted. fold epoch. unfold Attest.
  fold epoch.
  destruct (filterIndices epoch (dutySlot duty) 0 (ValidatorIndices duty)
              (ensureEpoch epoch (attested s))) as [[a vs] tr0].
  cbv zeta.
  destruct (CommitteeIndices duty !! 0%nat) as [c0|]; [|reflexivity].
  destruct (AttestationDataOf env _ _) as [cause|data]; [reflexivity|].
  destruct (negb _); [reflexivity|].
  destruct (Epoch (Target data) <? Epoch (Source data)); [reflexivity|].
  destruct (slotsPerEpoch s =? 0); [reflexivity|].
  destruct (_ / _ <? Epoch (Target data)); [reflexivity|].
  destruct (ValidatingAccountsForEpochByIndex env _ _) as [cause|va];
    [reflexivity|].
  destruct (perValidator duty _ _) as [[[cs vcs] sizes]|]; [|reflexivity].
  destruct (attest env duty _ _ _ _ _ _) as [tr3 r].
  destruct r as [atts|e|]; [|reflexivity..].
  destruct (1 <? epoch); reflexivity.
Qed.

(** A call forgets nothing about an epoch whose set it does not delete. *)
Lemma Attest_attested_keep (env : Env) (s : Service) (duty : Duty) e v :
  evicted s duty (Attest env s duty).2 <> Some e ->
  v ∈ attestedIn s e -> v ∈ attestedIn (Attest env s duty).1.1 e.
Proof.
  intros Hne Hv. set (epoch := SlotToEpoch s (dutySlot duty)) in *.
  pose proof (Attest_attested_after env s duty) as Heq. cbv zeta in Heq.
  fold epoch in Heq.
  pose proof (filterIndices_spec epoch (dutySlot duty)
                (ValidatorIndices duty) 0%nat
                (ensureEpoch epoch (attested s))) as Hspec.
  cbv zeta in Hspec. destruct Hspec as (Hset & Hoth & _).
  assert (v ∈ default ∅
                ((filterIndices (Account := Account) epoch (dutySlot duty) 0
                    (ValidatorIndices duty)
                    (ensureEpoch epoch (attested s))).1.1 !! e)) as Ha.
  { destruct (decide (e = epoch)) as [->|Hne'].
    - rewrite Hset, ensureEpoch_lookup. apply elem_of_union_r. exact Hv.
    - rewrite Hoth by exact Hne'. rewrite ensureEpoch_lookup. exact Hv. }
  unfold attestedIn. rewrite Heq.
  destruct (evicted s duty (Attest env s duty).2) as [e'|]; [|exact Ha].
  rewrite lookup_delete_ne by congruence. exact Ha.
Qed.

(** The epochs of a run are those of its duties. *)
Lemma evictions_epochs (calls : list (Env * Duty)) : forall s : Service,
  (evictions s calls).*1 = epochsOf s calls.
Proof.
  induction calls as [|[env duty] rest IH]; intros s; [reflexivity|].
  pose proof (Attest_SlotToEpoch env s duty) as Hste.
  simpl. destruct (Attest env s duty) as [[s1 tr1] r1]. simpl in *.
  rewrite IH, (epochsOf_ext s1 s _ Hste). reflexivity.
Qed.

(** What a sequence of calls signs for is for the epochs of its duties. *)
Lemma attestAll_signed_epochs (calls : list (Env * Duty)) :
  forall (s : Service) p,
  Forall (fun c => providerSound c.1) calls ->
  p ∈ signed s (attestAll s calls).2 -> p.1 ∈ epochsOf s calls.
Proof.
  induction calls as [|[env duty] rest IH]; intros s p Hsound Hp.
  { inversion Hp. }
  inversion Hsound as [|? ? Henv Hrest]; subst. simpl in Henv.
  pose proof (Attest_signed_fresh env s duty Henv) as [_ Hfresh1].
  pose proof (Attest_SlotToEpoch env s duty) as Hste.
  simpl in Hp |- *. destruct (Attest env s duty) as [[s1 tr1] r1]. simpl in *.
  specialize (IH s1 p Hrest).
  rewrite (epochsOf_ext s1 s _ Hste), (signed_ext s1 s _ Hste) in IH.
  destruct (attestAll s1 rest) as [s2 tr2]. simpl in *.
  rewrite signed_app in Hp. apply elem_of_app in Hp as [Hp|Hp].
  - destruct (Hfresh1 _ Hp) as (He & _). rewrite He. left.
  - right. apply IH. exact Hp.
Qed.

(** A validator that a sequence of calls signs for, for an epoch whose
    attested set no call deleted before a later duty of that epoch, was not
    attested for that epoch when the sequence began. *)
Lemma attestAll_signed_fresh (calls : list (Env * Duty)) :
  forall (s : Service) e v,
  Forall (fun c => providerSound c.1) calls ->
  comesAfterEviction e (evictions s calls) = false ->
  (e, v) ∈ signed s (attestAll s calls).2 -> v ∉ attestedIn s e.
Proof.
  induction calls as [|[env duty] rest IH]; intros s e v Hsound Hsafe Hp.
  { inversion Hp. }
  inversion Hsound as [|? ? Henv Hrest]; subst. simpl in Henv.
  pose proof (Attest_signed_fresh env s duty Henv) as [_ Hfresh1].
  pose proof (Attest_SlotToEpoch env s duty) as Hste.
  pose proof (Attest_attested_keep env s duty e v) as Hkeep.
  pose proof (attestAll_signed_epochs rest (Attest env s duty).1.1 (e, v)
                Hrest) as Hep.
  pose proof (evictions_epochs rest (Attest env s duty).1.1) as Hrun.
  simpl in Hp, Hsafe.
  destruct (Attest env s duty) as [[s1 tr1] r1]. simpl in *.
  apply orb_false_iff in Hsafe as [Hhere Hsafe].
  specialize (IH s1 e v Hrest Hsafe).
  rewrite (signed_ext s1 s _ Hste) in IH, Hep.
  destruct (attestAll s1 rest) as [s2 tr2]. simpl in *.
  rewrite signed_app in Hp. apply elem_of_app in Hp as [Hp|Hp].
  - destruct (Hfresh1 _ Hp) as (He & Hnot & _). simpl in He, Hnot.
    subst e. exact Hnot.
  - intros Hv. apply (IH Hp). apply Hkeep; [|exact Hv].
    apply Hep in Hp. rewrite <- Hrun in Hp.
    apply andb_false_iff in Hhere as [Hne|Hni].
    + apply bool_decide_eq_false in Hne. exact Hne.
    + apply bool_decide_eq_false in Hni. contradiction.
Qed.

(** Over a sequence of calls that does not return to an epoch whose attested
    set was deleted in between, no (epoch, validator) pair is signed for
    twice. *)
Lemma attestAll_NoDup (calls : list (Env * Duty)) : forall s : Service,
  Forall (fun c => providerSound c.1) calls ->
  returnsToEvicted (evictions s calls) = false ->
  NoDup (signed s (attestAll s calls).2).
Proof.
  induction calls as [|[env duty] rest IH]; intros s Hsound Hsafe.
  { constructor. }
  inversion Hsound as [|? ? Henv Hrest]; subst. simpl in Henv.
  pose proof (Attest_signed_fresh env s duty Henv) as [Hnd1 Hfresh1].
  pose proof (Attest_SlotToEpoch env s duty) as Hste.
  pose proof (fun e v =>
                attestAll_signed_fresh rest (Attest env s duty).1.1 e v Hrest)
    as Hlater.
  simpl in Hsafe |- *.
  destruct (Attest env s duty) as [[s1 tr1] r1]. simpl in *.
  apply orb_false_iff in Hsafe as [Hhere Hsafe].
  specialize (IH s1 Hrest Hsafe). rewrite (signed_ext s1 s _ Hste) in IH.
  assert (forall e v,
            comesAfterEviction e (evictions s1 rest) = false ->
            (e, v) ∈ signed s (attestAll s1 rest).2 -> v ∉ attestedIn s1 e)
    as Hlater'.
  { intros e v. specialize (Hlater e v).
    rewrite (signed_ext s1 s _ Hste) in Hlater. exact Hlater. }
  destruct (attestAll s1 rest) as [s2 tr2]. simpl in *.
  rewrite signed_app. apply NoDup_app. split; [exact Hnd1|].
  split; [|exact IH].
  intros [e v] Hp1 Hp2.
  destruct (Hfresh1 _ Hp1) as (He & _ & Hin). simpl in He, Hin. subst e.
  exact (Hlater' _ _ Hhere Hp2 Hin).
Qed.

(** A run whose duties come in the order of their epochs does not return to
    an epoch whose set was deleted: a call deletes the set of the epoch two
    before its own. *)
Lemma evictions_before (calls : list (Env * Duty)) : forall s : Service,
  Forall (fun x => forall e, x.2 = Some e -> e = x.1 - 2) (evictions s calls).
Proof.
  induction calls as [|[env duty] rest IH]; intros s; [constructor|].
  simpl. specialize (IH (Attest env s duty).1.1).
  destruct (Attest env s duty) as [[s1 tr1] r1]. simpl in *.
  constructor; [|exact IH]. simpl. intros e. unfold evicted.
  destruct r1; try discriminate.
  destruct (1 <? _); [|discriminate]. intros [= <-]. reflexivity.
Qed.

Lemma sorted_comesAfterEviction e (run : list (Z * option Z)) :
  Forall (fun x => forall e', x.2 = Some e' -> e' = x.1 - 2) run ->
  StronglySorted Z.le run.*1 -> comesAfterEviction e run = false.
Proof.
  induction run as [|[x deleted] rest IH]; intros Hrun Hsorted;
    [reflexivity|].
  inversion Hrun as [|? ? Hx Hrest]; subst.
  inversion Hsorted as [|? ? Hsorted' Hle]; subst.
  simpl. rewrite (IH Hrest Hsorted'), orb_false_r. apply andb_false_iff.
  destruct (decide (deleted = Some e)) as [->|Hne].
  - right. apply bool_decide_eq_false. intros Hin.
    rewrite Forall_forall in Hle. apply Hle in Hin.
    specialize (Hx e eq_refl). simpl in Hx. lia.
  - left. apply bool_decide_eq_false. exact Hne.
Qed.

Lemma sorted_returnsToEvicted (run : list (Z * option Z)) :
  Forall (fun x => forall e', x.2 = Some e' -> e' = x.1 - 2) run ->
  StronglySorted Z.le run.*1 -> returnsToEvicted run = false.
Proof.
  induction run as [|[x deleted] rest IH]; intros Hrun Hsorted;
    [reflexivity|].
  inversion Hrun as [|? ? Hx Hrest]; subst.
  inversion Hsorted as [|? ? Hsorted' Hle]; subst.
  simpl. rewrite (IH Hrest Hsorted'), orb_false_r.
  apply sorted_comesAfterEviction; assumption.
Qed.

(** The filter loop of one call is its rounds, one after the other. *)
Lemma filterIndices_rounds epoch slot call indices :
  forall i (a : gmap Z (gset Z)),
  (filterIndices (Account := Account) epoch slot i indices a).1.2
  = (fun r => r.2) <$> keptRounds a ((fun index => (call, epoch, index)) <$> indices).
Proof.
  induction indices as [|index rest IH]; intros i a; [reflexivity|].
  simpl. unfold filterRound. destruct (hasAttested a epoch index).
  - specialize (IH (S i) a).
    destruct (filterIndices epoch slot (S i) rest a) as [[a' vs] tr]. exact IH.
  - specialize (IH (S i) (markAttested epoch index a)).
    destruct (filterIndices epoch slot (S i) rest _) as [[a' vs] tr].
    simpl in *. rewrite IH. reflexivity.
Qed.

(** A round that keeps its index found it not attested. *)
Lemma keptRounds_fresh rounds : forall (a : gmap Z (gset Z)) r,
  r ∈ keptRounds a rounds -> r.2 ∉ default ∅ (a !! r.1.2).
Proof.
  induction rounds as [|[[call epoch] index] rest IH]; intros a r Hr;
    [inversion Hr|].
  simpl in Hr. unfold filterRound, hasAttested in Hr.
  case_bool_decide as Hin; [apply IH; exact Hr|].
  apply elem_of_cons in Hr as [->|Hr]; [exact Hin|].
  apply IH in Hr. intros Hv. apply Hr. unfold markAttested.
  destruct (decide (epoch = r.1.2)) as [Heq|Hne].
  - rewrite <- Heq in Hv |- *. rewrite lookup_insert_eq. simpl.
    apply elem_of_union_r. exact Hv.
  - rewrite lookup_insert_ne by exact Hne. exact Hv.
Qed.

(** However the rounds of concurrent calls interleave, no validator is kept
    twice for an epoch. *)
Lemma keptRounds_NoDup rounds : forall a : gmap Z (gset Z),
  NoDup ((fun r : nat * Z * Z => (r.1.2, r.2)) <$> keptRounds a rounds).
Proof.
  induction rounds as [|[[call epoch] index] rest IH]; intros a;
    [constructor|].
  simpl. unfold filterRound, hasAttested.
  case_bool_decide as Hin; [apply IH|].
  rewrite fmap_cons. constructor; [|apply IH].
  intros Hdup. apply list_elem_of_fmap in Hdup as (r & Heq & Hr).
  apply keptRounds_fresh in Hr. simpl in Heq. injection Heq as He Hi.
  apply Hr. rewrite <- He, <- Hi. unfold markAttested.
  rewrite lookup_insert_eq. simpl.
  apply elem_of_union_l, elem_of_singleton. reflexivity.
Qed.

(** C4, amended.  At most one attestation is signed per validator and
    epoch, as long as no duty of an epoch comes after a call that deleted the
    attested set of that epoch, which a call does for the epoch two before
    its own when it returns attestations.  In a call of [Attest], every
    validator a signing call covers was not in the attested set of the
    duty's epoch when the call began (those that were are filtered out), the
    write that puts it into the set comes earlier in the trace than the
    signing call, and it is in the set when the call returns.  Over a
    sequence of calls that does not return to an epoch whose set was deleted
    in between, no (epoch, validator) pair is signed for twice; duties in
    the order of their epochs are such a sequence.  And however the rounds
    of the filter loops of calls that run at once interleave, no validator
    passes the filter twice for an epoch, the loop of one call being its
    rounds in order. *)
Theorem Attest_signs_once_per_epoch :
  (forall (env : Env) (s : Service) (duty : Duty) pre e post ep v,
      providerSound env ->
      (Attest env s duty).1.2 = pre ++ e :: post ->
      (ep, v) ∈ signedBy s e ->
      ep = SlotToEpoch s (dutySlot duty)
      /\ (v ∉ attestedIn s ep)
      /\ (EvAttested ep v ∈ pre)
      /\ (v ∈ attestedIn (Attest env s duty).1.1 ep))
  /\ (forall (s : Service) (calls : list (Env * Duty)),
        Forall (fun c => providerSound c.1) calls ->
        returnsToEvicted (evictions s calls) = false ->
        NoDup (signed s (attestAll s calls).2))
  /\ (forall (s : Service) (calls : list (Env * Duty)),
        StronglySorted Z.le (epochsOf s calls) ->
        returnsToEvicted (evictions s calls) = false)
  /\ (forall (a : gmap Z (gset Z)) rounds,
        NoDup ((fun r : nat * Z * Z => (r.1.2, r.2)) <$> keptRounds a rounds))
  /\ (forall epoch slot call indices i (a : gmap Z (gset Z)),
        (filterIndices (Account := Account) epoch slot i indices a).1.2
        = (fun r => r.2)
            <$> keptRounds a ((fun index => (call, epoch, index)) <$> indices)).
Proof.
  split; [|split; [|split; [|split]]].
  - intros env s duty pre e post ep v Hsound Htr Hsig.
    destruct (Attest_signed_fresh env s duty Hsound) as [_ Hfresh].
    assert ((ep, v) ∈ signed s (Attest env s duty).1.2) as Hin.
    { apply elem_of_signed. exists e. split; [|exact Hsig].
      rewrite Htr. apply elem_of_app. right. left. }
    destruct (Hfresh _ Hin) as (He & Hnot & Hafter). simpl in He, Hnot, Hafter.
    subst ep. split; [reflexivity|]. split; [exact Hnot|].
    split; [|exact Hafter].
    set (epoch := SlotToEpoch s (dutySlot duty)) in *.
    destruct (filterIndices (Account := Account) epoch (dutySlot duty) 0
                (ValidatorIndices duty) (ensureEpoch epoch (attested s)))
      as [[a vs] tr0] eqn:Hf.
    pose proof (filterIndices_spec epoch (dutySlot duty) (ValidatorIndices duty)
                  0%nat (ensureEpoch epoch (attested s))) as Hspec.
    pose proof (filterIndices_quiet epoch (dutySlot duty)
                  (ValidatorIndices duty) 0%nat
                  (ensureEpoch epoch (attested s))) as Hq.
    rewrite Hf in Hspec, Hq. simpl in Hspec, Hq.
    destruct Hspec as (_ & _ & _ & _ & _ & Hmark).
    destruct (Attest_shape env s duty a vs tr0 Hf)
      as (_ & _ & _ & rest & Htrace & Hsigned).
    rewrite Htr in Htrace. symmetry in Htrace.
    destruct (quiet_prefix _ _ _ _ _ Htrace Hq (signedBy_isSign _ _ _ Hsig))
      as [mid ->].
    apply elem_of_app. left. apply Hmark.
    rewrite <- app_assoc in Htrace. apply app_inv_head in Htrace. subst rest.
    destruct Hsigned as [Hnone|(va & Hva & Hsome)].
    + exfalso. assert ((epoch, v) ∈ signed s (mid ++ e :: post)) as H.
      { apply elem_of_signed. exists e. split; [|exact Hsig].
        apply elem_of_app. right. left. }
      rewrite Hnone in H. inversion H.
    + assert ((epoch, v) ∈ signed s (mid ++ e :: post)) as H.
      { apply elem_of_signed. exists e. split; [|exact Hsig].
        apply elem_of_app. right. left. }
      rewrite Hsome in H. apply list_elem_of_fmap in H as (v' & [= <-] & Hv).
      destruct (Hsound _ _ _ Hva) as [_ Hsub]. apply Hsub. exact Hv.
  - intros s calls Hsound Hsafe.
    apply (attestAll_NoDup calls s Hsound Hsafe).
  - intros s calls Hsorted. apply sorted_returnsToEvicted.
    + apply evictions_before.
    + rewrite evictions_epochs. exact Hsorted.
  - intros a rounds. apply keptRounds_NoDup.
  - intros epoch slot call indices i a. apply filterIndices_rounds.
Qed.

(** The loop that creates the attestations does not panic when every
    signature has its per-validator information. *)
Lemma createAttestations_total duty data cs vcs sizes sigs : forall i,
  (i + length sigs <= length cs)%nat ->
  (i + length sigs <= length vcs)%nat ->
  (i + length sigs <= length sizes)%nat ->
  exists atts (warns : list Event),
    createAttestations duty data cs vcs sizes i sigs = Some (atts, warns).
Proof.
  induction sigs as [|sig sigs IH]; intros i Hc Hv Hs; simpl in *.
  - eexists _, _. reflexivity.
  - destruct (IH (S i)) as (atts & warns & E); [lia..|]. rewrite E.
    destruct (sig =? zeroSig); [eexists _, _; reflexivity|].
    destruct (lookup_lt_is_Some_2 sizes i) as [size ->]; [lia|].
    destruct (lookup_lt_is_Some_2 vcs i) as [v ->]; [lia|].
    destruct (lookup_lt_is_Some_2 cs i) as [c ->]; [lia|].
    eexists _, _. reflexivity.
Qed.

(** It keeps the signatures that are not all zero, in order, and builds for
    each of them the attestation of its validator. *)
Lemma createAttestations_spec duty data cs vcs sizes sigs :
  forall i atts (warns : list Event),
  createAttestations duty data cs vcs sizes i sigs = Some (atts, warns) ->
  Signature <$> atts = filter (fun sig => sig <> zeroSig) sigs
  /\ forall k sig, sigs !! k = Some sig -> sig <> zeroSig ->
       exists size v c,
         sizes !! (i + k)%nat = Some size /\ vcs !! (i + k)%nat = Some v
         /\ cs !! (i + k)%nat = Some c
         /\ newAttestation duty data size v c sig ∈ atts.
Proof.
  induction sigs as [|sig sigs IH]; intros i atts warns; simpl.
  - intros [= <- <-]. split; [reflexivity|]. intros k sig Hk. discriminate.
  - destruct (Z.eqb_spec sig zeroSig) as [Hz|Hnz].
    + destruct (createAttestations _ _ _ _ _ _ _) as [[atts' warns']|] eqn:E;
        [|discriminate].
      intros [= <- <-]. destruct (IH _ _ _ E) as [Hsigs Hall].
      rewrite filter_cons_False by (intros H; apply H; exact Hz).
      split; [exact Hsigs|]. intros [|k] sig' Hk Hsig'; simpl in Hk.
      * injection Hk as <-. contradiction.
      * replace (i + S k)%nat with (S i + k)%nat by lia. eauto.
    + destruct (sizes !! i) as [size|] eqn:Es; [|discriminate].
      destruct (vcs !! i) as [v|] eqn:Ev; [|discriminate].
      destruct (cs !! i) as [c|] eqn:Ec; [|discriminate].
      destruct (createAttestations _ _ _ _ _ _ _) as [[atts' warns']|] eqn:E;
        [|discriminate].
      intros [= <- <-]. destruct (IH _ _ _ E) as [Hsigs Hall].
      rewrite filter_cons_True by exact Hnz.
      split; [rewrite fmap_cons, Hsigs; reflexivity|].
      intros [|k] sig' Hk Hsig'; simpl in Hk.
      * injection Hk as <-. rewrite Nat.add_0_r. exists size, v, c.
        repeat split; try assumption. left.
      * replace (i + S k)%nat with (S i + k)%nat by lia.
        destruct (Hall k sig' Hk Hsig') as (size' & v' & c' & ? & ? & ? & ?).
        exists size', v', c'. repeat split; try assumption. right. assumption.
Qed.

(** C10.  In the signing step, a validator whose signature is all zero gets
    no attestation, and the others get theirs: the attestations built are
    those of the non-zero signatures, in order, each with the bit, committee
    and data of its validator.  When every signature is zero the step makes
    no call to the submitter and returns an empty list and no error;
    otherwise it submits exactly the attestations built. *)
Theorem attest_skips_zero_signatures
    (env : Env) (duty : Duty) (validators : list Z) (accounts : list Account)
    (cs vcs sizes : list Z) (data : AttestationData) (sigs : list Z) :
  SignBeaconAttestations env accounts (dutySlot duty) cs
    (BeaconBlockRoot data) (Epoch (Source data)) (Root (Source data))
    (Epoch (Target data)) (Root (Target data)) = inr sigs ->
  (length sigs <= length cs)%nat ->
  (length sigs <= length vcs)%nat ->
  (length sigs <= length sizes)%nat ->
  let o := attest env duty validators accounts cs vcs sizes data in
  exists atts,
    Signature <$> atts = filter (fun sig => sig <> zeroSig) sigs
    /\ (forall k sig, sigs !! k = Some sig -> sig <> zeroSig ->
          exists size v c,
            sizes !! k = Some size /\ vcs !! k = Some v /\ cs !! k = Some c
            /\ newAttestation duty data size v c sig ∈ atts)
    /\ (Forall (fun sig => sig = zeroSig) sigs ->
          atts = [] /\ o.2 = Ok []
          /\ Forall (fun e => isSubmit e = false) o.1)
    /\ (~ Forall (fun sig => sig = zeroSig) sigs ->
          atts <> [] /\ (EvSubmit atts ∈ o.1)
          /\ (SubmitAttestations env atts = None -> o.2 = Ok atts)).
Proof.
  intros Hsign Hc Hv Hs o. subst o. unfold attest. rewrite Hsign.
  destruct (createAttestations_total duty data cs vcs sizes sigs 0)
    as (atts & warns & E); [simpl; lia..|].
  rewrite E. destruct (createAttestations_spec _ _ _ _ _ _ _ _ _ E)
    as [Hsigs Hall].
  pose proof (createAttestations_warnings _ _ _ _ _ _ _ _ _ E) as Hw.
  exists atts. split; [exact Hsigs|]. split; [exact Hall|].
  assert (atts = [] <-> Forall (fun sig => sig = zeroSig) sigs) as Hiff.
  { split.
    - intros ->. symmetry in Hsigs. simpl in Hsigs.
      apply Forall_forall. intros sig Hin.
      destruct (decide (sig = zeroSig)) as [|Hne]; [assumption|].
      assert (sig ∈ filter (fun sig => sig <> zeroSig) sigs) as Hf
        by (apply list_elem_of_filter; split; assumption).
      rewrite Hsigs in Hf. inversion Hf.
    - intros Hz. destruct atts as [|att atts]; [reflexivity|].
      assert (Signature att ∈ filter (fun sig => sig <> zeroSig) sigs) as Hf
        by (rewrite <- Hsigs; left).
      apply list_elem_of_filter in Hf as [Hne Hin].
      rewrite Forall_forall in Hz. apply Hz in Hin. contradiction. }
  split.
  - intros Hz. apply Hiff in Hz. subst atts. simpl.
    split; [reflexivity|]. split; [reflexivity|].
    constructor; [reflexivity|]. apply Forall_app. split; [|repeat constructor].
    eapply Forall_impl; [exact Hw|]. intros e ->. reflexivity.
  - intros Hnz. assert (atts <> []) as Hne by (rewrite Hiff; exact Hnz).
    split; [exact Hne|]. destruct atts as [|att atts]; [contradiction|].
    destruct (SubmitAttestations env (att :: atts)); simpl.
    + split; [|discriminate]. right. apply elem_of_app. right. left.
    + split; [|reflexivity]. right. apply elem_of_app. right. left.
Qed.

(** Indices that are all attested already are all filtered out. *)
Lemma filterIndices_all_attested epoch slot indices :
  forall i (a : gmap Z (gset Z)),
  (forall v, v ∈ indices -> v ∈ default ∅ (a !! epoch)) ->
  (filterIndices (Account := Account) epoch slot i indices a).1 = (a, []).
Proof.
  induction indices as [|index rest IH]; intros i a Hall; [reflexivity|].
  simpl. unfold hasAttested. rewrite bool_decide_eq_true_2 by (apply Hall; left).
  specialize (IH (S i) a). destruct (filterIndices _ _ _ _ _) as [[a' vs] tr].
  simpl in *. apply IH. intros v Hv. apply Hall. right. exact Hv.
Qed.

(** C6, amended.  When [Attest] returns a validation error (for
    instance for attestation data of another slot), every validator of the
    duty is in the attested set of the duty's epoch: those that passed the
    filter were put there before the data was fetched and are not taken out
    again.  A retry of the duty therefore filters all of them out and signs
    for none of them. *)
Theorem Attest_error_leaves_validators_attested
    (env : Env) (s : Service) (duty : Duty) (e : AttestError) :
  (Attest env s duty).2 = Err e ->
  validationError e = true ->
  let epoch := SlotToEpoch s (dutySlot duty) in
  let s1 := (Attest env s duty).1.1 in
  (forall v, v ∈ ValidatorIndices duty -> v ∈ attestedIn s1 epoch)
  /\ (forall env' : Env, providerSound env' ->
        (filterIndices (Account := Account) epoch (dutySlot duty) 0
           (ValidatorIndices duty) (ensureEpoch epoch (attested s1))).1.2 = []
        /\ signed s1 (Attest env' s1 duty).1.2 = []).
Proof.
  intros _ _ epoch s1.
  destruct (filterIndices (Account := Account) epoch (dutySlot duty) 0
              (ValidatorIndices duty) (ensureEpoch epoch (attested s)))
    as [[a vs] tr0] eqn:Hf.
  pose proof (filterIndices_spec epoch (dutySlot duty) (ValidatorIndices duty)
                0%nat (ensureEpoch epoch (attested s))) as Hspec.
  rewrite Hf in Hspec. simpl in Hspec.
  destruct Hspec as (_ & _ & _ & _ & Hall & _).
  destruct (Attest_shape env s duty a vs tr0 Hf) as (Hste & _ & Hatt & _).
  fold s1 in Hste, Hatt.
  assert (forall v, v ∈ ValidatorIndices duty -> v ∈ attestedIn s1 epoch)
    as Hin.
  { intros v Hv. unfold attestedIn. destruct Hatt as [->|[_ ->]].
    - apply Hall. exact Hv.
    - rewrite lookup_delete_ne by lia. apply Hall. exact Hv. }
  split; [exact Hin|]. intros env' Hsound.
  assert (SlotToEpoch s1 (dutySlot duty) = epoch) as Hep
    by (rewrite Hste; reflexivity).
  pose proof (filterIndices_all_attested epoch (dutySlot duty)
                (ValidatorIndices duty) 0%nat
                (ensureEpoch epoch (attested s1))) as Hnone.
  rewrite (surjective_pairing (filterIndices _ _ _ _ _).1) in Hnone.
  assert ((filterIndices (Account := Account) epoch (dutySlot duty) 0
             (ValidatorIndices duty) (ensureEpoch epoch (attested s1))).1.2
          = []) as Hvs.
  { assert (Hpre : forall v, v ∈ ValidatorIndices duty ->
                     v ∈ default ∅ (ensureEpoch epoch (attested s1) !! epoch)).
    { intros v Hv. rewrite ensureEpoch_lookup. apply Hin. exact Hv. }
    specialize (Hnone Hpre). injection Hnone as _ H. exact H. }
  split; [exact Hvs|].
  destruct (filterIndices (Account := Account) epoch (dutySlot duty) 0
              (ValidatorIndices duty) (ensureEpoch epoch (attested s1)))
    as [[a' vs'] tr'] eqn:Hf'.
  simpl in Hvs. subst vs'.
  pose proof (filterIndices_quiet epoch (dutySlot duty) (ValidatorIndices duty)
                0%nat (ensureEpoch epoch (attested s1))) as Hq.
  rewrite Hf' in Hq. simpl in Hq.
  rewrite <- Hep in Hf'.
  destruct (Attest_shape env' s1 duty a' [] tr' Hf')
    as (_ & _ & _ & rest & Htrace & Hsigned).
  rewrite Htrace, signed_app, (signed_quiet _ _ Hq). simpl.
  destruct Hsigned as [->|(va & Hva & ->)]; [reflexivity|].
  destruct (Hsound _ _ _ Hva) as [_ Hsub].
  destruct va.*1 as [|v vs'']; [reflexivity|].
  exfalso. specialize (Hsub v). assert (v ∈ []) as H by (apply Hsub; left).
  inversion H.
Qed.

End WithAccount.

(** The example provider answers with distinct indices among those asked. *)
Lemma node_sound data sigs : providerSound (node data sigs).
Proof.
  intros epoch indices accounts [= <-].
  assert (forall l : list Z, ((fun i : Z => (i, "account"%string)) <$> l).*1 = l)
    as Hfst.
  { induction l as [|x l IH]; [reflexivity|]. rewrite !fmap_cons, IH.
    reflexivity. }
  rewrite Hfst. split; [apply NoDup_remove_dups|].
  intros v Hv. apply (proj1 (elem_of_remove_dups _ _)). exact Hv.
Qed.

Lemma Attest_validates_attestation_data_witness :
  (exists e, (Attest (node (dataFor 99) [5; 9]) service32 duty100).2 = Err e
             /\ validationError e = true
             /\ quiet (Attest (node (dataFor 99) [5; 9]) service32 duty100).1.2)
  /\ (forall e, (Attest (node (dataFor 100) [5; 9]) service32 duty100).2 = Err e ->
                validationError e = false).
Proof.
  split.
  - apply (Attest_validates_attestation_data
             (node (dataFor 99) [5; 9]) service32 duty100 3 (dataFor 99)).
    + simpl. lia.
    + reflexivity.
    + reflexivity.
    + left. simpl. lia.
  - apply (Attest_validates_attestation_data
             (node (dataFor 100) [5; 9]) service32 duty100 3 (dataFor 100)).
    + simpl. lia.
    + reflexivity.
    + reflexivity.
    + unfold invalidData. simpl.
      change (100 / 32) with 3. lia.
Defined.

(** C4 as stated fails when the duties return to an epoch: after duties of
    epochs 3 and 5, the second of which deletes the attested set of epoch 3
    once it has attested, a duty of epoch 3 signs again for the validators 7
    and 8 that the first duty signed for. *)
Lemma Attest_signs_again_after_eviction :
  let calls := [(node (dataFor 100) [5; 9], dutyAt 100);
                (node (dataFor 165) [5; 9], dutyAt 165);
                (node (dataFor 100) [5; 9], dutyAt 100)] in
  Forall (fun c => providerSound c.1) calls
  /\ evictions service32 calls = [(3, Some 1); (5, Some 3); (3, Some 1)]
  /\ signed service32 (attestAll service32 calls).2
     = [(3, 7); (3, 8); (5, 7); (5, 8); (3, 7); (3, 8)]
  /\ ~ NoDup (signed service32 (attestAll service32 calls).2).
Proof.
  intros calls.
  assert (signed service32 (attestAll service32 calls).2
          = [(3, 7); (3, 8); (5, 7); (5, 8); (3, 7); (3, 8)]) as Heq
    by (vm_compute; reflexivity).
  split; [repeat (apply List.Forall_cons; [apply node_sound|]);
          apply List.Forall_nil|].
  split; [vm_compute; reflexivity|]. split; [exact Heq|].
  rewrite Heq. intros Hnd. apply NoDup_cons in Hnd as [Hni _].
  apply Hni. do 3 right. left.
Qed.

Lemma Attest_signs_once_per_epoch_witness :
  (3 = SlotToEpoch service32 (dutySlot duty100)
   /\ (7 ∉ attestedIn service32 3)
   /\ (EvAttested 3 7 ∈
        [EvAttested (Account := string) 3 7; EvAttested 3 8;
         EvAttestationData 100 3; EvValidatingAccounts 3 [7; 8]])
   /\ (7 ∈ attestedIn
              (Attest (node (dataFor 100) [5; 9]) service32 duty100).1.1 3))
  /\ NoDup (signed service32
              (attestAll service32
                 [(node (dataFor 100) [5; 9], dutyAt 100);
                  (node (dataFor 130) [5; 9], dutyAt 130);
                  (node (dataFor 100) [5; 9], dutyAt 100)]).2)
  /\ NoDup (signed service32
              (attestAll service32
                 [(node (dataFor 100) [5; 9], dutyAt 100);
                  (node (dataFor 99) [5; 9], dutyAt 165);
                  (node (dataFor 100) [5; 9], dutyAt 100)]).2)
  /\ returnsToEvicted
       (evictions service32
          [(node (dataFor 100) [5; 9], dutyAt 100);
           (node (dataFor 130) [5; 9], dutyAt 130);
           (node (dataFor 165) [5; 9], dutyAt 165)]) = false.
Proof.
  destruct (@Attest_signs_once_per_epoch string) as (Hone & Hall & Hsort & _).
  split; [|split; [|split]].
  - eapply (Hone (node (dataFor 100) [5; 9]) service32 duty100 _
                 (EvSign [7; 8] ["account"; "account"]%string 100 [3; 3]
                         17 2 18 3 19)).
    + apply node_sound.
    + vm_compute. reflexivity.
    + left.
  - apply Hall.
    + repeat (apply List.Forall_cons; [apply node_sound|]).
      apply List.Forall_nil.
    + vm_compute. reflexivity.
  - apply Hall.
    + repeat (apply List.Forall_cons; [apply node_sound|]).
      apply List.Forall_nil.
    + vm_compute. reflexivity.
  - apply Hsort. change (StronglySorted Z.le [3; 4; 5]).
    repeat (apply SSorted_cons;
            [|repeat (apply List.Forall_cons; [lia|]); apply List.Forall_nil]).
    apply SSorted_nil.
Defined.

Lemma attest_skips_zero_signatures_witness :
  exists atts,
    Signature <$> atts = [9]
    /\ (attest (node (dataFor 100) [0; 9]) duty100 [7; 8]
               ["account"; "account"]%string [3; 3] [0; 1] [4; 4]
               (dataFor 100)).2 = Ok atts.
Proof.
  destruct (attest_skips_zero_signatures
              (node (dataFor 100) [0; 9]) duty100 [7; 8]
              ["account"; "account"]%string [3; 3] [0; 1] [4; 4]
              (dataFor 100) [0; 9])
    as (atts & Hsigs & _ & _ & Hsome).
  - reflexivity.
  - simpl. lia.
  - simpl. lia.
  - simpl. lia.
  - exists atts. split; [exact Hsigs|].
    apply Hsome; [|reflexivity].
    intros Hz. inversion Hz as [|? ? _ Hz']. inversion Hz' as [|? ? H9 _].
    discriminate H9.
Defined.

(** C6 as stated fails: a duty of validators 7 and 8
    aborted because the beacon node answered with data of slot 99 leaves
    validator 7 in the attested set of epoch 3, where it was not before, and
    a retry with correct data signs for nobody, where a first attempt with
    correct data signs for 7. *)
Lemma Attest_slot_mismatch_marks_validators :
  let o := Attest (node (dataFor 99) [5; 9]) service32 duty100 in
  o.2 = Err (ErrSlotMismatch 100 99)
  /\ (7 ∈ ValidatorIndices duty100)
  /\ (7 ∉ attestedIn service32 3)
  /\ (7 ∈ attestedIn o.1.1 3)
  /\ attested o.1.1 <> attested service32
  /\ ((3, 7) ∈ signed service32
                (Attest (node (dataFor 100) [5; 9]) service32 duty100).1.2)
  /\ signed o.1.1 (Attest (node (dataFor 100) [5; 9]) o.1.1 duty100).1.2 = [].
Proof.
  cbv zeta.
  split; [vm_compute; reflexivity|].
  split; [apply (bool_decide_unpack _); vm_compute; exact I|].
  split; [apply (bool_decide_unpack _); vm_compute; exact I|].
  split; [apply (bool_decide_unpack _); vm_compute; exact I|].
  split; [apply (bool_decide_unpack _); vm_compute; exact I|].
  split; [apply (bool_decide_unpack _); vm_compute; exact I|].
  vm_compute; reflexivity.
Qed.

Lemma Attest_error_leaves_validators_attested_witness :
  (forall v, v ∈ ValidatorIndices duty100 ->
             v ∈ attestedIn
                   (Attest (node (dataFor 99) [5; 9]) service32 duty100).1.1 3)
  /\ signed (Attest (node (dataFor 99) [5; 9]) service32 duty100).1.1
            (Attest (node (dataFor 100) [5; 9])
                    (Attest (node (dataFor 99) [5; 9]) service32 duty100).1.1
                    duty100).1.2 = [].
Proof.
  destruct (Attest_error_leaves_validators_attested
              (node (dataFor 99) [5; 9]) service32 duty100
              (ErrSlotMismatch 100 99)) as [Hin Hretry].
  - vm_compute. reflexivity.
  - reflexivity.
  - split; [exact Hin|].
    apply (Hretry (node (dataFor 100) [5; 9])). apply node_sound.
Defined.

End AttesterFacts.

(** ** The relay registrations *)

Module BlockRelayFacts.
Import BlockRelay.

(** The signing loop ends without a panic when every account has a key. *)
Lemma signRegistrations_total s feeRecipients clock accounts :
  Forall (fun a : Z * Account => publicKeyOf a.2 <> None) accounts ->
  forall i pubkey,
  exists regs tr,
    signRegistrations s feeRecipients clock i pubkey accounts = (tr, Some regs)
    /\ submissions tr = [] /\ failures tr = [].
Proof.
  induction 1 as [|[index account] rest Hkey _ IH]; intros i pubkey; simpl.
  - eexists _, _. repeat split; reflexivity.
  - simpl in Hkey. destruct (publicKeyOf account) as [key|]; [|contradiction].
    destruct (IH (S i) (copyInto pubkey key)) as (regs & tr & -> & Hs & Hf).
    destruct (feeRecipients !! index) as [feeRecipient|].
    + destruct (SignValidatorRegistration s account _) as [cause|sig];
        eexists _, _; repeat split; assumption.
    + eexists _, _. repeat split; assumption.
Qed.

Lemma submissions_app tr1 tr2 :
  submissions (tr1 ++ tr2) = submissions tr1 ++ submissions tr2.
Proof. apply omap_app. Qed.

Lemma failures_app tr1 tr2 :
  failures (tr1 ++ tr2) = failures tr1 ++ failures tr2.
Proof. apply omap_app. Qed.

Lemma submitAll_cons regs submitter submitters :
  submitAll regs (submitter :: submitters)
  = submitTo regs submitter ++ submitAll regs submitters.
Proof. reflexivity. Qed.

(** Every relay is submitted to once, with the same registrations. *)
Lemma submissions_submitAll regs submitters :
  submissions (submitAll regs submitters)
  = (fun submitter => (Address submitter, regs)) <$> submitters.
Proof.
  induction submitters as [|submitter rest IH]; [reflexivity|].
  rewrite submitAll_cons, submissions_app, IH, fmap_cons. unfold submitTo.
  destruct (SubmitValidatorRegistrationsTo submitter regs); reflexivity.
Qed.

(** The failure of a relay is logged. *)
Lemma failures_submitAll regs submitters submitter cause :
  submitter ∈ submitters ->
  SubmitValidatorRegistrationsTo submitter regs = Some cause ->
  (Address submitter, cause) ∈ failures (submitAll regs submitters).
Proof.
  intros Hin Hfail. induction submitters as [|first rest IH];
    [inversion Hin|].
  rewrite submitAll_cons, failures_app. apply elem_of_app.
  apply elem_of_cons in Hin as [<-|Hin].
  - left. unfold submitTo. rewrite Hfail. left.
  - right. apply IH. exact Hin.
Qed.

(** C7.  [SubmitValidatorRegistrations] is best effort towards the relays:
    it submits the signed registrations to every configured submitter, once
    each, and returns no error whatever the submitters answer; the failure of
    a submitter is logged and goes no further. *)
Theorem SubmitValidatorRegistrations_best_effort
    (s : Service) (clock : nat -> Z) (accounts : list (Z * Account))
    (feeRecipients : gmap Z Z) :
  Forall (fun a : Z * Account => publicKeyOf a.2 <> None) accounts ->
  let o := SubmitValidatorRegistrations s clock accounts feeRecipients in
  o.2 = Returned None
  /\ exists regs,
       submissions o.1
         ≡ₚ (fun submitter => (Address submitter, regs))
              <$> validatorRegistrationsSubmitters s
       /\ forall submitter cause,
            submitter ∈ validatorRegistrationsSubmitters s ->
            SubmitValidatorRegistrationsTo submitter regs = Some cause ->
            (Address submitter, cause) ∈ failures o.1.
Proof.
  intros Hkeys o. subst o. unfold SubmitValidatorRegistrations.
  destruct (signRegistrations_total s feeRecipients clock accounts Hkeys
              0%nat zeroPubKey) as (regs & tr & -> & Hs & Hf).
  simpl. split; [reflexivity|]. exists regs. split.
  - rewrite !submissions_app, Hs, submissions_submitAll. simpl.
    rewrite app_nil_r. reflexivity.
  - intros submitter cause Hin Hfail.
    rewrite !failures_app, Hf. simpl. apply elem_of_app. left.
    apply failures_submitAll; assumption.
Qed.

Lemma SubmitValidatorRegistrations_best_effort_witness :
  (SubmitValidatorRegistrations refusingService (fun _ => 1700000000400000000)
     [(7, KeyAccount [1; 2; 3])] {[ 7 := 99 ]}).2 = Returned None
  /\ (SubmitValidatorRegistrations relayService (fun _ => 1700000000400000000)
        [(7, KeyAccount [1; 2; 3])] {[ 7 := 99 ]}).2 = Returned None.
Proof.
  split.
  - apply (SubmitValidatorRegistrations_best_effort refusingService).
    apply List.Forall_cons; [simpl; discriminate|apply List.Forall_nil].
  - apply (SubmitValidatorRegistrations_best_effort relayService).
    apply List.Forall_cons; [simpl; discriminate|apply List.Forall_nil].
Defined.

End BlockRelayFacts.

(** ** The scorer *)

Module ScorerFacts.
Import Scorer.

Local Open Scope Q_scope.

(** With the example factor the steps return, for every case of
    [TestScore], the score the case expects. *)
Lemma passingFactor_passes :
  Forall (fun t => passes passingFactor t = true) tests.
Proof.
  repeat (apply List.Forall_cons; [vm_compute; reflexivity|]).
  apply List.Forall_nil.
Qed.

(** So does every bound on the distance from 3 to 10, and two of these
    factors differ: the test leaves the factor open where it has no case. *)
Lemma TestScore_leaves_factor_open (bound : Z) :
  (3 <= bound <= 10)%Z ->
  Forall (fun t => passes (passingFactorUpTo bound) t = true) tests
  /\ ~ passingFactorUpTo 3 true true 4 == passingFactorUpTo 10 true true 4.
Proof.
  intros Hb. split; [|vm_compute; discriminate].
  assert (bound = 3 \/ bound = 4 \/ bound = 5 \/ bound = 6 \/ bound = 7
          \/ bound = 8 \/ bound = 9 \/ bound = 10)%Z as Hcases by lia.
  repeat (destruct Hcases as [->|Hcases];
          [repeat (apply List.Forall_cons; [vm_compute; reflexivity|]);
           apply List.Forall_nil|]).
  subst bound.
  repeat (apply List.Forall_cons; [vm_compute; reflexivity|]).
  apply List.Forall_nil.
Qed.

(** With the table of the spec's step 4, eight of the cases fail. *)
Lemma specFactor_fails_TestScore :
  filter (fun t => passes specFactor t = false) tests
  = [ testDistance1IncorrectHead; testDistance2; testDistance5; testDistance6;
      testOverlappingAttestations; testParentMissing; testPriorVotes;
      testTargetIncorrect ].
Proof. vm_compute. reflexivity. Qed.





(** A bit that is among the prior votes is not new, set or not. *)
Lemma newVotes_prior_bit bits seen prior b x y :
  bitAt prior b = true ->
  newVotes (<[b := x]> bits) seen prior = newVotes (<[b := y]> bits) seen prior.
Proof.
  intros Hb. unfold newVotes. rewrite !length_insert.
  apply list_fmap_ext. intros k i Hi.
  destruct (decide (i = b)) as [->|Hne].
  - rewrite Hb. simpl. rewrite !andb_false_r. reflexivity.
  - unfold bitAt. rewrite !list_lookup_insert_ne by congruence. reflexivity.
Qed.

Lemma scoreAttestation_prior_bit factor s blockSlot parentRoot seen att b :
  bitAt (priorVotes s parentRoot (Attester.Slot (Attester.Data att))
                    (Attester.Index (Attester.Data att))) b = true ->
  scoreAttestation factor s blockSlot parentRoot seen (setBit att b true)
  = scoreAttestation factor s blockSlot parentRoot seen (setBit att b false).
Proof.
  intros Hb. unfold scoreAttestation, setBit. simpl.
  rewrite (newVotes_prior_bit _ _ _ b true false Hb). reflexivity.
Qed.

(** Attestations that score alike can stand for each other in a body. *)
Lemma scoreAttestations_replace factor s blockSlot parentRoot a1 a2 post :
  (forall seen, scoreAttestation factor s blockSlot parentRoot seen a1
                = scoreAttestation factor s blockSlot parentRoot seen a2) ->
  forall pre seen score,
  scoreAttestations factor s blockSlot parentRoot seen score (pre ++ a1 :: post)
  = scoreAttestations factor s blockSlot parentRoot seen score
                      (pre ++ a2 :: post).
Proof.
  intros Heq pre. induction pre as [|a pre IH]; intros seen score; simpl.
  - rewrite Heq. reflexivity.
  - destruct (scoreAttestation _ _ _ _ _ a) as [reward seen']. apply IH.
Qed.

(** The walks do not see the votes of a block that is not on the chain. *)
Lemma ancestors_withVotes s r pb v fuel : forall x,
  priorBlocksVotes s !! r = Some pb ->
  r ∉ (ancestors (priorBlocksVotes s) fuel x).*1 ->
  ancestors (priorBlocksVotes (withVotes s r pb v)) fuel x
  = ancestors (priorBlocksVotes s) fuel x.
Proof.
  induction fuel as [|fuel IH]; intros x Hr Hnot; [reflexivity|].
  simpl in *. destruct (decide (r = x)) as [->|Hne].
  - rewrite Hr in Hnot. exfalso. apply Hnot. left.
  - rewrite lookup_insert_ne by exact Hne.
    destruct (priorBlocksVotes s !! x) as [pbx|]; [|reflexivity].
    f_equal. apply IH; [exact Hr|]. intros Hin. apply Hnot. right. exact Hin.
Qed.

Lemma slotOf_withVotes s r pb v x :
  priorBlocksVotes s !! r = Some pb ->
  slotOf (withVotes s r pb v) x = slotOf s x.
Proof.
  intros Hr. unfold slotOf. simpl.
  destruct (blockRootToSlotCache s !! x); [reflexivity|].
  destruct (decide (r = x)) as [->|Hne].
  - rewrite lookup_insert_eq, Hr. reflexivity.
  - rewrite lookup_insert_ne by exact Hne. reflexivity.
Qed.

Lemma rootAtSlot_withVotes s r pb v sl fuel : forall x,
  priorBlocksVotes s !! r = Some pb ->
  rootAtSlot (withVotes s r pb v) fuel x sl = rootAtSlot s fuel x sl.
Proof.
  induction fuel as [|fuel IH]; intros x Hr; simpl;
    rewrite (slotOf_withVotes s r pb v x Hr).
  - reflexivity.
  - destruct (slotOf s x) as [rs|]; [|reflexivity].
    destruct (rs <=? sl)%Z; [reflexivity|].
    destruct (decide (r = x)) as [->|Hne].
    + rewrite lookup_insert_eq, Hr. simpl. apply IH. exact Hr.
    + rewrite lookup_insert_ne by exact Hne.
      destruct (priorBlocksVotes s !! x); [apply IH; exact Hr|reflexivity].
Qed.

Lemma fuelOf_withVotes s r pb v :
  priorBlocksVotes s !! r = Some pb -> fuelOf (withVotes s r pb v) = fuelOf s.
Proof.
  intros Hr. unfold fuelOf. simpl. apply map_size_insert_Some. eauto.
Qed.

Lemma scoreAttestation_withVotes factor s r pb v blockSlot parentRoot seen att :
  priorBlocksVotes s !! r = Some pb ->
  r ∉ (ancestors (priorBlocksVotes s) (fuelOf s) parentRoot).*1 ->
  scoreAttestation factor (withVotes s r pb v) blockSlot parentRoot seen att
  = scoreAttestation factor s blockSlot parentRoot seen att.
Proof.
  intros Hr Hnot. unfold scoreAttestation, headCorrect, targetCorrect, priorVotes.
  rewrite (fuelOf_withVotes s r pb v Hr).
  rewrite !(rootAtSlot_withVotes s r pb v _ _ _ Hr).
  rewrite (ancestors_withVotes s r pb v _ _ Hr Hnot). reflexivity.
Qed.

Lemma scoreAttestations_withVotes factor s r pb v blockSlot parentRoot atts :
  priorBlocksVotes s !! r = Some pb ->
  r ∉ (ancestors (priorBlocksVotes s) (fuelOf s) parentRoot).*1 ->
  forall seen score,
  scoreAttestations factor (withVotes s r pb v) blockSlot parentRoot seen score
                    atts
  = scoreAttestations factor s blockSlot parentRoot seen score atts.
Proof.
  intros Hr Hnot. induction atts as [|att atts IH]; intros seen score; simpl;
    [reflexivity|].
  rewrite (scoreAttestation_withVotes factor s r pb v _ _ _ _ Hr Hnot).
  destruct (scoreAttestation _ _ _ _ _ att) as [reward seen']. apply IH.
Qed.

(** C3.  Only new bits earn credit.  A bit that a prior block on the chain
    from the proposal's parent has for the slot and committee of an
    attestation adds nothing: the proposal scores the same with that bit set
    in the attestation as with it cleared.  The votes of a prior block that
    is not on that chain are ignored: the proposal scores the same whatever
    they are, so they take no credit away. *)
Theorem only_new_bits_score
    (s : Service) (version : DataVersion) (block : BlindedBeaconBlock) :
  (forall pre att post b,
      bitAt (priorVotes s (ParentRoot block)
               (Attester.Slot (Attester.Data att))
               (Attester.Index (Attester.Data att))) b = true ->
      scoreBlindedProposal s
        (proposalOf version
           (withAttestations block (pre ++ setBit att b true :: post)))
      = scoreBlindedProposal s
          (proposalOf version
             (withAttestations block (pre ++ setBit att b false :: post))))
  /\ (forall r pb v,
        priorBlocksVotes s !! r = Some pb ->
        r ∉ (ancestors (priorBlocksVotes s) (fuelOf s) (ParentRoot block)).*1 ->
        scoreBlindedProposal (withVotes s r pb v) (proposalOf version block)
        = scoreBlindedProposal s (proposalOf version block)).
Proof.
  split.
  - intros pre att post b Hb.
    assert (scoreBlock specFactor s
              (withAttestations block (pre ++ setBit att b true :: post))
            = scoreBlock specFactor s
                (withAttestations block (pre ++ setBit att b false :: post)))
      as Hblock.
    { unfold scoreBlock, syncScore, withAttestations. simpl.
      rewrite (scoreAttestations_replace specFactor s (Slot block)
                 (ParentRoot block) (setBit att b true) (setBit att b false)
                 post).
      - reflexivity.
      - intros seen. apply scoreAttestation_prior_bit. exact Hb. }
    unfold scoreBlindedProposal, scoreBlindedProposalWith, proposalOf.
    destruct version; simpl; try reflexivity; exact Hblock.
  - intros r pb v Hr Hnot.
    assert (scoreBlock specFactor (withVotes s r pb v) block
            = scoreBlock specFactor s block) as Hblock.
    { unfold scoreBlock, syncScore. simpl.
      rewrite (scoreAttestations_withVotes specFactor s r pb v _ _ _ Hr Hnot).
      reflexivity. }
    unfold scoreBlindedProposal, scoreBlindedProposalWith, proposalOf.
    destruct version; simpl; try reflexivity; exact Hblock.
Qed.

Lemma only_new_bits_score_witness :
  scoreBlindedProposal (serviceWith priorBlocksPriorVotes)
    (proposalOf DataVersionBellatrix
       (withAttestations blockPriorVotes
          ([] ++ setBit attestationPriorVotes 0 true :: [])))
  = scoreBlindedProposal (serviceWith priorBlocksPriorVotes)
      (proposalOf DataVersionBellatrix
         (withAttestations blockPriorVotes
            ([] ++ setBit attestationPriorVotes 0 false :: [])))
  /\ scoreBlindedProposal
       (withVotes (serviceWith priorBlocksPriorVotes) (repeatedRoot 0x42)
                  orphanedPriorVotes ∅)
       (proposalOf DataVersionBellatrix blockPriorVotes)
     = scoreBlindedProposal (serviceWith priorBlocksPriorVotes)
         (proposalOf DataVersionBellatrix blockPriorVotes).
Proof.
  destruct (only_new_bits_score (serviceWith priorBlocksPriorVotes)
              DataVersionBellatrix blockPriorVotes) as [Hbit Horphan].
  split.
  - apply Hbit. vm_compute. reflexivity.
  - apply Horphan.
    + vm_compute. reflexivity.
    + apply (bool_decide_unpack _). vm_compute. exact I.
Defined.

End ScorerFacts.

(** ** More on the attester *)

Module AttesterMore.
Import Attester AttesterFacts.

Section WithAccount.
Context {Account : Type}.
Abbreviation Env := (Env Account).
Abbreviation Event := (Event Account).

(** Every way through [Attest], one goal each. *)
Ltac attest_cases :=
  unfold Attest;
  match goal with
  | |- context [filterIndices ?e ?sl ?i ?l ?a] =>
      destruct (filterIndices (Account := Account) e sl i l a)
        as [[a' vs] tr0] eqn:Hf
  end;
  cbv zeta;
  destruct (CommitteeIndices _ !! 0%nat) as [c0|] eqn:Hc0;
  [destruct (AttestationDataOf _ _ _) as [cause|data] eqn:Hdata;
   [|destruct (Slot _ =? _) eqn:Hslot; cbn [negb];
     [destruct (Epoch (Target _) <? Epoch (Source _)) eqn:Hst;
      [|destruct (slotsPerEpoch _ =? 0) eqn:Hspe;
        [|destruct (_ / _ <? Epoch (Target _)) eqn:Htc;
          [|destruct (ValidatingAccountsForEpochByIndex _ _ _)
              as [cause|va] eqn:Hva;
            [|destruct (perValidator _ _ _) as [[[cs vcs] sizes]|] eqn:Hper;
              [destruct (attest _ _ _ _ _ _ _ _) as [tr3 r] eqn:Hattest;
               destruct r as [atts|e|];
               [destruct (1 <? _) eqn:Hep| |]|]]]]]|]]|].

(** The attested map a call leaves: the one of the filter loop, less the
    entry of two epochs before when the call returns attestations and the
    epoch of the duty is above 1. *)
Lemma Attest_attested_eq (env : Env) (s : Service) (duty : Duty) :
  let epoch := SlotToEpoch s (dutySlot duty) in
  let a := (filterIndices (Account := Account) epoch (dutySlot duty) 0
              (ValidatorIndices duty) (ensureEpoch epoch (attested s))).1.1 in
  attested (Attest env s duty).1.1
  = match (Attest env s duty).2 with
    | Ok _ => if 1 <? epoch then delete (epoch - 2) a else a
    | _ => a
    end.
Proof.
  intros epoch a. subst a epoch. attest_cases; reflexivity.
Qed.

Lemma ensureEpoch_lookup_ne epoch (a : gmap Z (gset Z)) e :
  e <> epoch -> ensureEpoch epoch a !! e = a !! e.
Proof.
  intros Hne. unfold ensureEpoch. destruct (a !! epoch); [reflexivity|].
  apply lookup_insert_ne. congruence.
Qed.

(** X1.  What a call of [Attest] does to the attested map, whatever it
    returns: the set of the duty's epoch gains exactly the validators of the
    duty; the entry of two epochs before is deleted when the call returns
    attestations and the epoch is above 1, and is left alone otherwise; no
    other epoch is touched. *)
Theorem Attest_attested_frame (env : Env) (s : Service) (duty : Duty) :
  let epoch := SlotToEpoch s (dutySlot duty) in
  let o := Attest env s duty in
  attestedIn o.1.1 epoch
  = list_to_set (ValidatorIndices duty) ∪ attestedIn s epoch
  /\ (forall e, e <> epoch -> e <> epoch - 2 ->
        attested o.1.1 !! e = attested s !! e)
  /\ (forall atts, o.2 = Ok atts -> 1 < epoch ->
        attested o.1.1 !! (epoch - 2) = None)
  /\ ((forall atts, o.2 <> Ok atts) \/ epoch <= 1 ->
        attested o.1.1 !! (epoch - 2) = attested s !! (epoch - 2)).
Proof.
  intros epoch o.
  pose proof (Attest_attested_eq env s duty) as Heq. cbv zeta in Heq.
  fold epoch in Heq. fold o in Heq.
  pose proof (filterIndices_spec (Account := Account) epoch (dutySlot duty)
                (ValidatorIndices duty) 0%nat
                (ensureEpoch epoch (attested s))) as Hspec.
  cbv zeta in Hspec.
  destruct (filterIndices (Account := Account) epoch (dutySlot duty) 0
              (ValidatorIndices duty) (ensureEpoch epoch (attested s)))
    as [[a vs] tr0]. simpl in Hspec, Heq.
  destruct Hspec as (Hset & Hoth & _ & Hvs & Hall & _).
  rewrite ensureEpoch_lookup in Hset.
  assert (default ∅ (a !! epoch)
          = list_to_set (ValidatorIndices duty) ∪ attestedIn s epoch) as Hset'.
  { unfold attestedIn. apply set_eq. intros v. split.
    - rewrite Hset. intros Hv. apply elem_of_union in Hv as [Hv|Hv].
      + apply elem_of_union_l. apply elem_of_list_to_set.
        apply elem_of_list_to_set in Hv. apply Hvs in Hv. tauto.
      + apply elem_of_union_r. exact Hv.
    - intros Hv. apply elem_of_union in Hv as [Hv|Hv].
      + apply Hall. apply elem_of_list_to_set in Hv. exact Hv.
      + rewrite Hset. apply elem_of_union_r. exact Hv. }
  assert (forall e, e <> epoch -> a !! e = attested s !! e) as Hoth'.
  { intros e He. rewrite Hoth by exact He. apply ensureEpoch_lookup_ne.
    exact He. }
  split; [|split; [|split]].
  - unfold attestedIn at 1. rewrite Heq.
    destruct o.2; [destruct (1 <? epoch)|..]; try exact Hset'.
    rewrite lookup_delete_ne by lia. exact Hset'.
  - intros e He He2. rewrite Heq.
    destruct o.2; [destruct (1 <? epoch)|..]; try (apply Hoth'; exact He).
    rewrite lookup_delete_ne by congruence. apply Hoth'. exact He.
  - intros atts Hok Hep. rewrite Heq, Hok.
    apply Z.ltb_lt in Hep. rewrite Hep. apply lookup_delete_eq.
  - intros Hno. rewrite Heq.
    assert (epoch - 2 <> epoch) as Hne by lia.
    destruct o.2 as [atts| |] eqn:Er; try (apply Hoth'; exact Hne).
    destruct Hno as [Hno|Hle]; [exfalso; apply (Hno atts); reflexivity|].
    destruct (Z.ltb_spec 1 epoch) as [|_]; [lia|]. apply Hoth'. exact Hne.
Qed.

Lemma completions_app (tr1 tr2 : list Event) :
  completions (tr1 ++ tr2) = completions tr1 ++ completions tr2.
Proof. apply omap_app. Qed.

Lemma filterIndices_completions epoch slot indices :
  forall i (a : gmap Z (gset Z)),
  completions (filterIndices (Account := Account) epoch slot i indices a).2 = [].
Proof.
  induction indices as [|index rest IH]; intros i a; [reflexivity|].
  simpl. destruct (hasAttested a epoch index).
  - specialize (IH (S i) a).
    destruct (filterIndices epoch slot (S i) rest a) as [[a' vs] tr]. exact IH.
  - specialize (IH (S i) (markAttested epoch index a)).
    destruct (filterIndices epoch slot (S i) rest _) as [[a' vs] tr]. exact IH.
Qed.

Lemma warnings_completions (warns : list Event) :
  Forall (fun e => e = EvNoSignature) warns -> completions warns = [].
Proof. induction 1 as [|e tr -> _ IH]; [reflexivity|exact IH]. Qed.

Lemma attest_completions (env : Env) duty vals accs cs vcs sizes data :
  completions (attest env duty vals accs cs vcs sizes data).1 = [].
Proof.
  unfold attest.
  destruct (SignBeaconAttestations _ _ _ _ _ _ _ _ _) as [cause|sigs];
    [reflexivity|].
  destruct (createAttestations _ _ _ _ _ _ _) as [[atts warns]|] eqn:E;
    [|reflexivity].
  apply createAttestations_warnings, warnings_completions in E.
  destruct atts as [|att atts]; [|destruct (SubmitAttestations env _)];
    simpl; change (omap completion (warns ++ ?l)) with (completions (warns ++ l));
    rewrite completions_app, E; reflexivity.
Qed.

(** X2.  What [Attest] tells the monitor.  A call that returns an error
    reports once, "failed", with the number of validators that passed the
    filter.  A call that returns attestations reports them as "succeeded",
    preceded, when they are fewer than the validators that passed the filter,
    by a "failed" report of the difference.  A call that panics has reported
    nothing. *)
Theorem Attest_reports_completion (env : Env) (s : Service) (duty : Duty) :
  let epoch := SlotToEpoch s (dutySlot duty) in
  let n := Z.of_nat (length (filterIndices (Account := Account) epoch
                               (dutySlot duty) 0 (ValidatorIndices duty)
                               (ensureEpoch epoch (attested s))).1.2) in
  let o := Attest env s duty in
  match o.2 with
  | Err _ => completions o.1.2 = [(n, "failed"%string)]
  | Ok atts =>
      let m := Z.of_nat (length atts) in
      completions o.1.2
      = (if m <? n then [(n - m, "failed"%string)] else [])
          ++ [(m, "succeeded"%string)]
  | Panic => completions o.1.2 = []
  end.
Proof.
  intros epoch n o. subst o n epoch.
  pose proof (filterIndices_completions (SlotToEpoch s (dutySlot duty))
                (dutySlot duty) (ValidatorIndices duty) 0%nat
                (ensureEpoch (SlotToEpoch s (dutySlot duty)) (attested s)))
    as Htr0.
  attest_cases; simpl in Htr0 |- *;
    try match goal with
        | H : attest ?e ?d ?v ?ac ?c ?vc ?sz ?dt = (_, _) |- _ =>
            pose proof (attest_completions e d v ac c vc sz dt) as Htr3;
            rewrite H in Htr3; simpl in Htr3
        end;
    rewrite ?completions_app, ?Htr0, ?Htr3; simpl;
    try reflexivity;
    destruct (Z.of_nat (length atts) <? Z.of_nat (length vs)); reflexivity.
Qed.

Lemma filterIndices_no_calls epoch slot indices :
  forall i (a : gmap Z (gset Z)),
  Forall (fun e => isCall e = false)
         (filterIndices (Account := Account) epoch slot i indices a).2.
Proof.
  induction indices as [|index rest IH]; intros i a; simpl; [constructor|].
  destruct (hasAttested a epoch index).
  - specialize (IH (S i) a).
    destruct (filterIndices epoch slot (S i) rest a) as [[a' vs] tr].
    constructor; [reflexivity|exact IH].
  - specialize (IH (S i) (markAttested epoch index a)).
    destruct (filterIndices epoch slot (S i) rest _) as [[a' vs] tr].
    constructor; [reflexivity|exact IH].
Qed.

(** Whatever a call returns, the validators of its duty are attested
    afterwards. *)
Lemma Attest_validators_attested (env : Env) (s : Service) (duty : Duty) v :
  v ∈ ValidatorIndices duty ->
  v ∈ attestedIn (Attest env s duty).1.1 (SlotToEpoch s (dutySlot duty)).
Proof.
  intros Hv. set (epoch := SlotToEpoch s (dutySlot duty)).
  pose proof (Attest_attested_eq env s duty) as Heq. cbv zeta in Heq.
  fold epoch in Heq.
  pose proof (filterIndices_spec (Account := Account) epoch (dutySlot duty)
                (ValidatorIndices duty) 0%nat
                (ensureEpoch epoch (attested s))) as Hspec.
  cbv zeta in Hspec. destruct Hspec as (_ & _ & _ & _ & Hall & _).
  unfold attestedIn. rewrite Heq.
  destruct (Attest env s duty).2; [destruct (1 <? epoch)|..];
    try (apply Hall; exact Hv).
  rewrite lookup_delete_ne by lia. apply Hall. exact Hv.
Qed.

(** X3.  A duty without committee indices makes [Attest] panic (the index
    expression [duty.CommitteeIndices()[0]] is out of range) before any
    collaborator is called, and after the validators of the duty were put in
    the attested set. *)
Theorem Attest_without_committee_panics
    (env : Env) (s : Service) (duty : Duty) :
  CommitteeIndices duty = [] ->
  (Attest env s duty).2 = Panic
  /\ Forall (fun e => isCall e = false) (Attest env s duty).1.2
  /\ forall v, v ∈ ValidatorIndices duty ->
       v ∈ attestedIn (Attest env s duty).1.1 (SlotToEpoch s (dutySlot duty)).
Proof.
  intros Hnone. split; [|split].
  - unfold Attest. destruct (filterIndices _ _ _ _ _) as [[a vs] tr0].
    rewrite Hnone. reflexivity.
  - pose proof (filterIndices_no_calls (SlotToEpoch s (dutySlot duty))
                  (dutySlot duty) (ValidatorIndices duty) 0%nat
                  (ensureEpoch (SlotToEpoch s (dutySlot duty)) (attested s)))
      as Hq.
    unfold Attest. destruct (filterIndices _ _ _ _ _) as [[a vs] tr0].
    rewrite Hnone. exact Hq.
  - intros v. apply Attest_validators_attested.
Qed.

(** X4.  [New] takes a SLOTS_PER_EPOCH of zero from the spec without
    complaint, and on the service it then returns every call of [Attest]
    whose attestation data is of the duty's slot with a source epoch that is
    not after the target's panics at the division by the slots per epoch. *)
Theorem New_accepts_zero_slots_per_epoch
    (params : parameters) (spec : gmap string SpecValue) :
  specProvider params = inr spec ->
  spec !! "SLOTS_PER_EPOCH"%string = Some (SpecUint64 0) ->
  exists s,
    New (inr params) = inr s
    /\ forall (env : Env) (duty : Duty) c0 data,
         CommitteeIndices duty !! 0%nat = Some c0 ->
         AttestationDataOf env (dutySlot duty) c0 = inr data ->
         Slot data = dutySlot duty ->
         Epoch (Source data) <= Epoch (Target data) ->
         (Attest env s duty).2 = Panic.
Proof.
  intros Hspec Hkey. unfold New. rewrite Hspec, Hkey. eexists.
  split; [reflexivity|]. intros env duty c0 data Hc0 Hdata Hslot Hst.
  unfold Attest. destruct (filterIndices _ _ _ _ _) as [[a vs] tr0].
  rewrite Hc0, Hdata. apply Z.eqb_eq in Hslot. rewrite Hslot. simpl.
  destruct (Z.ltb_spec (Epoch (Target data)) (Epoch (Source data))) as [|_];
    [lia|]. reflexivity.
Qed.

Lemma SetBitAt_NewBitlist_length size v :
  length (SetBitAt v true (NewBitlist size)) = Z.to_nat size.
Proof.
  unfold SetBitAt, NewBitlist. destruct (_ && _);
    rewrite ?length_insert, length_replicate; reflexivity.
Qed.

Lemma SetBitAt_NewBitlist_lookup size v (k : nat) :
  SetBitAt v true (NewBitlist size) !! k = Some true
  <-> k = Z.to_nat v /\ 0 <= v < size.
Proof.
  unfold SetBitAt, NewBitlist. rewrite length_replicate.
  destruct (Z.leb_spec 0 v) as [Hv0|Hv0];
    [destruct (Z.ltb_spec v (Z.of_nat (Z.to_nat size))) as [Hvs|Hvs]|]; simpl.
  - destruct (decide (k = Z.to_nat v)) as [->|Hne].
    + rewrite list_lookup_insert_eq by (rewrite length_replicate; lia).
      split; [intros _; split; [reflexivity|lia]|reflexivity].
    + rewrite list_lookup_insert_ne by congruence. split.
      * intros H. apply lookup_replicate in H as [H _]. discriminate.
      * intros [H _]. contradiction.
  - split.
    + intros H. apply lookup_replicate in H as [H _]. discriminate.
    + intros [_ H]. lia.
  - split.
    + intros H. apply lookup_replicate in H as [H _]. discriminate.
    + intros [_ H]. lia.
Qed.

Lemma createAttestations_built duty data cs vcs sizes sigs :
  forall i atts (warns : list Event),
  createAttestations duty data cs vcs sizes i sigs = Some (atts, warns) ->
  Forall (fun att =>
            Signature att <> zeroSig
            /\ Slot (Data att) = dutySlot duty
            /\ BeaconBlockRoot (Data att) = BeaconBlockRoot data
            /\ Source (Data att) = Source data
            /\ Target (Data att) = Target data
            /\ exists (j : nat) size v,
                 sigs !! j = Some (Signature att)
                 /\ cs !! (i + j)%nat = Some (Index (Data att))
                 /\ vcs !! (i + j)%nat = Some v
                 /\ sizes !! (i + j)%nat = Some size
                 /\ length (AggregationBits att) = Z.to_nat size
                 /\ forall k : nat,
                      AggregationBits att !! k = Some true
                      <-> k = Z.to_nat v /\ 0 <= v < size) atts.
Proof.
  induction sigs as [|sig sigs IH]; intros i atts warns; simpl.
  - intros [= <- <-]. constructor.
  - assert (forall atts' (warns' : list Event),
              createAttestations duty data cs vcs sizes (S i) sigs
              = Some (atts', warns') ->
              Forall (fun att =>
                Signature att <> zeroSig
                /\ Slot (Data att) = dutySlot duty
                /\ BeaconBlockRoot (Data att) = BeaconBlockRoot data
                /\ Source (Data att) = Source data
                /\ Target (Data att) = Target data
                /\ exists (j : nat) size v,
                     (sig :: sigs) !! j = Some (Signature att)
                     /\ cs !! (i + j)%nat = Some (Index (Data att))
                     /\ vcs !! (i + j)%nat = Some v
                     /\ sizes !! (i + j)%nat = Some size
                     /\ length (AggregationBits att) = Z.to_nat size
                     /\ forall k : nat,
                          AggregationBits att !! k = Some true
                          <-> k = Z.to_nat v /\ 0 <= v < size) atts') as Hrest.
    { intros atts' warns' E. apply IH in E. eapply Forall_impl; [exact E|].
      intros att (H1 & H2 & H3 & H4 & H5 & j & size & v & Hj & Hc & Hv & Hs & Hb).
      repeat (split; [assumption|]). exists (S j), size, v.
      replace (i + S j)%nat with (S i + j)%nat by lia.
      repeat (split; [assumption|]). exact Hb. }
    destruct (Z.eqb_spec sig zeroSig) as [Hz|Hnz].
    + destruct (createAttestations _ _ _ _ _ _ _) as [[atts' warns']|] eqn:E;
        [|discriminate].
      intros [= <- <-]. eapply Hrest. reflexivity.
    + destruct (sizes !! i) as [size|] eqn:Es; [|discriminate].
      destruct (vcs !! i) as [v|] eqn:Ev; [|discriminate].
      destruct (cs !! i) as [c|] eqn:Ec; [|discriminate].
      destruct (createAttestations _ _ _ _ _ _ _) as [[atts' warns']|] eqn:E;
        [|discriminate].
      intros [= <- <-]. constructor; [|eapply Hrest; reflexivity].
      unfold newAttestation. simpl.
      split; [exact Hnz|]. split; [reflexivity|]. split; [reflexivity|].
      split; [destruct (Source data); reflexivity|].
      split; [destruct (Target data); reflexivity|].
      exists 0%nat, size, v. rewrite Nat.add_0_r.
      split; [reflexivity|]. split; [exact Ec|]. split; [exact Ev|].
      split; [exact Es|].
      split; [apply SetBitAt_NewBitlist_length|].
      intros k. apply SetBitAt_NewBitlist_lookup.
Qed.

(** X5.  The attestations that [attest] submits, and those it returns, are
    well formed: each has a signature that is not all zero, the slot of the
    duty, the block root and the checkpoints of the fetched data, the
    committee index of its validator, and aggregation bits of the size of the
    committee in which only the bit of the validator is set; no bit is set
    when the validator's position is not inside the committee. *)
Theorem attest_builds_single_bit_attestations
    (env : Env) (duty : Duty) (validators : list Z) (accounts : list Account)
    (cs vcs sizes : list Z) (data : AttestationData) (sigs : list Z)
    (atts : list Attestation) :
  let o := attest env duty validators accounts cs vcs sizes data in
  SignBeaconAttestations env accounts (dutySlot duty) cs
    (BeaconBlockRoot data) (Epoch (Source data)) (Root (Source data))
    (Epoch (Target data)) (Root (Target data)) = inr sigs ->
  o.2 = Ok atts \/ EvSubmit atts ∈ o.1 ->
  Forall (builtFor duty data cs vcs sizes sigs) atts.
Proof.
  intros o Hsign Hatts. subst o. unfold attest in Hatts. rewrite Hsign in Hatts.
  destruct (createAttestations duty data cs vcs sizes 0 sigs)
    as [[built warns]|] eqn:E.
  2:{ simpl in Hatts. destruct Hatts as [H|H]; [discriminate|].
      apply elem_of_cons in H as [H|H]; [discriminate|inversion H]. }
  pose proof (createAttestations_built _ _ _ _ _ _ _ _ _ E) as Hbuilt.
  pose proof (createAttestations_warnings _ _ _ _ _ _ _ _ _ E) as Hw.
  assert (forall l, EvSubmit atts ∈ warns ++ l -> EvSubmit atts ∈ l) as Hin.
  { intros l H. apply elem_of_app in H as [H|H]; [|exact H].
    rewrite Forall_forall in Hw. apply Hw in H. discriminate. }
  assert (atts = built \/ atts = []) as [->| ->]; [|exact Hbuilt|constructor].
  destruct built as [|att built].
  - simpl in Hatts. destruct Hatts as [[= <-]|H]; [right; reflexivity|].
    apply elem_of_cons in H as [H|H]; [discriminate|].
    apply Hin in H. apply elem_of_cons in H as [H|H]; [discriminate|inversion H].
  - destruct (SubmitAttestations env (att :: built)); simpl in Hatts;
      (destruct Hatts as [H|H]; [try discriminate; injection H as <-;
                                 left; reflexivity|]);
      apply elem_of_cons in H as [H|H]; try discriminate;
      apply Hin in H; apply elem_of_cons in H as [H|H];
      [injection H as ->; left; reflexivity|inversion H
      |injection H as ->; left; reflexivity|inversion H].
Qed.

Lemma markAttested_lookup epoch index (a : gmap Z (gset Z)) :
  default ∅ (markAttested epoch index a !! epoch)
  = {[index]} ∪ default ∅ (a !! epoch).
Proof. unfold markAttested. rewrite lookup_insert_eq. reflexivity. Qed.

(** The validators the filter loop keeps: those of the duty that are not in
    the attested set, each once, in the order of the duty. *)
Lemma filterIndices_kept epoch slot indices :
  forall i (a : gmap Z (gset Z)),
  let vs := (filterIndices (Account := Account) epoch slot i indices a).1.2 in
  sublist vs indices
  /\ (forall v, v ∈ indices -> v ∉ default ∅ (a !! epoch) -> v ∈ vs)
  /\ (NoDup indices ->
      (forall v, v ∈ indices -> v ∉ default ∅ (a !! epoch)) -> vs = indices).
Proof.
  induction indices as [|index rest IH]; intros i a; simpl.
  - split; [constructor|]. split; [intros v Hv; inversion Hv|reflexivity].
  - unfold hasAttested. case_bool_decide as Hin.
    + specialize (IH (S i) a).
      destruct (filterIndices epoch slot (S i) rest a) as [[a' vs] tr].
      simpl in *. destruct IH as (Hsub & Hin' & _).
      split; [apply sublist_cons; exact Hsub|]. split.
      * intros v Hv Hnot. apply elem_of_cons in Hv as [->|Hv];
          [contradiction|]. apply Hin'; assumption.
      * intros _ Hfresh. exfalso. apply (Hfresh index); [left|exact Hin].
    + specialize (IH (S i) (markAttested epoch index a)).
      destruct (filterIndices epoch slot (S i) rest _) as [[a' vs] tr].
      simpl in *. rewrite markAttested_lookup in IH.
      destruct IH as (Hsub & Hin' & Heq).
      split; [apply sublist_skip; exact Hsub|]. split.
      * intros v Hv Hnot. destruct (decide (v = index)) as [->|Hne]; [left|].
        right. apply elem_of_cons in Hv as [->|Hv]; [contradiction|].
        apply Hin'; [exact Hv|]. intros Hv'.
        apply elem_of_union in Hv' as [Hv'|Hv']; [|contradiction].
        apply elem_of_singleton in Hv'. contradiction.
      * intros Hnd Hfresh. apply NoDup_cons in Hnd as [Hni Hnd]. f_equal.
        apply Heq; [exact Hnd|]. intros v Hv Hv'.
        apply elem_of_union in Hv' as [Hv'|Hv'].
        -- apply elem_of_singleton in Hv'. subst v. contradiction.
        -- apply (Hfresh v); [right; exact Hv|exact Hv'].
Qed.

Lemma filterIndices_no_accounts epoch slot indices i (a : gmap Z (gset Z))
    ep idxs :
  EvValidatingAccounts ep idxs
    ∉ (filterIndices (Account := Account) epoch slot i indices a).2.
Proof.
  intros Hin. pose proof (filterIndices_no_calls epoch slot indices i a) as Hq.
  rewrite Forall_forall in Hq. apply Hq in Hin. discriminate.
Qed.

Lemma attest_no_accounts (env : Env) duty vals accs cs vcs sizes data ep idxs :
  EvValidatingAccounts ep idxs
    ∉ (attest env duty vals accs cs vcs sizes data).1.
Proof.
  unfold attest.
  destruct (SignBeaconAttestations _ _ _ _ _ _ _ _ _) as [cause|sigs].
  { simpl. intros H. apply elem_of_cons in H as [H|H];
      [discriminate|inversion H]. }
  destruct (createAttestations _ _ _ _ _ _ _) as [[atts warns]|] eqn:E.
  2:{ simpl. intros H. apply elem_of_cons in H as [H|H];
        [discriminate|inversion H]. }
  apply createAttestations_warnings in E. rewrite Forall_forall in E.
  assert (forall last : Event,
            last <> EvValidatingAccounts ep idxs ->
            EvValidatingAccounts ep idxs ∉ warns ++ [last]) as Hw.
  { intros last Hl H. apply elem_of_app in H as [H|H].
    - apply E in H. discriminate.
    - apply elem_of_cons in H as [H|H]; [congruence|inversion H]. }
  destruct atts as [|att atts]; [|destruct (SubmitAttestations env _)];
    simpl; intros H; apply elem_of_cons in H as [H|H]; try discriminate;
    apply Hw in H; try exact H; discriminate.
Qed.

(** X6.  A request to the accounts provider is for the epoch of the duty's
    slot by the slots per epoch, and for these validators: those of the duty
    that were not in the attested set of the duty's epoch when the call
    began, each once and in the order of the duty.  A duty that repeats no
    validator and of which none had attested is asked for as it is. *)
Theorem Attest_asks_accounts_of_unattested
    (env : Env) (s : Service) (duty : Duty) (ep : Z) (idxs : list Z) :
  EvValidatingAccounts ep idxs ∈ (Attest env s duty).1.2 ->
  ep = dutySlot duty / slotsPerEpoch s
  /\ sublist idxs (ValidatorIndices duty)
  /\ NoDup idxs
  /\ (forall v, v ∈ idxs
        <-> v ∈ ValidatorIndices duty
            /\ v ∉ attestedIn s (SlotToEpoch s (dutySlot duty)))
  /\ (NoDup (ValidatorIndices duty) ->
      (forall v, v ∈ ValidatorIndices duty ->
         v ∉ attestedIn s (SlotToEpoch s (dutySlot duty))) ->
      idxs = ValidatorIndices duty).
Proof.
  intros Hin.
  set (epoch := SlotToEpoch s (dutySlot duty)) in *.
  pose proof (filterIndices_spec (Account := Account) epoch (dutySlot duty)
                (ValidatorIndices duty) 0%nat
                (ensureEpoch epoch (attested s))) as Hspec.
  pose proof (filterIndices_kept epoch (dutySlot duty)
                (ValidatorIndices duty) 0%nat
                (ensureEpoch epoch (attested s))) as Hkept.
  pose proof (fun ep idxs =>
                filterIndices_no_accounts epoch (dutySlot duty)
                  (ValidatorIndices duty) 0%nat
                  (ensureEpoch epoch (attested s)) ep idxs) as Hno.
  cbv zeta in Hspec, Hkept. rewrite ensureEpoch_lookup in Hspec, Hkept.
  fold (attestedIn s epoch) in Hspec, Hkept.
  assert (ep = dutySlot duty / slotsPerEpoch s
          /\ idxs = (filterIndices (Account := Account) epoch (dutySlot duty)
                       0 (ValidatorIndices duty)
                       (ensureEpoch epoch (attested s))).1.2) as [-> ->].
  { clear Hspec Hkept. revert Hin. unfold Attest. fold epoch.
    destruct (filterIndices epoch (dutySlot duty) 0 (ValidatorIndices duty)
                (ensureEpoch epoch (attested s))) as [[a' vs] tr0].
    simpl in Hno. cbv zeta.
    assert (forall l : list Event,
              EvValidatingAccounts ep idxs ∈ tr0 ++ l ->
              EvValidatingAccounts ep idxs ∈ l) as Htr0.
    { intros l H. apply elem_of_app in H as [H|H]; [|exact H].
      exfalso. exact (Hno _ _ H). }
    assert (forall (l1 l2 : list Event),
              EvValidatingAccounts ep idxs ∈ l1 ++ l2 ->
              EvValidatingAccounts ep idxs ∈ l1
              \/ EvValidatingAccounts ep idxs ∈ l2) as Happ.
    { intros l1 l2 H. apply elem_of_app in H. exact H. }
    assert (forall (e : Event) l,
              EvValidatingAccounts ep idxs ∈ e :: l ->
              EvValidatingAccounts ep idxs = e
              \/ EvValidatingAccounts ep idxs ∈ l) as Hcons.
    { intros e l H. apply elem_of_cons in H. exact H. }
    assert (forall P : Prop, EvValidatingAccounts ep idxs ∈ @nil Event -> P)
      as Hnil.
    { intros P H. inversion H. }
    destruct (CommitteeIndices _ !! 0%nat) as [c0|];
      [|simpl; intros H; exfalso; exact (Hno _ _ H)].
    destruct (AttestationDataOf _ _ _) as [cause|data].
    { simpl. intros H. apply Htr0, Hcons in H as [H|H]; [discriminate|].
      apply Hcons in H as [H|H]; [discriminate|]. exact (Hnil _ H). }
    destruct (negb _).
    { simpl. rewrite <- app_assoc. intros H.
      apply Htr0, Hcons in H as [H|H]; [discriminate|].
      apply Hcons in H as [H|H]; [discriminate|]. exact (Hnil _ H). }
    destruct (_ <? _).
    { simpl. rewrite <- app_assoc. intros H.
      apply Htr0, Hcons in H as [H|H]; [discriminate|].
      apply Hcons in H as [H|H]; [discriminate|]. exact (Hnil _ H). }
    destruct (slotsPerEpoch s =? 0).
    { simpl. intros H.
      apply Htr0, Hcons in H as [H|H]; [discriminate|]. exact (Hnil _ H). }
    destruct (_ <? _).
    { simpl. rewrite <- app_assoc. intros H.
      apply Htr0, Hcons in H as [H|H]; [discriminate|].
      apply Hcons in H as [H|H]; [discriminate|]. exact (Hnil _ H). }
    assert (forall l : list Event,
              EvValidatingAccounts ep idxs
                ∈ ((tr0 ++ [EvAttestationData (dutySlot duty) c0])
                     ++ [EvValidatingAccounts
                           (dutySlot duty / slotsPerEpoch s) vs]) ++ l ->
              (ep = dutySlot duty / slotsPerEpoch s /\ idxs = vs)
              \/ EvValidatingAccounts ep idxs ∈ l) as Htr2.
    { intros l H. rewrite <- !app_assoc in H.
      apply Htr0, Hcons in H as [H|H]; [discriminate|].
      apply Hcons in H as [H|H]; [left; injection H as -> ->; auto|].
      right. exact H. }
    destruct (ValidatingAccountsForEpochByIndex _ _ _) as [cause|va].
    { simpl. intros H. apply Htr2 in H as [H|H]; [exact H|].
      apply Hcons in H as [H|H]; [discriminate|]. exact (Hnil _ H). }
    destruct (perValidator _ _ _) as [[[cs vcs] sizes]|].
    2:{ simpl. intros H. rewrite <- (app_nil_r (_ ++ _)) in H.
        apply Htr2 in H as [H|H]; [exact H|]. exact (Hnil _ H). }
    pose proof (attest_no_accounts env duty va.*1 va.*2 cs vcs sizes data
                  ep idxs) as Hat.
    destruct (attest _ _ _ _ _ _ _ _) as [tr3 r]. simpl in Hat.
    destruct r as [atts|e|]; [destruct (1 <? epoch)| |]; simpl; intros H.
    - rewrite <- app_assoc in H. apply Htr2 in H as [H|H]; [exact H|].
      exfalso. apply Happ in H as [H|H].
      2:{ apply Hcons in H as [H|H]; [discriminate|]. exact (Hnil _ H). }
      apply Happ in H as [H|H]; [exact (Hat H)|].
      apply Happ in H as [H|H].
      + destruct (_ <? _); [|exact (Hnil _ H)].
        apply Hcons in H as [H|H]; [discriminate|]. exact (Hnil _ H).
      + apply Hcons in H as [H|H]; [discriminate|]. exact (Hnil _ H).
    - apply Htr2 in H as [H|H]; [exact H|].
      exfalso. apply Happ in H as [H|H]; [exact (Hat H)|].
      apply Happ in H as [H|H].
      + destruct (_ <? _); [|exact (Hnil _ H)].
        apply Hcons in H as [H|H]; [discriminate|]. exact (Hnil _ H).
      + apply Hcons in H as [H|H]; [discriminate|]. exact (Hnil _ H).
    - apply Htr2 in H as [H|H]; [exact H|].
      exfalso. apply Happ in H as [H|H]; [exact (Hat H)|].
      apply Hcons in H as [H|H]; [discriminate|]. exact (Hnil _ H).
    - apply Htr2 in H as [H|H]; [exact H|]. exfalso. exact (Hat H). }
  destruct Hspec as (_ & _ & Hnd & Hvs & _).
  destruct Hkept as (Hsub & Hall & Hsame).
  split; [reflexivity|]. split; [exact Hsub|]. split; [exact Hnd|].
  split; [|exact Hsame].
  intros v. split; [apply Hvs|]. intros [Hv Hnot]. apply Hall; assumption.
Qed.

(** Membership in a trace, by cases on how the trace was put together. *)
Ltac split_in :=
  repeat match goal with
         | H : _ ∈ [] |- _ => inversion H
         | H : _ ∈ _ :: _ |- _ => apply elem_of_cons in H as [H|H]
         | H : _ ∈ _ ++ _ |- _ => apply elem_of_app in H as [H|H]
         | H : _ ∈ (if ?b then _ else _) |- _ => destruct b
         end.

Lemma arrayIndexMap_notin indices :
  forall i (m : gmap Z nat) v,
  v ∉ indices -> arrayIndexMap i indices m !! v = m !! v.
Proof.
  induction indices as [|index rest IH]; intros i m v Hv; [reflexivity|].
  simpl. apply not_elem_of_cons in Hv as [Hne Hv].
  rewrite IH by exact Hv. apply lookup_insert_ne. congruence.
Qed.

Lemma arrayIndexMap_lookup indices :
  forall i (m : gmap Z nat) (k : nat) v,
  NoDup indices -> indices !! k = Some v ->
  arrayIndexMap i indices m !! v = Some (i + k)%nat.
Proof.
  induction indices as [|index rest IH]; intros i m k v Hnd Hk;
    [discriminate|].
  apply NoDup_cons in Hnd as [Hni Hnd]. destruct k as [|k]; simpl in *.
  - injection Hk as ->. rewrite arrayIndexMap_notin by exact Hni.
    rewrite lookup_insert_eq, Nat.add_0_r. reflexivity.
  - rewrite (IH (S i) _ k v Hnd Hk). f_equal. lia.
Qed.

Lemma perValidator_lookup duty (m : gmap Z nat) avi :
  forall cs vcs sizes,
  perValidator duty m avi = Some (cs, vcs, sizes) ->
  length cs = length avi
  /\ forall (j : nat) v, avi !! j = Some v ->
       exists c,
         CommitteeIndices duty !! default 0%nat (m !! v) = Some c
         /\ cs !! j = Some c
         /\ vcs !! j
            = ValidatorCommitteeIndices duty !! default 0%nat (m !! v)
         /\ sizes !! j = Some (CommitteeSize duty c).
Proof.
  induction avi as [|index rest IH]; intros cs vcs sizes; simpl.
  - intros [= <- <- <-]. split; [reflexivity|]. intros j v Hj. discriminate.
  - destruct (CommitteeIndices duty !! _) as [c|] eqn:Ec; [|discriminate].
    destruct (ValidatorCommitteeIndices duty !! _) as [vc|] eqn:Ev;
      [|discriminate].
    destruct (perValidator duty m rest) as [[[cs' vcs'] sizes']|];
      [|discriminate].
    intros [= <- <- <-]. destruct (IH _ _ _ eq_refl) as [Hlen Hrest].
    split; [simpl; f_equal; exact Hlen|].
    intros [|j] v Hj; simpl in *.
    + injection Hj as <-. exists c. rewrite Ec, Ev. auto.
    + apply Hrest. exact Hj.
Qed.

Lemma attest_sign_inv (env : Env) duty vals accs cs vcs sizes data (e : Event) :
  isSign e = true ->
  e ∈ (attest env duty vals accs cs vcs sizes data).1 ->
  e = EvSign vals accs (dutySlot duty) cs (BeaconBlockRoot data)
        (Epoch (Source data)) (Root (Source data))
        (Epoch (Target data)) (Root (Target data)).
Proof.
  intros He. unfold attest.
  destruct (SignBeaconAttestations _ _ _ _ _ _ _ _ _) as [cause|sigs].
  { simpl. intros H. split_in. exact H. }
  destruct (createAttestations _ _ _ _ _ _ _) as [[atts warns]|] eqn:E.
  2:{ simpl. intros H. split_in. exact H. }
  apply createAttestations_warnings in E. rewrite Forall_forall in E.
  destruct atts as [|att atts]; [|destruct (SubmitAttestations env _)];
    simpl; intros H; split_in; try exact H;
    try (apply E in H); subst e; discriminate.
Qed.

(** A signing request in the trace of [Attest] is the one of [attest], made
    for the accounts of the filtered validators with the fetched data. *)
Lemma Attest_sign_inv (env : Env) (s : Service) (duty : Duty) (ev : Event) :
  isSign ev = true ->
  ev ∈ (Attest env s duty).1.2 ->
  exists c0 data va vcs sizes cs,
    CommitteeIndices duty !! 0%nat = Some c0
    /\ AttestationDataOf env (dutySlot duty) c0 = inr data
    /\ ValidatingAccountsForEpochByIndex env
         (dutySlot duty / slotsPerEpoch s)
         (filterIndices (Account := Account) (SlotToEpoch s (dutySlot duty))
            (dutySlot duty) 0 (ValidatorIndices duty)
            (ensureEpoch (SlotToEpoch s (dutySlot duty)) (attested s))).1.2
       = inr va
    /\ perValidator duty
         (arrayIndexMap 0
            (filterIndices (Account := Account)
               (SlotToEpoch s (dutySlot duty))
               (dutySlot duty) 0 (ValidatorIndices duty)
               (ensureEpoch (SlotToEpoch s (dutySlot duty)) (attested s))).1.2
            ∅) va.*1 = Some (cs, vcs, sizes)
    /\ ev = EvSign va.*1 va.*2 (dutySlot duty) cs (BeaconBlockRoot data)
             (Epoch (Source data)) (Root (Source data))
             (Epoch (Target data)) (Root (Target data)).
Proof.
  intros He.
  pose proof (filterIndices_no_calls (SlotToEpoch s (dutySlot duty))
                (dutySlot duty) (ValidatorIndices duty) 0%nat
                (ensureEpoch (SlotToEpoch s (dutySlot duty)) (attested s)))
    as Hq.
  rewrite Forall_forall in Hq.
  attest_cases; simpl in Hq |- *; intros H; split_in;
    try (subst ev; discriminate);
    try (apply Hq in H; destruct ev; discriminate).
  all: exists c0, data, va, vcs, sizes, cs;
    split; [reflexivity|]; split; [exact Hdata|]; split; [reflexivity|];
    split; [exact Hper|];
    eapply attest_sign_inv; [exact He|]; rewrite Hattest; exact H.
Qed.

(** X7.  What the signer is asked to sign.  A signing request of [Attest] is
    for the slot of the duty and for the block root and the checkpoints that
    the beacon node returned for the first committee of the duty.  The
    committee index it gives for a validator is the one the duty has at the
    position of the validator in the filtered list of validators, which is
    the list of the duty without those that had attested; for a validator
    that is not in the filtered list it is the one at position 0. *)
Theorem Attest_signs_with_filtered_positions
    (env : Env) (s : Service) (duty : Duty) (vals : list Z)
    (accs : list Account) (slot : Z) (cs : list Z) (br se sr te tr : Z) :
  let epoch := SlotToEpoch s (dutySlot duty) in
  let filtered :=
    (filterIndices (Account := Account) epoch (dutySlot duty) 0
       (ValidatorIndices duty) (ensureEpoch epoch (attested s))).1.2 in
  EvSign vals accs slot cs br se sr te tr ∈ (Attest env s duty).1.2 ->
  slot = dutySlot duty
  /\ (exists c0 data,
        CommitteeIndices duty !! 0%nat = Some c0
        /\ AttestationDataOf env (dutySlot duty) c0 = inr data
        /\ br = BeaconBlockRoot data
        /\ se = Epoch (Source data) /\ sr = Root (Source data)
        /\ te = Epoch (Target data) /\ tr = Root (Target data))
  /\ length cs = length vals
  /\ forall (j : nat) v, vals !! j = Some v ->
       (forall k : nat, filtered !! k = Some v ->
          is_Some (cs !! j) /\ cs !! j = CommitteeIndices duty !! k)
       /\ (v ∉ filtered ->
           is_Some (cs !! j) /\ cs !! j = CommitteeIndices duty !! 0%nat).
Proof.
  intros epoch filtered Hin.
  apply Attest_sign_inv in Hin; [|reflexivity].
  destruct Hin as (c0 & data & va & vcs & sizes & cs' & Hc0 & Hdata & Hva
                   & Hper & Heq).
  fold epoch in Hper, Hva. fold filtered in Hper, Hva.
  injection Heq as -> -> -> -> -> -> -> -> ->.
  split; [reflexivity|].
  split; [exists c0, data; repeat (split; [assumption || reflexivity|]);
          reflexivity|].
  apply perValidator_lookup in Hper as [Hlen Hper].
  split; [exact Hlen|].
  assert (NoDup filtered) as Hnd.
  { pose proof (filterIndices_spec (Account := Account) epoch (dutySlot duty)
                  (ValidatorIndices duty) 0%nat
                  (ensureEpoch epoch (attested s))) as Hspec.
    cbv zeta in Hspec. destruct Hspec as (_ & _ & Hnd & _). exact Hnd. }
  intros j v Hj. destruct (Hper j v Hj) as (c & Hc & Hcs & _). split.
  - intros k Hk. rewrite (arrayIndexMap_lookup _ 0%nat ∅ k v Hnd Hk) in Hc.
    simpl in Hc. rewrite Hcs, Hc. split; [eexists|]; reflexivity.
  - intros Hni. rewrite arrayIndexMap_notin in Hc by exact Hni.
    rewrite lookup_empty in Hc. simpl in Hc. rewrite Hcs, Hc.
    split; [eexists|]; reflexivity.
Qed.

Lemma calls_app (tr1 tr2 : list Event) :
  calls (tr1 ++ tr2) = calls tr1 ++ calls tr2.
Proof. apply omap_app. Qed.

Lemma no_calls (tr : list Event) :
  Forall (fun e => isCall e = false) tr -> calls tr = [].
Proof.
  induction 1 as [|e tr He _ IH]; [reflexivity|].
  destruct e; try discriminate He; exact IH.
Qed.

Lemma warnings_calls (warns : list Event) :
  Forall (fun e => e = EvNoSignature) warns -> calls warns = [].
Proof. induction 1 as [|e tr -> _ IH]; [reflexivity|exact IH]. Qed.

(** The calls of [attest] and what it returns. *)
Lemma attest_calls (env : Env) duty vals accs cs vcs sizes data :
  let o := attest env duty vals accs cs vcs sizes data in
  match o.2 with
  | Ok [] => calls o.1 = [CallSign]
  | Ok atts =>
      calls o.1 = [CallSign; CallSubmit]
      /\ EvSubmit atts ∈ o.1 /\ SubmitAttestations env atts = None
  | Err (ErrSign _) => calls o.1 = [CallSign]
  | Err (ErrSubmit cause) =>
      calls o.1 = [CallSign; CallSubmit]
      /\ exists atts,
           EvSubmit atts ∈ o.1 /\ SubmitAttestations env atts = Some cause
  | Err _ => False
  | Panic => calls o.1 = [CallSign]
  end.
Proof.
  unfold attest.
  destruct (SignBeaconAttestations _ _ _ _ _ _ _ _ _) as [cause|sigs];
    [reflexivity|].
  destruct (createAttestations _ _ _ _ _ _ _) as [[atts warns]|] eqn:E;
    [|reflexivity].
  apply createAttestations_warnings, warnings_calls in E.
  assert (forall last : Event,
            calls (EvSign vals accs (dutySlot duty) cs (BeaconBlockRoot data)
                     (Epoch (Source data)) (Root (Source data))
                     (Epoch (Target data)) (Root (Target data))
                   :: warns ++ [last])
            = CallSign :: calls [last]) as Hc.
  { intros last. change (?e :: warns ++ ?l) with ([e] ++ warns ++ l).
    rewrite !calls_app, E. reflexivity. }
  destruct atts as [|att atts]; [cbv zeta; simpl fst; simpl snd; apply Hc|].
  destruct (SubmitAttestations env (att :: atts)) as [cause|] eqn:Es;
    cbv zeta; simpl fst; simpl snd.
  - split; [apply Hc|]. exists (att :: atts). split; [|exact Es].
    right. apply elem_of_app. right. left.
  - split; [apply Hc|]. split; [|exact Es].
    right. apply elem_of_app. right. left.
Qed.

(** X8.  The collaborators [Attest] reaches, and in what order: the beacon
    node for the attestation data, then the accounts provider, then the
    signer, then the submitter, each once at most and none after one has
    failed.  An error tells how far the call went.  A list of attestations
    that is not empty is returned only after the submitter has accepted that
    very list, and an empty one only when nothing was submitted. *)
Theorem Attest_calls_in_order (env : Env) (s : Service) (duty : Duty) :
  let o := Attest env s duty in
  calls o.1.2 `prefix_of` [CallData; CallAccounts; CallSign; CallSubmit]
  /\ match o.2 with
     | Ok [] => calls o.1.2 = [CallData; CallAccounts; CallSign]
     | Ok atts =>
         calls o.1.2 = [CallData; CallAccounts; CallSign; CallSubmit]
         /\ EvSubmit atts ∈ o.1.2 /\ SubmitAttestations env atts = None
     | Err (ErrObtainData _) | Err (ErrSlotMismatch _ _)
     | Err (ErrSourceAfterTarget _ _ _) | Err (ErrTargetAfterCurrent _ _ _) =>
         calls o.1.2 = [CallData]
     | Err (ErrObtainAccounts _) => calls o.1.2 = [CallData; CallAccounts]
     | Err (ErrSign _) => calls o.1.2 = [CallData; CallAccounts; CallSign]
     | Err (ErrSubmit cause) =>
         calls o.1.2 = [CallData; CallAccounts; CallSign; CallSubmit]
         /\ exists atts,
              EvSubmit atts ∈ o.1.2
              /\ SubmitAttestations env atts = Some cause
     | Panic => True
     end.
Proof.
  intros o. subst o.
  pose proof (no_calls _
                (filterIndices_no_calls (SlotToEpoch s (dutySlot duty))
                   (dutySlot duty) (ValidatorIndices duty) 0%nat
                   (ensureEpoch (SlotToEpoch s (dutySlot duty))
                      (attested s)))) as Htr0.
  attest_cases; simpl in Htr0;
    try match goal with
        | H : attest ?e ?d ?v ?ac ?c ?vc ?sz ?dt = (_, _) |- _ =>
            pose proof (attest_calls e d v ac c vc sz dt) as Htr3;
            cbv zeta in Htr3; rewrite H in Htr3; simpl fst in Htr3;
            simpl snd in Htr3
        end;
    cbn [fst snd].
  all: rewrite ?calls_app, ?Htr0.
  all: try solve [simpl; split;
                  [eexists; reflexivity|first [reflexivity|exact I]]].
  (* attestations returned, eviction *)
  - destruct atts as [|att atts].
    + rewrite Htr3. destruct (Z.of_nat _ <? Z.of_nat _); simpl;
        (split; [eexists [_]; reflexivity|reflexivity]).
    + destruct Htr3 as (Hc & Hin & Hsub). rewrite Hc.
      destruct (Z.of_nat _ <? Z.of_nat _); simpl;
        (split; [exists []; reflexivity|]);
        (split; [reflexivity|]); (split; [|exact Hsub]);
        apply elem_of_app; left; apply elem_of_app; right;
        apply elem_of_app; left; exact Hin.
  (* attestations returned, no eviction *)
  - destruct atts as [|att atts].
    + rewrite Htr3. destruct (Z.of_nat _ <? Z.of_nat _); simpl;
        (split; [eexists [_]; reflexivity|reflexivity]).
    + destruct Htr3 as (Hc & Hin & Hsub). rewrite Hc.
      destruct (Z.of_nat _ <? Z.of_nat _); simpl;
        (split; [exists []; reflexivity|]);
        (split; [reflexivity|]); (split; [|exact Hsub]);
        apply elem_of_app; right; apply elem_of_app; left; exact Hin.
  (* an error of [attest] *)
  - destruct e; try contradiction.
    + rewrite Htr3. simpl. split; [eexists [_]; reflexivity|reflexivity].
    + destruct Htr3 as (Hc & atts & Hin & Hsub). rewrite Hc. simpl.
      split; [exists []; reflexivity|]. split; [reflexivity|].
      exists atts. split; [|exact Hsub].
      apply elem_of_app; right; apply elem_of_app; left; exact Hin.
  (* a panic of [attest] *)
  - rewrite Htr3. simpl. split; [eexists [_]; reflexivity|exact I].
Qed.

End WithAccount.

(** Membership of an event in a trace that has been computed. *)
Ltac find_in := repeat first [left | right].

Lemma Attest_attested_frame_witness :
  let o := Attest (node (dataFor 101) [5; 6]) service32After duty101 in
  attested o.1.1 !! 1 = None
  /\ attestedIn o.1.1 3 = list_to_set [7; 8; 9] ∪ attestedIn service32After 3.
Proof.
  intros o.
  destruct (Attest_attested_frame (node (dataFor 101) [5; 6]) service32After
              duty101) as (Hset & _ & Hdel & _).
  split; [|exact Hset].
  eapply Hdel; [vm_compute; reflexivity|reflexivity].
Defined.

Lemma Attest_without_committee_panics_witness :
  (Attest (node (dataFor 100) [5; 6]) service32 dutyNoCommittee).2 = Panic
  /\ 7 ∈ attestedIn
           (Attest (node (dataFor 100) [5; 6]) service32 dutyNoCommittee).1.1 3.
Proof.
  destruct (Attest_without_committee_panics (node (dataFor 100) [5; 6])
              service32 dutyNoCommittee eq_refl) as (Hp & _ & Hin).
  split; [exact Hp|]. apply Hin. left.
Defined.

Lemma New_accepts_zero_slots_per_epoch_witness :
  exists s,
    New (inr parametersZero) = inr s
    /\ (Attest (node (dataFor 100) [5; 6]) s duty100).2 = Panic.
Proof.
  destruct (New_accepts_zero_slots_per_epoch (Account := string)
              parametersZero (<["SLOTS_PER_EPOCH"%string := SpecUint64 0]> ∅)
              eq_refl) as (s & Hnew & Hpanic).
  - apply lookup_insert_eq.
  - exists s. split; [exact Hnew|].
    apply (Hpanic (node (dataFor 100) [5; 6]) duty100 3 (dataFor 100)).
    + reflexivity.
    + reflexivity.
    + reflexivity.
    + simpl. lia.
Defined.

Lemma attest_builds_single_bit_attestations_witness :
  let atts := [newAttestation duty100 (dataFor 100) 4 0 3 5] in
  (attest (node (dataFor 100) [5; 0]) duty100 [7; 8]
          ["one"%string; "two"%string] [3; 3] [0; 1] [4; 4] (dataFor 100)).2
  = Ok atts
  /\ Forall (builtFor duty100 (dataFor 100) [3; 3] [0; 1] [4; 4] [5; 0]) atts.
Proof.
  intros atts.
  assert ((attest (node (dataFor 100) [5; 0]) duty100 [7; 8]
                  ["one"%string; "two"%string] [3; 3] [0; 1] [4; 4]
                  (dataFor 100)).2 = Ok atts) as Hok by reflexivity.
  split; [exact Hok|].
  apply (attest_builds_single_bit_attestations
           (node (dataFor 100) [5; 0]) duty100 [7; 8]
           ["one"%string; "two"%string] [3; 3] [0; 1] [4; 4] (dataFor 100)
           [5; 0] atts).
  - reflexivity.
  - left. exact Hok.
Defined.

Lemma Attest_asks_accounts_of_unattested_witness :
  EvValidatingAccounts 3 [8; 9]
    ∈ (Attest (node (dataFor 101) [5; 6]) service32After duty101).1.2
  /\ sublist [8; 9] (ValidatorIndices duty101)
  /\ forall v, v ∈ [8; 9]
       <-> v ∈ ValidatorIndices duty101 /\ v ∉ attestedIn service32After 3.
Proof.
  assert (EvValidatingAccounts 3 [8; 9]
            ∈ (Attest (node (dataFor 101) [5; 6]) service32After
                 duty101).1.2) as Hin.
  { vm_compute. find_in. }
  split; [exact Hin|].
  destruct (Attest_asks_accounts_of_unattested _ _ _ _ _ Hin)
    as (_ & Hsub & _ & Hiff & _).
  split; [exact Hsub|exact Hiff].
Defined.

Lemma Attest_signs_with_filtered_positions_witness :
  EvSign [8; 9] ["account"%string; "account"%string] 101 [3; 4] 17 2 18 3 19
    ∈ (Attest (node (dataFor 101) [5; 6]) service32After duty101).1.2
  /\ ValidatorIndices duty101 !! 1%nat = Some 8
  /\ [3; 4] !! 0%nat = CommitteeIndices duty101 !! 0%nat.
Proof.
  assert (EvSign [8; 9] ["account"%string; "account"%string] 101 [3; 4]
                 17 2 18 3 19
            ∈ (Attest (node (dataFor 101) [5; 6]) service32After
                 duty101).1.2) as Hin.
  { vm_compute. find_in. }
  split; [exact Hin|]. split; [reflexivity|].
  destruct (Attest_signs_with_filtered_positions _ _ _ _ _ _ _ _ _ _ _ _ Hin)
    as (_ & _ & _ & Hpos).
  destruct (Hpos 0%nat 8 eq_refl) as [Hat _].
  apply (Hat 0%nat). vm_compute. reflexivity.
Defined.

Section FreshDuty.
Context {Account : Type}.
Abbreviation Env := (Env Account).
Abbreviation Event := (Event Account).

Lemma perValidator_lengths duty (m : gmap Z nat) avi :
  forall cs vcs sizes,
  perValidator duty m avi = Some (cs, vcs, sizes) ->
  length cs = length avi /\ length vcs = length avi
  /\ length sizes = length avi.
Proof.
  induction avi as [|index rest IH]; intros cs vcs sizes; simpl.
  - intros [= <- <- <-]. auto.
  - destruct (CommitteeIndices duty !! _) as [c|]; [|discriminate].
    destruct (ValidatorCommitteeIndices duty !! _) as [vc|]; [|discriminate].
    destruct (perValidator duty m rest) as [[[cs' vcs'] sizes']|];
      [|discriminate].
    intros [= <- <- <-]. destruct (IH _ _ _ eq_refl) as (H1 & H2 & H3).
    simpl. auto.
Qed.

(** The per-validator information is there when every account is for a
    validator whose position the duty has. *)
Lemma perValidator_total duty (m : gmap Z nat) avi :
  (forall v, v ∈ avi ->
     (default 0%nat (m !! v) < length (CommitteeIndices duty))%nat
     /\ (default 0%nat (m !! v)
         < length (ValidatorCommitteeIndices duty))%nat) ->
  is_Some (perValidator duty m avi).
Proof.
  induction avi as [|index rest IH]; intros Hpos; simpl; [eexists; reflexivity|].
  destruct (Hpos index ltac:(left)) as [Hc Hv].
  destruct (lookup_lt_is_Some_2 _ _ Hc) as [c ->].
  destruct (lookup_lt_is_Some_2 _ _ Hv) as [vc ->].
  destruct IH as [[[cs vcs] sizes] ->]; [|eexists; reflexivity].
  intros v Hin. apply Hpos. right. exact Hin.
Qed.

(** With a signature for every account, every account gets its
    attestation, in order. *)
Lemma createAttestations_all duty data cs vcs sizes sigs :
  forall i atts (warns : list Event),
  Forall (fun sig => sig <> zeroSig) sigs ->
  createAttestations duty data cs vcs sizes i sigs = Some (atts, warns) ->
  length atts = length sigs
  /\ forall (j : nat) sig, sigs !! j = Some sig ->
       exists size v c,
         sizes !! (i + j)%nat = Some size /\ vcs !! (i + j)%nat = Some v
         /\ cs !! (i + j)%nat = Some c
         /\ atts !! j = Some (newAttestation duty data size v c sig).
Proof.
  induction sigs as [|sig sigs IH]; intros i atts warns Hnz; simpl.
  - intros [= <- <-]. split; [reflexivity|]. intros j sig Hj. discriminate.
  - apply Forall_cons in Hnz as [Hsig Hnz].
    destruct (Z.eqb_spec sig zeroSig) as [Hz|_]; [contradiction|].
    destruct (sizes !! i) as [size|] eqn:Es; [|discriminate].
    destruct (vcs !! i) as [v|] eqn:Ev; [|discriminate].
    destruct (cs !! i) as [c|] eqn:Ec; [|discriminate].
    destruct (createAttestations _ _ _ _ _ _ _) as [[atts' warns']|] eqn:E;
      [|discriminate].
    intros [= <- <-]. destruct (IH _ _ _ Hnz E) as [Hlen Hall].
    split; [simpl; f_equal; exact Hlen|].
    intros [|j] sig' Hj; simpl in Hj.
    + injection Hj as <-. exists size, v, c. rewrite Nat.add_0_r. auto.
    + destruct (Hall j sig' Hj) as (size' & v' & c' & H1 & H2 & H3 & H4).
      exists size', v', c'.
      replace (i + S j)%nat with (S i + j)%nat by lia. auto.
Qed.

(** X16.  A duty that is new to the service is attested in full.  When the
    duty repeats no validator and none of them has attested in the epoch,
    the duty has a committee index and a committee position for each
    validator, the fetched data passes the checks, the accounts provider
    answers with accounts of validators of the duty, the signer gives a
    signature that is not zero for each account and the submitter accepts,
    [Attest] returns one attestation per account, in the order of the
    accounts; the attestation of a validator has the slot of the duty, the
    fetched vote, the committee index the duty has for that validator, and
    the bit of the validator's position in a bitlist of the size of that
    committee. *)
Theorem Attest_fresh_duty_attests
    (env : Env) (s : Service) (duty : Duty) (c0 : Z) (data : AttestationData)
    (va : list (Z * Account)) :
  let epoch := SlotToEpoch s (dutySlot duty) in
  let current := dutySlot duty / slotsPerEpoch s in
  NoDup (ValidatorIndices duty) ->
  (forall v, v ∈ ValidatorIndices duty -> v ∉ attestedIn s epoch) ->
  length (CommitteeIndices duty) = length (ValidatorIndices duty) ->
  length (ValidatorCommitteeIndices duty) = length (ValidatorIndices duty) ->
  CommitteeIndices duty !! 0%nat = Some c0 ->
  AttestationDataOf env (dutySlot duty) c0 = inr data ->
  Slot data = dutySlot duty ->
  Epoch (Source data) <= Epoch (Target data) ->
  slotsPerEpoch s <> 0 ->
  Epoch (Target data) <= current ->
  ValidatingAccountsForEpochByIndex env current (ValidatorIndices duty)
  = inr va ->
  va.*1 ⊆ ValidatorIndices duty ->
  (forall cs, exists sigs,
     SignBeaconAttestations env va.*2 (dutySlot duty) cs
       (BeaconBlockRoot data) (Epoch (Source data)) (Root (Source data))
       (Epoch (Target data)) (Root (Target data)) = inr sigs
     /\ length sigs = length va
     /\ Forall (fun sig => sig <> zeroSig) sigs) ->
  (forall atts, SubmitAttestations env atts = None) ->
  exists atts,
    (Attest env s duty).2 = Ok atts
    /\ length atts = length va
    /\ forall (j k : nat) v,
         va.*1 !! j = Some v -> ValidatorIndices duty !! k = Some v ->
         exists att c vc,
           atts !! j = Some att
           /\ CommitteeIndices duty !! k = Some c
           /\ ValidatorCommitteeIndices duty !! k = Some vc
           /\ Slot (Data att) = dutySlot duty
           /\ Index (Data att) = c
           /\ BeaconBlockRoot (Data att) = BeaconBlockRoot data
           /\ Source (Data att) = Source data
           /\ Target (Data att) = Target data
           /\ AggregationBits att
              = SetBitAt vc true (NewBitlist (CommitteeSize duty c))
           /\ Signature att <> zeroSig.
Proof.
  intros epoch current Hnd Hfresh Hlc Hlv Hc0 Hdata Hslot Hst Hspe Htc Hva
         Hsub Hsign Hsubmit.
  (* the filter keeps the duty as it is *)
  pose proof (filterIndices_kept (Account := Account) epoch (dutySlot duty)
                (ValidatorIndices duty) 0%nat
                (ensureEpoch epoch (attested s))) as Hkept.
  cbv zeta in Hkept. rewrite ensureEpoch_lookup in Hkept.
  destruct Hkept as (_ & _ & Hsame). specialize (Hsame Hnd Hfresh).
  (* the per-validator information *)
  destruct (perValidator_total duty
              (arrayIndexMap 0 (ValidatorIndices duty) ∅) va.*1)
    as [[[cs vcs] sizes] Hper].
  { intros v Hv. apply Hsub in Hv.
    apply list_elem_of_lookup in Hv as [k Hk].
    rewrite (arrayIndexMap_lookup _ 0%nat ∅ k v Hnd Hk). simpl.
    apply lookup_lt_Some in Hk. lia. }
  destruct (perValidator_lengths _ _ _ _ _ _ Hper) as (Hl1 & Hl2 & Hl3).
  destruct (perValidator_lookup _ _ _ _ _ _ Hper) as [_ Hpos].
  rewrite length_fmap in Hl1, Hl2, Hl3.
  (* signing and the attestations *)
  destruct (Hsign cs) as (sigs & Hsigs & Hlen & Hnz).
  destruct (createAttestations_total (Account := Account) duty data cs vcs
              sizes sigs 0%nat) as (atts & warns & Hcreate); [simpl; lia..|].
  destruct (createAttestations_all _ _ _ _ _ _ _ _ _ Hnz Hcreate)
    as [Hlatts Hatts].
  assert (attest env duty va.*1 va.*2 cs vcs sizes data
          = ((attest env duty va.*1 va.*2 cs vcs sizes data).1, Ok atts))
    as Hattest.
  { unfold attest. rewrite Hsigs, Hcreate.
    destruct atts as [|att atts]; [reflexivity|].
    rewrite Hsubmit. reflexivity. }
  exists atts. split; [|split; [lia|]].
  - unfold Attest. fold epoch.
    destruct (filterIndices epoch (dutySlot duty) 0 (ValidatorIndices duty)
                (ensureEpoch epoch (attested s))) as [[a vs] tr0].
    simpl in Hsame. subst vs. rewrite Hc0, Hdata.
    apply Z.eqb_eq in Hslot. rewrite Hslot. cbn [negb].
    destruct (Z.ltb_spec (Epoch (Target data)) (Epoch (Source data)))
      as [|_]; [lia|].
    destruct (Z.eqb_spec (slotsPerEpoch s) 0) as [|_]; [contradiction|].
    fold current.
    destruct (Z.ltb_spec current (Epoch (Target data))) as [|_]; [lia|].
    rewrite Hva, Hper, Hattest. destruct (1 <? epoch); reflexivity.
  - intros j k v Hj Hk.
    destruct (Hpos j v Hj) as (c & Hc & Hcs & Hvcs & Hsizes).
    rewrite (arrayIndexMap_lookup _ 0%nat ∅ k v Hnd Hk) in Hc, Hvcs.
    simpl in Hc, Hvcs.
    assert (j < length sigs)%nat as Hjs.
    { apply lookup_lt_Some in Hj. rewrite length_fmap in Hj. lia. }
    destruct (lookup_lt_is_Some_2 _ _ Hjs) as [sig Hsig].
    destruct (Hatts j sig Hsig) as (size & vc & c' & Hs' & Hv' & Hc' & Hatt).
    simpl in Hs', Hv', Hc'.
    rewrite Hcs in Hc'. injection Hc' as <-.
    rewrite Hsizes in Hs'. injection Hs' as <-.
    exists (newAttestation duty data (CommitteeSize duty c) vc c sig), c, vc.
    split; [exact Hatt|]. split; [exact Hc|].
    split; [rewrite <- Hvcs; exact Hv'|].
    unfold newAttestation. simpl.
    split; [reflexivity|]. split; [reflexivity|]. split; [reflexivity|].
    split; [destruct (Source data); reflexivity|].
    split; [destruct (Target data); reflexivity|].
    split; [reflexivity|].
    rewrite Forall_forall in Hnz. apply Hnz.
    apply list_elem_of_lookup. exists j. exact Hsig.
Qed.

End FreshDuty.

Lemma Attest_fresh_duty_attests_witness :
  exists atts,
    (Attest (node (dataFor 101) [5; 6; 7]) service32 duty101).2 = Ok atts
    /\ length atts = 3%nat.
Proof.
  destruct (Attest_fresh_duty_attests (node (dataFor 101) [5; 6; 7])
              service32 duty101 3 (dataFor 101)
              [(7, "account"%string); (8, "account"%string);
               (9, "account"%string)])
    as (atts & Hok & Hlen & _).
  - apply (bool_decide_unpack _). vm_compute. exact I.
  - intros v _ H. inversion H.
  - reflexivity.
  - reflexivity.
  - reflexivity.
  - reflexivity.
  - reflexivity.
  - simpl. lia.
  - discriminate.
  - vm_compute. discriminate.
  - reflexivity.
  - intros v Hv. exact Hv.
  - intros cs. exists [5; 6; 7]. split; [reflexivity|]. split; [reflexivity|].
    repeat constructor; discriminate.
  - reflexivity.
  - exists atts. split; [exact Hok|exact Hlen].
Defined.

End AttesterMore.

(** ** More on the time delay *)

Module TimeDelayMore.
Import TimeDelay TimeDelayFacts.

Lemma digits_rejects s : forall acc c post,
  digit c = None -> digits acc (s ++ String c post) = None.
Proof.
  induction s as [|a s IH]; intros acc c post Hc; simpl.
  - rewrite Hc. reflexivity.
  - destruct (digit a); [apply IH; exact Hc|reflexivity].
Qed.

(** [Atoi] takes no text with something else than a digit after its first
    character. *)
Lemma Atoi_rejects pre c post :
  pre <> EmptyString -> digit c = None ->
  Atoi (pre ++ String c post) = None.
Proof.
  intros Hpre Hc. destruct pre as [|a pre]; [contradiction|].
  pose proof (digits_rejects (String a pre) 0 c post Hc) as Hall.
  pose proof (digits_rejects pre 0 c post Hc) as Hrest.
  change (String a pre ++ String c post)%string
    with (String a (pre ++ String c post))%string in Hall |- *.
  unfold Atoi.
  destruct (Ascii.eqb a "-"); [|destruct (Ascii.eqb a "+")];
    cbv beta iota zeta.
  - rewrite Hrest. destruct (pre ++ String c post)%string; reflexivity.
  - rewrite Hrest. destruct (pre ++ String c post)%string; reflexivity.
  - rewrite Hall. reflexivity.
Qed.

(** X9.  A refresh that fails, because the file cannot be read or does not
    hold a number, makes that call return zero and not the cached delay; it
    leaves the cached delay as it was and counts as a refresh, so the calls of
    the 60 seconds that follow return the cached delay again and do not try
    the file again. *)
Theorem TimeDelayHack_failed_refresh (w : World) (g : Globals) :
  due w g ->
  getenv w "TIME_DELAY_HACK" <> EmptyString ->
  (forall data, readFile w (getenv w "TIME_DELAY_HACK") = Some data ->
                Atoi data = None) ->
  let o := TimeDelayHack w g in
  returned o = 0
  /\ reads o = [getenv w "TIME_DELAY_HACK"]
  /\ lag (globals o) = lag g
  /\ lastRead (globals o) = now w
  /\ (now w <> 0 ->
      forall ws, Forall (fun w' => now w' - now w < 60 * Second) ws ->
        Forall (fun r => returned r.2 = lag g /\ reads r.2 = [])
               (run (globals o) ws)).
Proof.
  intros Hdue Hname Hfail o.
  assert (o = {| globals := {| lastRead := now w; lag := lag g |};
                 returned := 0;
                 reads := [getenv w "TIME_DELAY_HACK"] |}) as ->.
  { subst o. unfold TimeDelayHack. apply due_spec in Hdue. rewrite Hdue.
    apply String.eqb_neq in Hname. rewrite Hname.
    destruct (readFile w _) as [data|] eqn:Er; [|reflexivity].
    rewrite (Hfail data eq_refl). reflexivity. }
  simpl. repeat split; try reflexivity.
  intros Hnow ws Hwin. apply window_cached; assumption.
Qed.

(** X10.  The file has to hold the number and nothing else.  When the text
    of the file has, after its first character, a character that is not a
    decimal digit (the line feed at the end of a line, a space, a unit, a
    decimal point), a due call returns zero and the cached delay stays as it
    was. *)
Theorem TimeDelayHack_needs_bare_number
    (w : World) (g : Globals) (pre : string) (c : ascii) (post : string) :
  due w g ->
  getenv w "TIME_DELAY_HACK" <> EmptyString ->
  readFile w (getenv w "TIME_DELAY_HACK")
  = Some (pre ++ String c post)%string ->
  pre <> EmptyString ->
  digit c = None ->
  returned (TimeDelayHack w g) = 0
  /\ lag (globals (TimeDelayHack w g)) = lag g.
Proof.
  intros Hdue Hname Hread Hpre Hc. unfold TimeDelayHack.
  apply due_spec in Hdue. rewrite Hdue.
  apply String.eqb_neq in Hname. rewrite Hname, Hread.
  rewrite (Atoi_rejects pre c post Hpre Hc). split; reflexivity.
Qed.

Lemma TimeDelayHack_failed_refresh_witness :
  let g := globals (TimeDelayHack (world250 (5 * Second)) initial) in
  let o := TimeDelayHack (worldWith None (70 * Second)) g in
  lag g = 250 * Millisecond
  /\ returned o = 0
  /\ Forall (fun r => returned r.2 = lag g /\ reads r.2 = [])
            (run (globals o) [worldWith None (71 * Second);
                              world250 (129 * Second)]).
Proof.
  intros g o.
  destruct (TimeDelayHack_failed_refresh (worldWith None (70 * Second)) g)
    as (Hret & _ & _ & _ & Hnext).
  - right. vm_compute. discriminate.
  - discriminate.
  - intros data Hdata. discriminate Hdata.
  - split; [reflexivity|]. split; [exact Hret|]. apply Hnext.
    + vm_compute. discriminate.
    + repeat apply List.Forall_cons; try apply List.Forall_nil;
        vm_compute; reflexivity.
Defined.

Lemma TimeDelayHack_needs_bare_number_witness :
  let w := worldWith (Some ("250" ++ String lineFeed "")%string)
                     (5 * Second) in
  returned (TimeDelayHack w initial) = 0
  /\ lag (globals (TimeDelayHack w initial)) = lag initial.
Proof.
  intros w.
  apply (TimeDelayHack_needs_bare_number w initial "250" lineFeed "").
  - left. reflexivity.
  - discriminate.
  - reflexivity.
  - discriminate.
  - reflexivity.
Defined.

End TimeDelayMore.

(** ** More on the block relay *)

Module BlockRelayMore.
Import BlockRelay BlockRelayFacts.

Lemma copyInto_length pubkey key :
  length (copyInto pubkey key) = length pubkey.
Proof.
  unfold copyInto. rewrite length_app, length_take, length_drop. lia.
Qed.

Lemma copyInto_full pubkey key :
  (length pubkey <= length key)%nat ->
  copyInto pubkey key = take (length pubkey) key.
Proof.
  intros Hlen. unfold copyInto. rewrite drop_ge by exact Hlen.
  apply app_nil_r.
Qed.

(** [Time.Round(time.Second)] gives a whole second, half a second away from
    the instant at most. *)
Lemma RoundSecond_spec t :
  RoundSecond t mod 1000000000 = 0
  /\ - 500000000 < RoundSecond t - t <= 500000000.
Proof.
  unfold RoundSecond. split; [apply Z_mod_mult|].
  pose proof (Z_div_mod_eq_full (t + 500000000) 1000000000) as Hdiv.
  pose proof (Z.mod_pos_bound (t + 500000000) 1000000000 ltac:(lia)) as Hmod.
  lia.
Qed.

(** A loop that ends has found a key for every account. *)
Lemma signRegistrations_keys s feeRecipients clock accounts :
  forall i pubkey regs tr,
  signRegistrations s feeRecipients clock i pubkey accounts = (tr, Some regs) ->
  Forall (fun a : Z * Account => publicKeyOf a.2 <> None) accounts.
Proof.
  induction accounts as [|[index account] rest IH]; intros i pubkey regs tr;
    simpl; [constructor|].
  destruct (publicKeyOf account) as [key|] eqn:Ek; [|discriminate].
  intros Hs. constructor; [simpl; rewrite Ek; discriminate|].
  destruct (signRegistrations s feeRecipients clock (S i) _ rest)
    as [tr' [regs'|]] eqn:E; [eapply IH; exact E|].
  destruct (feeRecipients !! index) as [feeRecipient|];
    [destruct (SignValidatorRegistration s account _) as [cause|sig]|];
    discriminate.
Qed.


(** The loop submits nothing and does not tell the monitor, however it
    ends. *)
Lemma signRegistrations_trace s feeRecipients clock accounts :
  forall i pubkey,
  Forall (fun e => match e with
                   | EvNoFeeRecipient _ | EvSign _ _ | EvSignFailed _ _ => True
                   | _ => False
                   end)
         (signRegistrations s feeRecipients clock i pubkey accounts).1.
Proof.
  induction accounts as [|[index account] rest IH]; intros i pubkey; simpl;
    [constructor|].
  destruct (publicKeyOf account) as [key|]; [|constructor].
  specialize (IH (S i) (copyInto pubkey key)).
  destruct (signRegistrations s feeRecipients clock (S i) _ rest)
    as [tr' regs'].
  destruct (feeRecipients !! index);
    [destruct (SignValidatorRegistration s account _)|]; simpl;
    repeat (constructor; [exact I|]); exact IH.
Qed.

Lemma signRegistrations_content s feeRecipients clock accounts :
  forall i pubkey regs tr,
  length pubkey = 48%nat ->
  signRegistrations s feeRecipients clock i pubkey accounts = (tr, Some regs) ->
  Forall (fun r =>
            exists j : nat,
              registrationOf s feeRecipients (fun k => clock (i + k)%nat)
                             accounts j r) regs.
Proof.
  induction accounts as [|[index account] rest IH]; intros i pubkey regs tr Hlen;
    simpl.
  - intros [= <- <-]. constructor.
  - destruct (publicKeyOf account) as [key|] eqn:Ek; [|discriminate].
    assert (forall regs' tr',
              signRegistrations s feeRecipients clock (S i)
                (copyInto pubkey key) rest = (tr', Some regs') ->
              Forall (fun r =>
                        exists j : nat,
                          registrationOf s feeRecipients
                            (fun k => clock (i + k)%nat)
                            ((index, account) :: rest) j r) regs') as Hrest.
    { intros regs' tr' E. apply IH in E; [|rewrite copyInto_length; exact Hlen].
      eapply Forall_impl; [exact E|].
      intros r (j & index' & account' & key' & Hj & Hrest).
      exists (S j), index', account', key'. split; [exact Hj|].
      replace (i + S j)%nat with (S i + j)%nat by lia. exact Hrest. }
    destruct (signRegistrations s feeRecipients clock (S i) _ rest)
      as [tr' [regs'|]] eqn:E.
    2:{ destruct (feeRecipients !! index);
          [destruct (SignValidatorRegistration s account _)|]; discriminate. }
    specialize (Hrest regs' tr' eq_refl).
    destruct (feeRecipients !! index) as [feeRecipient|] eqn:Ef.
    + destruct (SignValidatorRegistration s account _) as [cause|sig] eqn:Es.
      * intros [= <- <-]. exact Hrest.
      * intros [= <- <-]. constructor; [|exact Hrest].
        exists 0%nat, index, account, key. simpl.
        rewrite Nat.add_0_r, copyInto_length.
        repeat (split; [first [reflexivity|assumption]|]).
        split; [|exact Es].
        intros Hkey. rewrite copyInto_full by lia. rewrite Hlen. reflexivity.
    + intros [= <- <-]. exact Hrest.
Qed.

Lemma submissions_in tr provider regs :
  EvSubmit provider regs ∈ tr <-> (provider, regs) ∈ submissions tr.
Proof.
  unfold submissions. rewrite list_elem_of_omap. split.
  - intros Hin. exists (EvSubmit provider regs). split; [exact Hin|reflexivity].
  - intros (e & Hin & He). destruct e; try discriminate.
    injection He as -> ->. exact Hin.
Qed.

(** What a call that does not panic submits: to every relay the list that
    the signing loop made. *)
Lemma SubmitValidatorRegistrations_submissions s clock accounts feeRecipients
    regs tr :
  signRegistrations s feeRecipients clock 0 zeroPubKey accounts
  = (tr, Some regs) ->
  SubmitValidatorRegistrations s clock accounts feeRecipients
  = (tr ++ submitAll regs (validatorRegistrationsSubmitters s) ++ [EvMonitored],
     Returned None)
  /\ submissions (SubmitValidatorRegistrations s clock accounts
                    feeRecipients).1
     = (fun submitter => (Address submitter, regs))
         <$> validatorRegistrationsSubmitters s.
Proof.
  intros Hs. unfold SubmitValidatorRegistrations. rewrite Hs.
  split; [reflexivity|]. simpl.
  destruct (signRegistrations_total s feeRecipients clock accounts
              (signRegistrations_keys _ _ _ _ _ _ _ _ Hs) 0%nat zeroPubKey)
    as (regs' & tr' & Hs' & Hsub & _).
  rewrite Hs in Hs'. injection Hs' as <- <-.
  rewrite !submissions_app, Hsub, submissions_submitAll. simpl.
  apply app_nil_r.
Qed.

(** The events of the loop are no submission, no failure of a relay and no
    report to the monitor. *)
Lemma loop_events (tr : list Event) :
  Forall (fun e => match e with
                   | EvNoFeeRecipient _ | EvSign _ _ | EvSignFailed _ _ => True
                   | _ => False
                   end) tr ->
  submissions tr = [] /\ failures tr = [] /\ (EvMonitored ∉ tr)
  /\ forall provider regs, EvSubmit provider regs ∉ tr.
Proof.
  induction 1 as [|e tr He _ (Hs & Hf & Hm & Hsub)].
  - repeat split; try reflexivity; intros; intros H; inversion H.
  - destruct e; try contradiction;
      (split; [exact Hs|]; split; [exact Hf|]; split;
       [intros H; apply elem_of_cons in H as [H|H]; [discriminate|auto]|];
       intros provider regs H; apply elem_of_cons in H as [H|H];
       [discriminate|exact (Hsub _ _ H)]).
Qed.

(** What follows the loop is submissions, failures of relays and the report
    to the monitor. *)
Lemma after_loop_events regs submitters (e : Event) :
  e ∈ submitAll regs submitters ++ [EvMonitored] ->
  match e with
  | EvSubmit _ _ | EvSubmitFailed _ _ | EvMonitored => True
  | _ => False
  end.
Proof.
  intros H. apply elem_of_app in H as [H|H].
  - induction submitters as [|submitter rest IH].
    { unfold submitAll in H. simpl in H. inversion H. }
    rewrite submitAll_cons in H.
    apply elem_of_app in H as [H|H]; [|exact (IH H)].
    unfold submitTo in H. apply elem_of_cons in H as [->|H]; [exact I|].
    destruct (SubmitValidatorRegistrationsTo submitter regs).
    + apply elem_of_cons in H as [->|H]; [exact I|inversion H].
    + inversion H.
  - apply elem_of_cons in H as [->|H]; [exact I|inversion H].
Qed.

(** X11.  What the relays are given.  Every registration of a submission
    belongs to an account of the call, one that has a fee recipient and for
    which the signer gave a signature: it carries that fee recipient, the gas
    limit of the service, a timestamp that is a whole second and half a
    second from the instant of its round at most, a public key of 48 bytes
    that is the key of the account when that has 48 bytes or more, and the
    signature the signer gave for exactly this message.  The relay is one of
    those configured. *)
Theorem SubmitValidatorRegistrations_registrations
    (s : Service) (clock : nat -> Z) (accounts : list (Z * Account))
    (feeRecipients : gmap Z Z) (provider : string)
    (regs : list VersionedSignedValidatorRegistration) :
  EvSubmit provider regs
    ∈ (SubmitValidatorRegistrations s clock accounts feeRecipients).1 ->
  (exists submitter,
     submitter ∈ validatorRegistrationsSubmitters s
     /\ Address submitter = provider)
  /\ (length regs <= length accounts)%nat
  /\ Forall (fun r =>
               exists j : nat,
                 registrationOf s feeRecipients clock accounts j r
                 /\ Timestamp (Message (V1 r)) mod 1000000000 = 0
                 /\ - 500000000 < Timestamp (Message (V1 r)) - clock j
                    <= 500000000) regs.
Proof.
  intros Hin.
  pose proof (signRegistrations_trace s feeRecipients clock accounts 0%nat
                zeroPubKey) as Hloop.
  destruct (signRegistrations s feeRecipients clock 0 zeroPubKey accounts)
    as [tr [regs0|]] eqn:Hs.
  2:{ exfalso. unfold SubmitValidatorRegistrations in Hin. rewrite Hs in Hin.
      apply loop_events in Hloop as (_ & _ & _ & Hnone).
      exact (Hnone _ _ Hin). }
  destruct (SubmitValidatorRegistrations_submissions _ _ _ _ _ _ Hs)
    as [_ Hsub].
  apply submissions_in in Hin. rewrite Hsub in Hin.
  apply list_elem_of_fmap in Hin as (submitter & Heq & Hin).
  injection Heq as -> ->.
  split; [exists submitter; split; [exact Hin|reflexivity]|].
  split.
  - clear Hsub Hin Hloop. revert Hs. generalize 0%nat zeroPubKey.
    revert regs0 tr.
    induction accounts as [|[index account] rest IH];
      intros regs0 tr i pubkey; simpl.
    + intros [= <- <-]. reflexivity.
    + destruct (publicKeyOf account) as [key|]; [|discriminate].
      destruct (signRegistrations s feeRecipients clock (S i) _ rest)
        as [tr' [regs'|]] eqn:E.
      2:{ destruct (feeRecipients !! index);
            [destruct (SignValidatorRegistration s account _)|];
            discriminate. }
      apply IH in E.
      destruct (feeRecipients !! index) as [feeRecipient|];
        [destruct (SignValidatorRegistration s account _) as [cause|sig]|];
        intros [= <- <-]; simpl; lia.
  - apply signRegistrations_content in Hs; [|reflexivity].
    eapply Forall_impl; [exact Hs|].
    intros r (j & Hreg). exists j. split; [exact Hreg|].
    destruct Hreg as (index & account & key & _ & _ & _ & _ & Htime & _).
    simpl in Htime. rewrite Htime. apply RoundSecond_spec.
Qed.

(** Who is logged for a missing fee recipient and for whom the signer is
    asked, in a loop that ends. *)
Lemma signRegistrations_missing s feeRecipients clock accounts :
  forall i pubkey regs tr,
  signRegistrations s feeRecipients clock i pubkey accounts = (tr, Some regs) ->
  (forall index,
     EvNoFeeRecipient index ∈ tr
     <-> index ∈ accounts.*1 /\ feeRecipients !! index = None)
  /\ (forall index,
        (exists registration, EvSign index registration ∈ tr)
        <-> index ∈ accounts.*1 /\ is_Some (feeRecipients !! index))
  /\ ((forall index, index ∈ accounts.*1 -> feeRecipients !! index = None) ->
      regs = []).
Proof.
  induction accounts as [|[index account] rest IH]; intros i pubkey regs tr;
    simpl.
  - intros [= <- <-]. split; [|split; [|reflexivity]].
    + intros index. split; [intros H; inversion H|intros [H _]; inversion H].
    + intros index. split; [intros [r H]; inversion H|intros [H _]; inversion H].
  - destruct (publicKeyOf account) as [key|]; [|discriminate].
    destruct (signRegistrations s feeRecipients clock (S i) _ rest)
      as [tr' [regs'|]] eqn:E.
    2:{ destruct (feeRecipients !! index);
          [destruct (SignValidatorRegistration s account _)|]; discriminate. }
    apply IH in E as (Hlog & Hsign & Hnone).
    assert (index ∈ index :: rest.*1) as Hhead by left.
    destruct (feeRecipients !! index) as [feeRecipient|] eqn:Ef.
    + assert (is_Some (feeRecipients !! index)) as Hfr
        by (rewrite Ef; eexists; reflexivity).
      destruct (SignValidatorRegistration s account _) as [cause|sig];
        intros [= <- <-]; (split; [|split]).
      * intros index'. split.
        -- intros H. apply elem_of_cons in H as [H|H]; [discriminate|].
           apply elem_of_cons in H as [H|H]; [discriminate|].
           apply Hlog in H as [H1 H2]. split; [right; exact H1|exact H2].
        -- intros [H1 H2]. right. right. apply Hlog.
           apply elem_of_cons in H1 as [->|H1]; [congruence|].
           split; assumption.
      * intros index'. split.
        -- intros [r H]. apply elem_of_cons in H as [H|H].
           { injection H as -> _. split; [exact Hhead|exact Hfr]. }
           apply elem_of_cons in H as [H|H]; [discriminate|].
           destruct (proj1 (Hsign index') (ex_intro _ r H)) as [H1 H2].
           split; [right; exact H1|exact H2].
        -- intros [H1 H2]. apply elem_of_cons in H1 as [->|H1].
           { eexists. left. }
           destruct (proj2 (Hsign index') (conj H1 H2)) as [r H].
           exists r. right. right. exact H.
      * intros Hall. specialize (Hall index Hhead). congruence.
      * intros index'. split.
        -- intros H. apply elem_of_cons in H as [H|H]; [discriminate|].
           apply Hlog in H as [H1 H2]. split; [right; exact H1|exact H2].
        -- intros [H1 H2]. right. apply Hlog.
           apply elem_of_cons in H1 as [->|H1]; [congruence|].
           split; assumption.
      * intros index'. split.
        -- intros [r H]. apply elem_of_cons in H as [H|H].
           { injection H as -> _. split; [exact Hhead|exact Hfr]. }
           destruct (proj1 (Hsign index') (ex_intro _ r H)) as [H1 H2].
           split; [right; exact H1|exact H2].
        -- intros [H1 H2]. apply elem_of_cons in H1 as [->|H1].
           { eexists. left. }
           destruct (proj2 (Hsign index') (conj H1 H2)) as [r H].
           exists r. right. exact H.
      * intros Hall. specialize (Hall index Hhead). congruence.
    + intros [= <- <-]. split; [|split].
      * intros index'. split.
        -- intros H. apply elem_of_cons in H as [H|H].
           ++ injection H as ->. split; [exact Hhead|exact Ef].
           ++ apply Hlog in H as [H1 H2]. split; [right; exact H1|exact H2].
        -- intros [H1 H2]. apply elem_of_cons in H1 as [->|H1]; [left|].
           right. apply Hlog. auto.
      * intros index'. split.
        -- intros [r H]. apply elem_of_cons in H as [H|H]; [discriminate|].
           destruct (proj1 (Hsign index') (ex_intro _ r H)) as [H1 H2].
           split; [right; exact H1|exact H2].
        -- intros [H1 H2]. apply elem_of_cons in H1 as [->|H1].
           { rewrite Ef in H2. destruct H2 as [x H2]. discriminate. }
           destruct (proj2 (Hsign index') (conj H1 H2)) as [r H].
           exists r. right. exact H.
      * intros Hall. apply Hnone. intros index' Hin. apply Hall.
        right. exact Hin.
Qed.

(** X12.  Validators without a fee recipient.  Exactly the accounts whose
    validator has no fee recipient are logged as such, and the signer is
    asked exactly for the others.  When no account has a fee recipient the
    signer is not asked at all, and the call still submits to every relay:
    an empty list of registrations. *)
Theorem SubmitValidatorRegistrations_without_fee_recipient
    (s : Service) (clock : nat -> Z) (accounts : list (Z * Account))
    (feeRecipients : gmap Z Z) :
  Forall (fun a : Z * Account => publicKeyOf a.2 <> None) accounts ->
  let o := SubmitValidatorRegistrations s clock accounts feeRecipients in
  (forall index,
     EvNoFeeRecipient index ∈ o.1
     <-> index ∈ accounts.*1 /\ feeRecipients !! index = None)
  /\ (forall index,
        (exists registration, EvSign index registration ∈ o.1)
        <-> index ∈ accounts.*1 /\ is_Some (feeRecipients !! index))
  /\ ((forall index, index ∈ accounts.*1 -> feeRecipients !! index = None) ->
      (forall index registration, EvSign index registration ∉ o.1)
      /\ submissions o.1
         = (fun submitter => (Address submitter, []))
             <$> validatorRegistrationsSubmitters s).
Proof.
  intros Hkeys o.
  destruct (signRegistrations_total s feeRecipients clock accounts Hkeys
              0%nat zeroPubKey) as (regs & tr & Hs & _ & _).
  destruct (SubmitValidatorRegistrations_submissions _ _ _ _ _ _ Hs)
    as [Heq Hsub].
  destruct (signRegistrations_missing _ _ _ _ _ _ _ _ Hs)
    as (Hlog & Hsign & Hnone).
  assert (forall e : Event,
            match e with
            | EvSubmit _ _ | EvSubmitFailed _ _ | EvMonitored => False
            | _ => True
            end ->
            e ∈ o.1 <-> e ∈ tr) as Hloop.
  { intros e He. subst o. rewrite Heq. simpl. rewrite elem_of_app.
    split; [|auto]. intros [H|H]; [exact H|exfalso].
    apply after_loop_events in H. destruct e; contradiction. }
  split; [|split].
  - intros index. rewrite <- Hlog. apply Hloop. exact I.
  - intros index. rewrite <- Hsign. split.
    + intros [r H]. exists r. apply Hloop; [exact I|exact H].
    + intros [r H]. exists r. apply Hloop; [exact I|exact H].
  - intros Hall. split.
    + intros index registration H. apply Hloop in H; [|exact I].
      destruct (proj1 (Hsign index) (ex_intro _ registration H))
        as [Hin [fr Hfr]].
      rewrite (Hall index Hin) in Hfr. discriminate.
    + subst o. rewrite Hsub, (Hnone Hall). reflexivity.
Qed.


Lemma failures_submitAll_in regs submitters provider cause :
  (provider, cause) ∈ failures (submitAll regs submitters)
  <-> exists submitter,
        submitter ∈ submitters /\ Address submitter = provider
        /\ SubmitValidatorRegistrationsTo submitter regs = Some cause.
Proof.
  induction submitters as [|first rest IH].
  - split; [intros H; inversion H|intros (x & H & _); inversion H].
  - rewrite submitAll_cons, failures_app, elem_of_app, IH. unfold submitTo.
    split.
    + intros [H|(x & Hx & Ha & Hc)].
      * destruct (SubmitValidatorRegistrationsTo first regs) as [cause'|]
          eqn:E; simpl in H; [|inversion H].
        apply elem_of_cons in H as [[= Hp Hcause]|H]; [|inversion H].
        exists first. split; [left|]. split; [symmetry; exact Hp|].
        rewrite E, Hcause. reflexivity.
      * exists x. split; [right; exact Hx|]. split; assumption.
    + intros (x & Hx & <- & Hc). apply elem_of_cons in Hx as [Hx|Hx].
      * left. subst x. rewrite Hc. simpl. left.
      * right. exists x. split; [exact Hx|]. split; [reflexivity|exact Hc].
Qed.

(** X14.  The log of relay failures is exact: a relay is logged as failed,
    with the error it gave, when it is a configured relay that refused the
    registrations of this call, and only then; accounts that were skipped are
    never reported as a failure of a relay. *)
Theorem SubmitValidatorRegistrations_logs_exactly_failures
    (s : Service) (clock : nat -> Z) (accounts : list (Z * Account))
    (feeRecipients : gmap Z Z) :
  Forall (fun a : Z * Account => publicKeyOf a.2 <> None) accounts ->
  let o := SubmitValidatorRegistrations s clock accounts feeRecipients in
  exists regs,
    submissions o.1
    = (fun submitter => (Address submitter, regs))
        <$> validatorRegistrationsSubmitters s
    /\ forall provider cause,
         (provider, cause) ∈ failures o.1
         <-> exists submitter,
               submitter ∈ validatorRegistrationsSubmitters s
               /\ Address submitter = provider
               /\ SubmitValidatorRegistrationsTo submitter regs = Some cause.
Proof.
  intros Hkeys o.
  destruct (signRegistrations_total s feeRecipients clock accounts Hkeys
              0%nat zeroPubKey) as (regs & tr & Hs & _ & Hf).
  destruct (SubmitValidatorRegistrations_submissions _ _ _ _ _ _ Hs)
    as [Heq Hsub].
  subst o. exists regs. split; [exact Hsub|].
  intros provider cause. rewrite Heq. simpl.
  rewrite !failures_app, Hf. simpl. rewrite app_nil_r.
  apply failures_submitAll_in.
Qed.

Lemma twoAccounts_keys :
  Forall (fun a : Z * Account => publicKeyOf a.2 <> None) twoAccounts.
Proof. repeat apply List.Forall_cons; try apply List.Forall_nil; discriminate. Qed.

Lemma SubmitValidatorRegistrations_registrations_witness :
  let o := SubmitValidatorRegistrations relayService atInstant twoAccounts
             {[ 7 := 99 ]} in
  let regs :=
    default [] (signRegistrations relayService {[ 7 := 99 ]} atInstant
                                  0 zeroPubKey twoAccounts).2 in
  EvSubmit "relay-b" regs ∈ o.1
  /\ length regs = 1%nat
  /\ Forall (fun r => exists j : nat,
               registrationOf relayService {[ 7 := 99 ]} atInstant
                              twoAccounts j r) regs.
Proof.
  intros o regs.
  assert (EvSubmit "relay-b" regs ∈ o.1) as Hin.
  { vm_compute. repeat first [left | right]. }
  split; [exact Hin|]. split; [reflexivity|].
  destruct (SubmitValidatorRegistrations_registrations _ _ _ _ _ _ Hin)
    as (_ & _ & Hall).
  eapply Forall_impl; [exact Hall|].
  intros r (j & Hreg & _). exists j. exact Hreg.
Defined.

Lemma SubmitValidatorRegistrations_without_fee_recipient_witness :
  let o := SubmitValidatorRegistrations relayService atInstant twoAccounts ∅ in
  EvNoFeeRecipient 8 ∈ o.1
  /\ (forall index registration, EvSign index registration ∉ o.1)
  /\ submissions o.1 = [("relay-a"%string, []); ("relay-b"%string, [])].
Proof.
  intros o.
  destruct (SubmitValidatorRegistrations_without_fee_recipient relayService
              atInstant twoAccounts ∅ twoAccounts_keys) as (Hlog & _ & Hnone).
  split.
  - apply Hlog. split; [right; left|apply lookup_empty].
  - apply Hnone. intros index _. apply lookup_empty.
Defined.


Lemma SubmitValidatorRegistrations_logs_exactly_failures_witness :
  let o := SubmitValidatorRegistrations relayService atInstant twoAccounts
             {[ 7 := 99 ]} in
  ("relay-a"%string, "refused"%string) ∈ failures o.1
  /\ forall cause, ("relay-b"%string, cause) ∉ failures o.1.
Proof.
  intros o.
  destruct (SubmitValidatorRegistrations_logs_exactly_failures relayService
              atInstant twoAccounts {[ 7 := 99 ]} twoAccounts_keys)
    as (regs & _ & Hiff).
  split.
  - apply Hiff. eexists. split; [left|]. split; reflexivity.
  - intros cause H. apply Hiff in H as (submitter & Hin & Ha & Hc).
    apply elem_of_cons in Hin as [->|Hin]; [discriminate Ha|].
    apply elem_of_cons in Hin as [->|Hin]; [discriminate Hc|inversion Hin].
Defined.

End BlockRelayMore.

(** ** More on the scorer's test *)

Module ScorerMore.
Import Scorer.

Lemma bitListLoop_eq set total :
  bitListLoop set total
  = replicate (Nat.min set total) true ++ replicate (total - set) false.
Proof.
  unfold bitListLoop. induction set as [|n IH].
  - simpl. unfold Attester.NewBitlist. rewrite Nat2Z.id, Nat.sub_0_r.
    reflexivity.
  - rewrite seq_S, foldl_app, IH. cbn [foldl Nat.add].
    unfold Attester.SetBitAt.
    rewrite length_app, !length_replicate.
    destruct (Z.leb_spec 0 (Z.of_nat n)) as [_|Hneg]; [|lia].
    destruct (Z.ltb_spec (Z.of_nat n)
                (Z.of_nat (Nat.min n total + (total - n)))) as [Hlt|Hge];
      cbn [andb].
    + assert (n < total)%nat as Hn by lia.
      rewrite Nat2Z.id.
      replace (Nat.min n total) with n by lia.
      replace (Nat.min (S n) total) with (S n) by lia.
      replace (total - n)%nat with (S (total - S n)) by lia.
      rewrite insert_app_r_alt by (rewrite length_replicate; lia).
      rewrite length_replicate, Nat.sub_diag.
      rewrite (replicate_S_end n true), <- app_assoc. reflexivity.
    + assert (total <= n)%nat as Hn by lia.
      replace (Nat.min n total) with total by lia.
      replace (Nat.min (S n) total) with total by lia.
      replace (total - n)%nat with 0%nat by lia.
      replace (total - S n)%nat with 0%nat by lia. reflexivity.
Qed.

(** X15.  The [bitList] helper of the scorer's test, run as the loop it is,
    gives [total] bits of which exactly the first [set] that fit are set; it
    never gives more bits than [total].  It is the list of [set] set bits
    followed by unset ones whenever [set] is not above [total]. *)
Theorem bitListLoop_sets_first_bits (set total : nat) :
  length (bitListLoop set total) = total
  /\ (forall k : nat,
        bitListLoop set total !! k = Some true <-> (k < set /\ k < total)%nat)
  /\ ((set <= total)%nat -> bitListLoop set total = bitList set total).
Proof.
  rewrite bitListLoop_eq. split; [|split].
  - rewrite length_app, !length_replicate. lia.
  - intros k. destruct (decide (k < Nat.min set total)%nat) as [Hk|Hk].
    + rewrite lookup_app_l by (rewrite length_replicate; exact Hk).
      rewrite lookup_replicate_2 by exact Hk. split; [lia|reflexivity].
    + rewrite lookup_app_r by (rewrite length_replicate; lia).
      split; [|lia]. intros H. apply lookup_replicate in H as [H _].
      discriminate.
  - intros Hle. unfold bitList. replace (Nat.min set total) with set by lia.
    reflexivity.
Qed.

Lemma bitListLoop_sets_first_bits_witness :
  bitListLoop 5 128 = bitList 5 128
  /\ length (bitListLoop 130 128) = 128%nat.
Proof.
  destruct (bitListLoop_sets_first_bits 5 128) as (_ & _ & Heq).
  destruct (bitListLoop_sets_first_bits 130 128) as (Hlen & _).
  split; [apply Heq; lia|exact Hlen].
Defined.

End ScorerMore.
